(** * consul-catalog-sync: the mapping engine, the batch executor, the
    inspection outputs, the loader and the command

    A shallow embedding of the mapping engine (GenerateOperations and the
    functions below it), of [consul.go] (ExecuteOperations and the
    functions below it), of [output.go], of the loader of vars and mapping
    files and of main, followed by the properties the design document
    states about them and by further properties of the code.

    Go values of type [interface{}] are an inductive type, Go maps with
    string keys are stdpp's [gmap string], slices are lists, Go's [int] is a
    [Z] kept inside 64 bits, [float64] is the Standard Library's
    [spec_float] at precision 53.  The parts of the Go runtime the program
    calls but does not define (the full text/template language, JSON
    encoding and decoding of documents, the HTTP round trip, the printing of
    a float, the file system and the YAML decoder) are parameters of the
    sections below; the parts that decide a property (field references of
    text/template, the JSON number grammar, the rounding of a decimal
    literal to a float64, filepath.Ext) are written out. *)

From Stdlib Require Import ZArith String Ascii List Lia Bool.
From Stdlib Require Import Floats.SpecFloat.
From stdpp Require Import gmap strings list fin_maps pretty sorting.

Set Warnings "-register-all".
Local Open Scope Z_scope.

(** ** Go's [int] on a 64-bit platform *)

Module GoInt.

Definition minInt : Z := - 2 ^ 63.
Definition maxInt : Z := 2 ^ 63 - 1.

(** Two's complement wrap-around of an exact result. *)
Definition wrap (z : Z) : Z := (z + 2 ^ 63) mod 2 ^ 64 - 2 ^ 63.

Definition add (a b : Z) : Z := wrap (a + b).
Definition sub (a b : Z) : Z := wrap (a - b).

(** Go's [/] truncates toward zero. *)
Definition div (a b : Z) : Z := wrap (Z.quot a b).

Definition inRange (z : Z) : bool := (minInt <=? z) && (z <=? maxInt).

(** The builtin [min]; output.go defines the same function for [int]. *)
Definition min (a b : Z) : Z := if a <? b then a else b.

End GoInt.

(** ** Values of type [interface{}] *)

Definition float64 : Type := spec_float.

(** [VMap] is a non-nil [map[string]interface{}], [VList] a
    [[]interface{}], [VNil] the nil interface. *)
Inductive Value : Type :=
| VNil
| VString (s : string)
| VInt (z : Z)
| VFloat (f : float64)
| VBool (b : bool)
| VList (l : list Value)
| VMap (m : gmap string Value).

(** An operation, a template and a record are all [map[string]interface{}]. *)
Abbreviation GoMap := (gmap string Value).

(** ** strconv and encoding/json, as far as a single number is concerned *)

Module Strconv.

Definition isDigit (c : ascii) : bool :=
  let n := Z.of_nat (nat_of_ascii c) in (48 <=? n) && (n <=? 57).

Definition digitVal (c : ascii) : Z := Z.of_nat (nat_of_ascii c) - 48.

(** JSON white space: space, tab, line feed, carriage return. *)
Definition isJSONSpace (c : ascii) : bool :=
  let n := nat_of_ascii c in
  Nat.eqb n 32 || Nat.eqb n 9 || Nat.eqb n 10 || Nat.eqb n 13.

Fixpoint skipSpace (s : string) : string :=
  match s with
  | String c r => if isJSONSpace c then skipSpace r else s
  | EmptyString => s
  end.

(** Reads a run of digits; [acc] is the value read so far and [n] the
    number of digits. *)
Fixpoint scanDigits (acc n : Z) (s : string) : Z * Z * string :=
  match s with
  | String c r =>
      if isDigit c then scanDigits (10 * acc + digitVal c) (n + 1) r
      else (acc, n, s)
  | EmptyString => (acc, n, s)
  end.

(** A JSON number literal [-? int frac? exp?] denotes
    [(-1)^neg * mant * 10^exp10]. *)
Record Decimal : Type := mkDecimal { neg : bool; mant : Z; exp10 : Z }.

Definition scanSign (s : string) : bool * string :=
  match s with
  | String "-" r => (true, r)
  | _ => (false, s)
  end.

(** The integer part: a single [0], or a non-zero digit and more digits. *)
Definition scanInt (s : string) : option (Z * string) :=
  match s with
  | String "0" r => Some (0, r)
  | String c r =>
      if isDigit c then
        let '(v, _, r') := scanDigits (digitVal c) 1 r in Some (v, r')
      else None
  | EmptyString => None
  end.

(** The fraction: nothing, or a point and at least one digit.  Returns the
    mantissa extended by the fraction digits and their number. *)
Definition scanFrac (m : Z) (s : string) : option (Z * Z * string) :=
  match s with
  | String "." r =>
      let '(v, n, r') := scanDigits m 0 r in
      if n =? 0 then None else Some (v, n, r')
  | _ => Some (m, 0, s)
  end.

(** The exponent: nothing, or [e]/[E], an optional sign and at least one
    digit. *)
Definition scanExp (s : string) : option (Z * string) :=
  let digits (sgn : Z) (r : string) :=
    let '(v, n, r') := scanDigits 0 0 r in
    if n =? 0 then None else Some (sgn * v, r') in
  let signed (r : string) :=
    match r with
    | String "+" r' => digits 1 r'
    | String "-" r' => digits (-1) r'
    | _ => digits 1 r
    end in
  match s with
  | String "e" r => signed r
  | String "E" r => signed r
  | _ => Some (0, s)
  end.

Definition scanNumber (s : string) : option (Decimal * string) :=
  let '(sg, s1) := scanSign s in
  match scanInt s1 with
  | None => None
  | Some (i, s2) =>
      match scanFrac i s2 with
      | None => None
      | Some (m, nfrac, s3) =>
          match scanExp s3 with
          | None => None
          | Some (e, s4) => Some (mkDecimal sg m (e - nfrac), s4)
          end
      end
  end.

Definition prec : Z := 53.
Definition emax : Z := 1024.

(** strconv.ParseFloat(s, 64) on a literal of the JSON grammar: the
    float64 nearest to the decimal value, ties to even.  An infinite
    result is ParseFloat's range error. *)
Definition roundDecimal (d : Decimal) : float64 :=
  if mant d =? 0 then S754_zero (neg d)
  else
    let num := mant d * 10 ^ Z.max (exp10 d) 0 in
    let den := 10 ^ Z.max (- exp10 d) 0 in
    let '(q, e, loc) := SFdiv_core_binary prec emax num 0 den 0 in
    binary_round_aux prec emax (neg d) q e loc.

(** [var num float64; err := json.Unmarshal([]byte(s), &num)]:
    [Some num] when [err == nil].  The input has to be one JSON value
    between optional white space.  A number in range is stored; [null]
    leaves [num] at its zero value and is no error; a number out of
    range, any other JSON value and any text that is not JSON is an
    error. *)
Definition unmarshalFloat64 (s : string) : option float64 :=
  let s1 := skipSpace s in
  match s1 with
  | String "n" (String "u" (String "l" (String "l" r))) =>
      match skipSpace r with
      | EmptyString => Some (S754_zero false)
      | _ => None
      end
  | _ =>
      match scanNumber s1 with
      | Some (d, r) =>
          match skipSpace r with
          | EmptyString =>
              match roundDecimal d with
              | S754_infinity _ | S754_nan => None
              | f => Some f
              end
          | _ => None
          end
      | None => None
      end
  end.

(** The integer part of a float, toward zero. *)
Definition truncate (f : float64) : Z :=
  match f with
  | S754_finite s m e =>
      let a := if 0 <=? e then Z.pos m * 2 ^ e else Z.pos m / 2 ^ (- e) in
      if s then - a else a
  | _ => 0
  end.

(** The conversion [int(num)].  When the integer part does not fit an
    [int] the Go specification leaves the result to the implementation:
    [outOfRange] is that result. *)
Definition floatToInt (outOfRange : float64 -> Z) (f : float64) : Z :=
  let t := truncate f in
  if GoInt.inRange t then t else outOfRange f.

End Strconv.

(** ** The data of the mapping engine *)

(** ExecutionContext holds the context for template execution. *)
Record ExecutionContext : Type := mkContext {
  Key : string;          (* Node name from vars *)
  Value_ : GoMap;        (* Node data from vars: the field [Value] *)
  Datacenter : string;   (* From command line *)
  Item : Value           (* Current item in foreach loop; [VNil] outside *)
}.

(** ** What the Go runtime contributes

    Everything the program takes from Go's libraries and that is not
    written out in this file. *)
Class GoRuntime : Type := {
  (** fmt's [%v] of a float64: strconv.FormatFloat(f, 'g', -1, 64). *)
  formatFloat : float64 -> string;
  (** [int(f)] when the integer part of [f] does not fit an [int]. *)
  intOutOfRange : float64 -> Z;
  (** template.Parse on a pattern outside the fragment written out in
      [TextTemplate]: does it parse?  The flag tells whether the functions
      [default] and [toJSON] are registered. *)
  templateParses : bool -> string -> bool;
  (** Execute of such a pattern: the text written, or [None] for an
      execution error. *)
  templateExecutes : bool -> string -> ExecutionContext -> option string;
  (** [var items []interface{}; json.Unmarshal(text, &items)]:
      [Some items] when the error is nil. *)
  unmarshalArray : string -> option (list Value)
}.

(** ** fmt.Fprint of a value *)

Module Fmt.

Definition keyLe (a b : string * string) : Prop :=
  String.leb (fst a) (fst b) = true.

#[export] Instance keyLe_dec (a b : string * string) : Decision (keyLe a b).
Proof. unfold keyLe. apply _. Defined.

Fixpoint join (sep : string) (l : list string) : string :=
  match l with
  | [] => ""
  | [a] => a
  | a :: r => a +:+ sep +:+ join sep r
  end.

Section Print.
Context {rt : GoRuntime}.

(** The operand printed with [%v]: strings bare, maps by sorted key, a
    nil inside a map or slice as [<nil>]. *)
Fixpoint sprint (v : Value) : string :=
  match v with
  | VNil => "<nil>"
  | VString s => s
  | VInt z => pretty z
  | VFloat f => formatFloat f
  | VBool b => if b then "true" else "false"
  | VList l => "[" +:+ join " " (map sprint l) +:+ "]"
  | VMap m =>
      let entries := merge_sort keyLe (map_to_list (sprint <$> m)) in
      "map[" +:+ join " " (map (fun kv => fst kv +:+ ":" +:+ snd kv) entries)
             +:+ "]"
  end.
End Print.

End Fmt.

(** ** text/template: literal text and field references

    The patterns written out here are those made of literal text and of
    actions [{{ .A.B.C }}] holding one chain of field names.  Every other
    pattern (pipelines, function calls, variables, control structures, trim
    markers, comments) is left to [templateParses] and [templateExecutes]. *)

Module TextTemplate.

Inductive Node : Type :=
| NText (text : string)
| NField (ident : list string).

(** The lexer, one character at a time. *)
Inductive LexState : Type :=
| SText (text : string)                  (* in literal text *)
| SBrace (text : string)                 (* literal text, then one [{] *)
| SOpen                                  (* after [{{], before the chain *)
| SDot (ids : list string)               (* after a [.] *)
| SIdent (ids : list string) (id : string)  (* inside a field name *)
| SAfter (ids : list string)             (* space after the chain *)
| SClose (ids : list string).            (* after the first [}] *)

Definition isBlank (c : ascii) : bool :=
  let n := nat_of_ascii c in Nat.eqb n 32 || Nat.eqb n 9.

Definition isLetter (c : ascii) : bool :=
  let n := nat_of_ascii c in
  (Nat.leb 65 n && Nat.leb n 90) || (Nat.leb 97 n && Nat.leb n 122)
  || Nat.eqb n 95.

Definition isAlphaNumeric (c : ascii) : bool :=
  isLetter c || Strconv.isDigit c.

Definition snoc (s : string) (c : ascii) : string := s +:+ String c "".

Definition emitText (nodes : list Node) (text : string) : list Node :=
  match text with
  | EmptyString => nodes
  | _ => nodes ++ [NText text]
  end.

Definition lexStep (st : list Node * LexState) (c : ascii)
  : option (list Node * LexState) :=
  let '(nodes, q) := st in
  match q with
  | SText t =>
      if Ascii.eqb c "{" then Some (nodes, SBrace t)
      else Some (nodes, SText (snoc t c))
  | SBrace t =>
      if Ascii.eqb c "{" then Some (emitText nodes t, SOpen)
      else Some (nodes, SText (snoc (snoc t "{") c))
  | SOpen =>
      if isBlank c then Some (nodes, SOpen)
      else if Ascii.eqb c "." then Some (nodes, SDot [])
      else None
  | SDot ids =>
      if isLetter c then Some (nodes, SIdent ids (String c ""))
      else None
  | SIdent ids id =>
      if isAlphaNumeric c then Some (nodes, SIdent ids (snoc id c))
      else if Ascii.eqb c "." then Some (nodes, SDot (ids ++ [id]))
      else if isBlank c then Some (nodes, SAfter (ids ++ [id]))
      else if Ascii.eqb c "}" then Some (nodes, SClose (ids ++ [id]))
      else None
  | SAfter ids =>
      if isBlank c then Some (nodes, SAfter ids)
      else if Ascii.eqb c "}" then Some (nodes, SClose ids)
      else None
  | SClose ids =>
      if Ascii.eqb c "}" then Some (nodes ++ [NField ids], SText "")
      else None
  end.

Fixpoint lexRun (st : list Node * LexState) (s : string)
  : option (list Node) :=
  match s with
  | String c r =>
      match lexStep st c with
      | Some st' => lexRun st' r
      | None => None
      end
  | EmptyString =>
      match st with
      | (nodes, SText t) => Some (emitText nodes t)
      | (nodes, SBrace t) => Some (emitText nodes (snoc t "{"))
      | _ => None
      end
  end.

(** [Some nodes] when the pattern lies in the fragment. *)
Definition parseFragment (src : string) : option (list Node) :=
  lexRun ([], SText "") src.

(** A parsed template: of the fragment, or one kept as its source for the
    runtime. *)
Inductive Template : Type :=
| Fragment (nodes : list Node)
| Foreign (withFuncs : bool) (src : string).

(** What a chain has reached: reflect's invalid Value (a missing map key),
    a [string] field of the context, its [map] field, or an
    [interface{}] holding a value. *)
Inductive Receiver : Type :=
| RInvalid
| RString (s : string)
| RMap (m : GoMap)
| RIface (v : Value).

Inductive ExecError : Type :=
| NilPointerEvaluating (field : string)
| CantEvaluateField (field : string).

(** The first name of a chain selects a field of the struct. *)
Definition evalContextField (ctx : ExecutionContext) (name : string)
  : Receiver + ExecError :=
  if String.eqb name "Key" then inl (RString (Key ctx))
  else if String.eqb name "Value" then inl (RMap (Value_ ctx))
  else if String.eqb name "Datacenter" then inl (RString (Datacenter ctx))
  else if String.eqb name "Item" then inl (RIface (Item ctx))
  else inr (CantEvaluateField name).

Definition mapIndex (m : GoMap) (name : string) : Receiver :=
  match m !! name with
  | Some v => RIface v
  | None => RInvalid
  end.

(** exec.evalField on a receiver that is not the struct: an invalid
    receiver stays invalid, a nil interface is an error, a map is
    indexed, anything else has no fields. *)
Definition evalField (r : Receiver) (name : string) : Receiver + ExecError :=
  match r with
  | RInvalid => inl RInvalid
  | RString _ => inr (CantEvaluateField name)
  | RMap m => inl (mapIndex m name)
  | RIface VNil => inr (NilPointerEvaluating name)
  | RIface (VMap m) => inl (mapIndex m name)
  | RIface _ => inr (CantEvaluateField name)
  end.

Fixpoint evalFieldChain (r : Receiver) (ids : list string)
  : Receiver + ExecError :=
  match ids with
  | [] => inl r
  | id :: rest =>
      match evalField r id with
      | inl r' => evalFieldChain r' rest
      | inr e => inr e
      end
  end.

Definition evalChain (ctx : ExecutionContext) (ids : list string)
  : Receiver + ExecError :=
  match ids with
  | [] => inr (CantEvaluateField "")
  | id :: rest =>
      match evalContextField ctx id with
      | inl r => evalFieldChain r rest
      | inr e => inr e
      end
  end.

Section Exec.
Context {rt : GoRuntime}.

(** exec.printValue: an invalid Value and a nil interface print as
    [<no value>]. *)
Definition printValue (r : Receiver) : string :=
  match r with
  | RInvalid => "<no value>"
  | RString s => s
  | RMap m => Fmt.sprint (VMap m)
  | RIface VNil => "<no value>"
  | RIface v => Fmt.sprint v
  end.

Fixpoint execNodes (ctx : ExecutionContext) (nodes : list Node)
  (buf : string) : string + ExecError :=
  match nodes with
  | [] => inl buf
  | NText t :: rest => execNodes ctx rest (buf +:+ t)
  | NField ids :: rest =>
      match evalChain ctx ids with
      | inl r => execNodes ctx rest (buf +:+ printValue r)
      | inr e => inr e
      end
  end.

(** template.New(name).Funcs(funcMap).Parse(src); [None] is a parse
    error. *)
Definition Parse (withFuncs : bool) (src : string) : option Template :=
  match parseFragment src with
  | Some nodes => Some (Fragment nodes)
  | None =>
      if templateParses withFuncs src then Some (Foreign withFuncs src)
      else None
  end.

(** tmpl.Execute(&buf, ctx): the content of the buffer, or [None] for an
    execution error. *)
Definition Execute (t : Template) (ctx : ExecutionContext)
  : option string :=
  match t with
  | Fragment nodes =>
      match execNodes ctx nodes "" with
      | inl s => Some s
      | inr _ => None
      end
  | Foreign withFuncs src => templateExecutes withFuncs src ctx
  end.
End Exec.

End TextTemplate.

(** ** Errors, the log, and the state of a run *)

(** The errors the program builds with fmt.Errorf, one constructor per
    format string; a wrapped error ([%w]) is an argument. *)
Inductive error : Type :=
| TemplateParseError            (* template parse error: ... *)
| TemplateExecutionError        (* template execution error: ... *)
| FailedToProcessKey (key : string) (e : error)
| TemplateProcessingFailed (e : error)
| TemplateResultNotMap          (* template result is not a map *)
| UnknownOperationType (opType : string)
| MissingNodeOrService          (* invalid service operation: missing ... *)
| MissingNodeOrCheck            (* invalid check operation: missing ... *)
| InvalidForeachExpression
| FailedToMarshal
| FailedToCreateRequest
| FailedToSendRequest
| FailedToReadResponse
| HTTPStatus (status : Z) (body : string)
| TransactionRolledBack (status : Z) (body : string)
| TransactionUnknownError       (* transaction failed with unknown error *)
| TransactionFailed (opIndex : Z) (what : string)
| BatchFailed (batchNum : Z) (e : error).

(** The calls of log.Printf, one constructor per format string. *)
Inductive LogLine : Type :=
| WarnCondition (key : string) (e : error)
| WarnForeach (key : string) (e : error)
| WarnGenerate (key : string) (e : error)
| WarnItem (key : string) (e : error)
| InfoGenerating (nodes : Z)
| WarnInvalidNode (key : string)
| ErrorGenerate (key : string) (e : error)
| InfoGenerated (operations : Z)
| WarnNoOperations
| InfoExecutingBatch (batchNum totalBatches size : Z)
| DebugBatchContains (batchNum size : Z)
| DebugPayloadSize (bytes : Z)
| DebugFirstOperation (text : string)
| DebugTransactionSuccessful (status : Z)
| DebugTransactionResults (results : Z)
| ErrorOperationFailed (opIndex : Z) (what : string)
| OkBatchCompleted (batchNum totalBatches : Z).

(** What a run leaves behind: the batches put to the transaction endpoint
    and the lines logged, both oldest first. *)
Record World : Type := mkWorld {
  sent : list (list GoMap);
  logged : list LogLine
}.

Definition IO (A : Type) : Type := World -> A * World.

Definition ret {A : Type} (a : A) : IO A := fun w => (a, w).

Definition bind {A B : Type} (c : IO A) (k : A -> IO B) : IO B :=
  fun w => let '(a, w') := c w in k a w'.

Notation "x <- c ;; k" := (bind c (fun x => k))
  (at level 100, c at next level, right associativity).
Notation "c ;;; k" := (bind c (fun _ => k))
  (at level 100, right associativity).

Definition logPrintf (l : LogLine) : IO unit :=
  fun w => (tt, mkWorld (sent w) (logged w ++ [l])).

(** ** The mapping engine *)

(** OperationRule defines how to transform vars data into Consul
    operations. *)
Record OperationRule : Type := mkRule {
  Type_ : string;        (* Node, Service, Check *)
  Verb : string;         (* set, delete, cas *)
  Condition : string;    (* Template condition for execution *)
  Foreach : string;      (* Template for iteration *)
  Template : GoMap       (* Operation template *)
}.

(** MappingConfig represents the mapping configuration. *)
Record MappingConfig : Type := mkConfig {
  Operations : list OperationRule
}.

Module Engine.

Definition nonEmpty (s : string) : bool := negb (String.eqb s "").

(** The entries the loops of processTemplate skip: the negation of
    [processed != nil && processed != "" && processed != "<no value>"], a
    comparison of interface values. *)
Definition isBlankValue (v : Value) : bool :=
  match v with
  | VNil => true
  | VString s => String.eqb s "" || String.eqb s "<no value>"
  | _ => false
  end.

(** What a loop over processed entries keeps of one entry. *)
Definition kept (r : Value + error) : option Value :=
  match r with
  | inl v => if isBlankValue v then None else Some v
  | inr _ => None
  end.

Definition failure {A : Type} (r : A + error) : option error :=
  match r with
  | inl _ => None
  | inr e => Some e
  end.

(** The first error a loop over a slice runs into. *)
Definition firstError (rs : list (Value + error)) : option error :=
  list_find (fun r => is_Some (failure r)) rs ≫= fun ir => failure (snd ir).

(** The error a loop over a map runs into.  Go ranges over a map in an
    order of its own choosing; the order taken here is [map_to_list]'s. *)
Definition firstKeyError (rs : gmap string (Value + error))
  : option (string * error) :=
  list_find (fun kr => is_Some (failure (snd kr))) (map_to_list rs)
    ≫= fun ikr => pair (fst (snd ikr)) <$> failure (snd (snd ikr)).

(** strings.TrimSpace removes the white space of Unicode at both ends.
    A string is its UTF-8 bytes; [spaceRune] recognises one white space
    character at the head and returns what follows it. *)
Definition byte (c : ascii) : nat := nat_of_ascii c.

Definition spaceRune (s : list ascii) : option (list ascii) :=
  match s with
  | c :: r =>
      let n := byte c in
      if Nat.eqb n 32 || (Nat.leb 9 n && Nat.leb n 13) then Some r
      else match r with
      | c2 :: r2 =>
          let n2 := byte c2 in
          if Nat.eqb n 194 && (Nat.eqb n2 133 || Nat.eqb n2 160) then Some r2
          else match r2 with
          | c3 :: r3 =>
              let n3 := byte c3 in
              if (Nat.eqb n 225 && Nat.eqb n2 154 && Nat.eqb n3 128)
                 || (Nat.eqb n 226 && Nat.eqb n2 128 &&
                     ((Nat.leb 128 n3 && Nat.leb n3 138)
                      || Nat.eqb n3 168 || Nat.eqb n3 169 || Nat.eqb n3 175))
                 || (Nat.eqb n 226 && Nat.eqb n2 129 && Nat.eqb n3 159)
                 || (Nat.eqb n 227 && Nat.eqb n2 128 && Nat.eqb n3 128)
              then Some r3 else None
          | [] => None
          end
      | [] => None
      end
  | [] => None
  end.

(** The same from the end: [s] is the string reversed. *)
Definition spaceRuneRev (s : list ascii) : option (list ascii) :=
  match s with
  | c :: r =>
      match spaceRune [c] with
      | Some _ => Some r
      | None =>
          match r with
          | c2 :: r2 =>
              match spaceRune [c2; c] with
              | Some [] => Some r2
              | _ =>
                  match r2 with
                  | c3 :: r3 =>
                      match spaceRune [c3; c2; c] with
                      | Some [] => Some r3
                      | _ => None
                      end
                  | [] => None
                  end
              end
          | [] => None
          end
      end
  | [] => None
  end.

Fixpoint trimWith (strip : list ascii -> option (list ascii)) (fuel : nat)
  (s : list ascii) : list ascii :=
  match fuel with
  | O => s
  | S fuel' =>
      match strip s with
      | Some r => trimWith strip fuel' r
      | None => s
      end
  end.

Definition TrimSpace (s : string) : string :=
  let l := list_ascii_of_string s in
  let l1 := trimWith spaceRune (length l) l in
  let l2 := trimWith spaceRuneRev (length l1) (rev l1) in
  string_of_list_ascii (rev l2).

Definition TrimPrefix (s prefix : string) : string :=
  if String.prefix prefix s
  then String.substring (String.length prefix)
         (String.length s - String.length prefix) s
  else s.

Definition HasPrefix (s prefix : string) : bool := String.prefix prefix s.

Definition HasSuffix (s suffix : string) : bool :=
  let n := String.length s in
  let k := String.length suffix in
  Nat.leb k n && String.eqb (String.substring (n - k) k s) suffix.

Definition TrimSuffix (s suffix : string) : string :=
  if HasSuffix s suffix
  then String.substring 0 (String.length s - String.length suffix) s
  else s.

(** {{ .Value.fieldname }} -> fieldname *)
Definition parseFieldPath (expr : string) : string :=
  let expr := TrimSpace expr in
  let expr := TrimPrefix expr "{{" in
  let expr := TrimSuffix expr "}}" in
  let expr := TrimSpace expr in
  if HasPrefix expr ".Value." then TrimPrefix expr ".Value." else "".

(** "field1" -> data["field1"]; [None] is the nil the source returns. *)
Definition getNestedField (data : GoMap) (path : string) : option Value :=
  data !! path.

(** The context of one foreach item. *)
Definition itemContext (ctx : ExecutionContext) (item : Value)
  : ExecutionContext :=
  {| Key := Key ctx;
     Value_ := Value_ ctx;
     Datacenter := Datacenter ctx;
     Item := item |}.

Definition wrapNodeOperation (verb : string) (data : GoMap) : GoMap :=
  {[ "Node" := VMap (<["Verb" := VString verb]> {[ "Node" := VMap data ]}) ]}.

(** [data[k].(string)], the empty string when the assertion fails. *)
Definition stringField (data : GoMap) (k : string) : string :=
  match data !! k with
  | Some (VString s) => s
  | _ => ""
  end.

(** [data[k].(map[string]interface{})], [None] when the assertion fails. *)
Definition mapField (data : GoMap) (k : string) : option GoMap :=
  match data !! k with
  | Some (VMap m) => Some m
  | _ => None
  end.

Definition wrapServiceOperation (verb : string) (data : GoMap)
  : GoMap + error :=
  let nodeName := stringField data "Node" in
  match mapField data "Service" with
  | Some serviceData =>
      if String.eqb nodeName "" then inr MissingNodeOrService
      else inl {[ "Service" :=
                  VMap (<["Verb" := VString verb]>
                        (<["Node" := VString nodeName]>
                         {[ "Service" := VMap serviceData ]})) ]}
  | None => inr MissingNodeOrService
  end.

Definition wrapCheckOperation (verb : string) (data : GoMap)
  : GoMap + error :=
  let nodeName := stringField data "Node" in
  match mapField data "Check" with
  | Some checkData =>
      if String.eqb nodeName "" then inr MissingNodeOrCheck
      else inl {[ "Check" :=
                  VMap (<["Verb" := VString verb]>
                        (<["Node" := VString nodeName]>
                         {[ "Check" := VMap checkData ]})) ]}
  | None => inr MissingNodeOrCheck
  end.

Definition wrapOperation (opType verb : string) (data : GoMap)
  : GoMap + error :=
  if String.eqb opType "Node" then inl (wrapNodeOperation verb data)
  else if String.eqb opType "Service" then wrapServiceOperation verb data
  else if String.eqb opType "Check" then wrapCheckOperation verb data
  else inr (UnknownOperationType opType).

Section WithRuntime.
Context {rt : GoRuntime}.

Definition evaluateTemplate (templateStr : string) (ctx : ExecutionContext)
  : string + error :=
  match TextTemplate.Parse true templateStr with
  | None => inr TemplateParseError
  | Some tmpl =>
      match TextTemplate.Execute tmpl ctx with
      | None => inr TemplateExecutionError
      | Some result =>
          (* Handle empty results *)
          if String.eqb result "<no value>" || String.eqb result ""
          then inl ""
          else inl result
      end
  end.

Fixpoint processTemplate (templateData : Value) (ctx : ExecutionContext)
  : Value + error :=
  match templateData with
  | VString v =>
      match evaluateTemplate v ctx with
      | inr e => inr e
      | inl result =>
          (* Try to parse as number if possible *)
          match Strconv.unmarshalFloat64 result with
          | Some num => inl (VInt (Strconv.floatToInt intOutOfRange num))
          | None => inl (VString result)
          end
      end
  | VMap v =>
      let processed := (fun value => processTemplate value ctx) <$> v in
      match firstKeyError processed with
      | Some (key, e) => inr (FailedToProcessKey key e)
      | None => inl (VMap (omap kept processed))
      end
  | VList v =>
      let processed := map (fun item => processTemplate item ctx) v in
      match firstError processed with
      | Some e => inr e
      | None => inl (VList (omap kept processed))
      end
  | _ => inl templateData
  end.

(** Each success path of [wrapOperation] returns a map literal, so the
    callers' test [op != nil] holds whenever the error is nil: a result
    is a map or an error. *)
Definition generateSingleOperation (rule : OperationRule)
  (ctx : ExecutionContext) : GoMap + error :=
  match processTemplate (VMap (Template rule)) ctx with
  | inr e => inr (TemplateProcessingFailed e)
  | inl (VMap processedMap) =>
      (* Set default verb if not specified *)
      let verb := if String.eqb (Verb rule) "" then "set" else Verb rule in
      wrapOperation (Type_ rule) verb processedMap
  | inl _ => inr TemplateResultNotMap
  end.

Definition evaluateForeach (expr : string) (ctx : ExecutionContext)
  : list Value + error :=
  match TextTemplate.Parse false expr with
  | None => inr InvalidForeachExpression
  | Some tmpl =>
      match TextTemplate.Execute tmpl ctx with
      | None => inl []     (* The field might not exist, which is ok *)
      | Some result =>
          if String.eqb result "" || String.eqb result "<no value>"
          then inl []
          else
            let fieldPath := parseFieldPath expr in
            let direct :=
              if nonEmpty fieldPath then
                match getNestedField (Value_ ctx) fieldPath with
                | Some (VList items) => Some items
                | _ => None
                end
              else None in
            match direct with
            | Some items => inl items
            | None =>
                (* Fallback: try to parse as JSON *)
                match unmarshalArray result with
                | Some items => inl items
                | None => inl []
                end
            end
      end
  end.

(** The loop of processForeach over the items. *)
Fixpoint foreachLoop (rule : OperationRule) (ctx : ExecutionContext)
  (items : list Value) (operations : list GoMap) : IO (list GoMap) :=
  match items with
  | [] => ret operations
  | item :: rest =>
      match generateSingleOperation rule (itemContext ctx item) with
      | inr e =>
          logPrintf (WarnItem (Key ctx) e) ;;;
          foreachLoop rule ctx rest operations
      | inl op => foreachLoop rule ctx rest (operations ++ [op])
      end
  end.

Definition processForeach (rule : OperationRule) (ctx : ExecutionContext)
  : IO (list GoMap + error) :=
  match evaluateForeach (Foreach rule) ctx with
  | inr e => ret (inr e)
  | inl [] => ret (inl [])
  | inl items =>
      operations <- foreachLoop rule ctx items [] ;;
      ret (inl operations)
  end.

(** The condition of a rule: the rule runs, is skipped, or its
    condition fails to evaluate. *)
Inductive Gate : Type := Run | Skip | Broken (e : error).

Definition conditionGate (rule : OperationRule) (ctx : ExecutionContext)
  : Gate :=
  if nonEmpty (Condition rule) then
    match evaluateTemplate (Condition rule) ctx with
    | inr e => Broken e
    | inl result =>
        (* Skip if condition evaluates to empty or "false" *)
        if String.eqb result "" || String.eqb result "false"
           || String.eqb result "<no value>"
        then Skip else Run
    end
  else Run.

(** One turn of the loop of GenerateOperations. *)
Definition ruleStep (ctx : ExecutionContext) (rule : OperationRule)
  (operations : list GoMap) : IO (list GoMap) :=
  match conditionGate rule ctx with
  | Broken e => logPrintf (WarnCondition (Key ctx) e) ;;; ret operations
  | Skip => ret operations
  | Run =>
      if nonEmpty (Foreach rule) then
        r <- processForeach rule ctx ;;
        match r with
        | inr e => logPrintf (WarnForeach (Key ctx) e) ;;; ret operations
        | inl foreachOps => ret (operations ++ foreachOps)
        end
      else
        match generateSingleOperation rule ctx with
        | inr e => logPrintf (WarnGenerate (Key ctx) e) ;;; ret operations
        | inl op => ret (operations ++ [op])
        end
  end.

Fixpoint rulesLoop (ctx : ExecutionContext) (rules : list OperationRule)
  (operations : list GoMap) : IO (list GoMap) :=
  match rules with
  | [] => ret operations
  | rule :: rest =>
      operations' <- ruleStep ctx rule operations ;;
      rulesLoop ctx rest operations'
  end.

(** GenerateOperations transforms a single node using mapping rules. *)
Definition GenerateOperations (ctx : ExecutionContext)
  (config : MappingConfig) : IO (list GoMap * option error) :=
  operations <- rulesLoop ctx (Operations config) [] ;;
  ret (operations, None).

(** The loop of generateAllOperations; [vars] lists the entries of
    varsData in the order the range statement visits them. *)
Fixpoint nodesLoop (vars : list (string * Value)) (config : MappingConfig)
  (datacenter : string) (allOperations : list GoMap) : IO (list GoMap) :=
  match vars with
  | [] => ret allOperations
  | (key, VMap nodeValue) :: rest =>
      let ctx := {| Key := key; Value_ := nodeValue;
                    Datacenter := datacenter; Item := VNil |} in
      r <- GenerateOperations ctx config ;;
      match r with
      | (_, Some e) =>
          logPrintf (ErrorGenerate key e) ;;;
          nodesLoop rest config datacenter allOperations
      | (operations, None) =>
          nodesLoop rest config datacenter (allOperations ++ operations)
      end
  | (key, _) :: rest =>
      logPrintf (WarnInvalidNode key) ;;;
      nodesLoop rest config datacenter allOperations
  end.

Definition generateAllOperations (vars : list (string * Value))
  (config : MappingConfig) (datacenter : string) : IO (list GoMap) :=
  logPrintf (InfoGenerating (Z.of_nat (length vars))) ;;;
  allOperations <- nodesLoop vars config datacenter [] ;;
  logPrintf (InfoGenerated (Z.of_nat (length allOperations))) ;;;
  ret allOperations.

End WithRuntime.

End Engine.

(** ** The batch executor (consul.go) *)

(** TransactionError represents an error in transaction response. *)
Record TransactionError : Type := mkTransactionError {
  OpIndex : Z;
  What : string
}.

(** TransactionResponse represents the response from Consul Transaction
    API. *)
Record TransactionResponse : Type := mkTransactionResponse {
  Results : list GoMap;
  Errors : list TransactionError
}.

(** An http.Response, as far as it is read: the status code and what
    io.ReadAll gets from the body ([None] when reading fails). *)
Record HttpResponse : Type := mkResponse {
  StatusCode : Z;
  Body : option string
}.

(** What client.Do gives back for one request. *)
Inductive Reply : Type :=
| SendFailed                        (* an error: refused, timed out, ... *)
| Received (resp : HttpResponse).

(** The network and the JSON codec, as the executor meets them. *)
Class Transport : Type := {
  (** json.Marshal(operations); [None] is an error. *)
  jsonMarshal : list GoMap -> option string;
  (** json.MarshalIndent(operation, "", "  "). *)
  jsonMarshalIndent : GoMap -> option string;
  (** http.NewRequest("PUT", url, body) succeeds. *)
  newRequestOk : string -> bool;
  (** The answer to a request, given the batches put before it, the URL
      and the batch whose encoding is the body. *)
  roundTrip : list (list GoMap) -> string -> list GoMap -> Reply;
  (** json.Unmarshal(body, &result) into a TransactionResponse. *)
  unmarshalTransaction : string -> option TransactionResponse
}.

Module Consul.

Definition maxOperationsPerTransaction : Z := 64.

Definition StatusOK : Z := 200.
Definition StatusConflict : Z := 409.

(** How a call of ExecuteOperations ends. *)
Inductive Outcome : Type :=
| Returned (err : option error)
| Panicked          (* slice bounds out of range *)
| OutOfFuel.

Definition len {A : Type} (l : list A) : Z := Z.of_nat (length l).

(** [operations[i:j]]; [None] is the run-time panic.  Go bounds [j] by the
    capacity; the loop below never asks for more than the length. *)
Definition slice {A : Type} (l : list A) (i j : Z) : option (list A) :=
  if (0 <=? i) && (i <=? j) && (j <=? len l)
  then Some (take (Z.to_nat (j - i)) (drop (Z.to_nat i) l))
  else None.

Section WithTransport.
Context {net : Transport}.

Definition logVerboseInfo (operations : list GoMap) (payload : string)
  : IO unit :=
  logPrintf (DebugPayloadSize (Z.of_nat (String.length payload))) ;;;
  (* Log first operation as sample *)
  match operations with
  | [] => ret tt
  | first :: _ =>
      match jsonMarshalIndent first with
      | None => ret tt
      | Some firstOp => logPrintf (DebugFirstOperation firstOp)
      end
  end.

(** client.Do(req): the batch joins the requests made. *)
Definition clientDo (url : string) (operations : list GoMap) : IO Reply :=
  fun w => (roundTrip (sent w) url operations,
            mkWorld (sent w ++ [operations]) (logged w)).

Definition sendRequest (consulAddr : string) (operations : list GoMap)
  : IO (HttpResponse + error) :=
  let url := consulAddr +:+ "/v1/txn" in
  if newRequestOk url then
    reply <- clientDo url operations ;;
    match reply with
    | SendFailed => ret (inr FailedToSendRequest)
    | Received resp => ret (inl resp)
    end
  else ret (inr FailedToCreateRequest).

Definition logSuccessDetails (statusCode : Z) (body : string) : IO unit :=
  logPrintf (DebugTransactionSuccessful statusCode) ;;;
  match unmarshalTransaction body with
  | None => ret tt
  | Some result => logPrintf (DebugTransactionResults (len (Results result)))
  end.

Fixpoint logEach (errors : list TransactionError) : IO unit :=
  match errors with
  | [] => ret tt
  | err :: rest =>
      logPrintf (ErrorOperationFailed (OpIndex err) (What err)) ;;;
      logEach rest
  end.

Definition formatTransactionErrors (errors : list TransactionError)
  : IO error :=
  match errors with
  | [] => ret TransactionUnknownError
  | first :: _ =>
      (* Log each error *)
      logEach errors ;;;
      (* Return first error as main error *)
      ret (TransactionFailed (OpIndex first) (What first))
  end.

Definition handleTransactionConflict (body : string) (statusCode : Z)
  : IO error :=
  match unmarshalTransaction body with
  | Some result => formatTransactionErrors (Errors result)
  | None => ret (TransactionRolledBack statusCode body)
  end.

Definition processResponse (resp : HttpResponse) (verbose : bool)
  : IO (option error) :=
  match Body resp with
  | None => ret (Some FailedToReadResponse)
  | Some body =>
      if StatusCode resp =? StatusOK then
        (* Success case *)
        (if verbose then logSuccessDetails (StatusCode resp) body
         else ret tt) ;;;
        ret None
      else if StatusCode resp =? StatusConflict then
        (* Error cases *)
        e <- handleTransactionConflict body (StatusCode resp) ;;
        ret (Some e)
      else
        (* Other HTTP errors *)
        ret (Some (HTTPStatus (StatusCode resp) body))
  end.

Definition executeTransaction (consulAddr : string)
  (operations : list GoMap) (verbose : bool) : IO (option error) :=
  match jsonMarshal operations with
  | None => ret (Some FailedToMarshal)
  | Some payload =>
      (if verbose then logVerboseInfo operations payload else ret tt) ;;;
      r <- sendRequest consulAddr operations ;;
      match r with
      | inr e => ret (Some e)
      | inl resp => processResponse resp verbose
      end
  end.

(** The loop [for i := 0; i < len(operations); i += 64]. *)
Fixpoint batchLoop (fuel : nat) (consulAddr : string)
  (operations : list GoMap) (verbose : bool) (totalBatches i : Z)
  : IO Outcome :=
  if i <? len operations then
    match fuel with
    | O => ret OutOfFuel
    | S fuel' =>
        let end_ := GoInt.min (GoInt.add i maxOperationsPerTransaction)
                              (len operations) in
        match slice operations i end_ with
        | None => ret Panicked
        | Some batch =>
            let batchNum :=
              GoInt.add (GoInt.div i maxOperationsPerTransaction) 1 in
            logPrintf (InfoExecutingBatch batchNum totalBatches (len batch)) ;;;
            (if verbose
             then logPrintf (DebugBatchContains batchNum (len batch))
             else ret tt) ;;;
            err <- executeTransaction consulAddr batch verbose ;;
            match err with
            | Some e => ret (Returned (Some (BatchFailed batchNum e)))
            | None =>
                logPrintf (OkBatchCompleted batchNum totalBatches) ;;;
                batchLoop fuel' consulAddr operations verbose totalBatches
                  (GoInt.add i maxOperationsPerTransaction)
            end
        end
    end
  else ret (Returned None).

(** ExecuteOperations sends operations to Consul Transaction API.  The
    loop gets one unit of fuel per operation. *)
Definition ExecuteOperations (consulAddr : string)
  (operations : list GoMap) (verbose : bool) : IO Outcome :=
  if len operations =? 0 then
    logPrintf WarnNoOperations ;;; ret (Returned None)
  else
    (* Process in batches *)
    let totalBatches :=
      GoInt.div
        (GoInt.sub (GoInt.add (len operations) maxOperationsPerTransaction) 1)
        maxOperationsPerTransaction in
    batchLoop (length operations) consulAddr operations verbose
      totalBatches 0.

End WithTransport.

End Consul.


(** ** The console: what the rest of the program prints

    output.go, the loader and main write to standard output, to standard
    error and to the log.  A [Console] carries these next to the state of
    the executor; the log lines of these files are kept in [notes], apart
    from those of the engine and of the executor. *)

(** The lines written to standard output, one constructor per format. *)
Inductive OutLine : Type :=
| DryRunHeader                           (* === DRY RUN MODE === *)
| TotalOperations (n : Z)
| NodeOperations (n : Z)
| ServiceOperations (n : Z)
| CheckOperations (n : Z)
| BatchesRequired (batches maxBatchSize : Z)
| DetailHeader                           (* === Operations Detail === *)
| OperationDetail (number : Z) (json : string)
| MoreOperations (n : Z)
| PayloadLine (json : string).

(** The lines written to standard error. *)
Inductive ErrLine : Type :=
| FailedToMarshalBatch (batchNum : Z).

(** The errors of the loader and of main. *)
Inductive LoadError : Type :=
| CannotAccessVarsPath
| FailedToReadFile
| FailedToParseYAML
| FailedToWalkDirectory
| NoNodesFound (path : string)
| FailedToReadMappingFile
| FailedToParseMappingYAML
| NoOperationsDefined.

(** The calls of log.Printf and log.Fatalf outside the engine and the
    executor. *)
Inductive NoteLine : Type :=
| WarnMarshalOperation (i : Z)
| WarnDuplicateNode (key sourcePath : string)
| InfoLoadingFile (path : string)
| InfoLoadedNodes (n : Z)
| InfoLoadingDirectory (path : string)
| DebugLoading (relPath : string)
| WarnFailedToParse (relPath : string) (e : LoadError)
| InfoLoadedFrom (n : Z) (relPath : string)
| InfoTotal (files nodes : Z)
| InfoLoadedMapping (rules : Z)
| FatalLoadVars (e : LoadError)
| FatalLoadMapping (e : LoadError)
| FatalExecute (e : error)
| InfoSynced (operations : Z).

Record Console : Type := mkConsole {
  world : World;
  stdout : list OutLine;
  stderr : list ErrLine;
  notes : list NoteLine
}.

Definition Prog (A : Type) : Type := Console -> A * Console.

Definition yield {A : Type} (a : A) : Prog A := fun c => (a, c).

Definition andThen {A B : Type} (p : Prog A) (k : A -> Prog B) : Prog B :=
  fun c => let '(a, c') := p c in k a c'.

Notation "x <~ p ;; k" := (andThen p (fun x => k))
  (at level 100, p at next level, right associativity).
Notation "p ;;~ k" := (andThen p (fun _ => k))
  (at level 100, right associativity).

Definition println (l : OutLine) : Prog unit :=
  fun c => (tt, mkConsole (world c) (stdout c ++ [l]) (stderr c) (notes c)).

Definition eprintln (l : ErrLine) : Prog unit :=
  fun c => (tt, mkConsole (world c) (stdout c) (stderr c ++ [l]) (notes c)).

Definition note (l : NoteLine) : Prog unit :=
  fun c => (tt, mkConsole (world c) (stdout c) (stderr c) (notes c ++ [l])).

(** A computation of the engine or of the executor, run on the console. *)
Definition lift {A : Type} (io : IO A) : Prog A :=
  fun c => let '(a, w) := io (world c) in
           (a, mkConsole w (stdout c) (stderr c) (notes c)).

(** How a function without result ends. *)
Inductive Finish : Type :=
| Finished
| Exited (code : Z)   (* log.Fatalf: the process exits *)
| Crashed             (* a run-time panic *)
| Starved.            (* the model ran out of fuel *)

(** json.Marshal of one object; [None] is an error. *)
Class ObjectEncoder : Type := {
  jsonMarshalObject : GoMap -> option string
}.

(** ** output.go *)

Module Output.

(** [_, ok := op[k]] *)
Definition hasKey (op : GoMap) (k : string) : bool :=
  match op !! k with
  | Some _ => true
  | None => false
  end.

(** [counts[k]++] on a map[string]int: a missing key reads as 0. *)
Definition increment (counts : gmap string Z) (k : string) : gmap string Z :=
  <[k := GoInt.add (default 0 (counts !! k)) 1]> counts.

Definition countStep (counts : gmap string Z) (op : GoMap) : gmap string Z :=
  if hasKey op "Node" then increment counts "node"
  else if hasKey op "Service" then increment counts "service"
  else if hasKey op "Check" then increment counts "check"
  else counts.

(** countOperationTypes counts operations by type. *)
Definition countOperationTypes (operations : list GoMap) : gmap string Z :=
  foldl countStep
    (<["node"%string := 0]> (<["service"%string := 0]> {[ "check"%string := 0 ]}))
    operations.

(** [counts[k]] *)
Definition countOf (counts : gmap string Z) (k : string) : Z :=
  default 0 (counts !! k).

Definition maxBatchSize : Z := 64.
Definition maxDisplay : Z := 10.

Section WithCodec.
Context {net : Transport} {enc : ObjectEncoder}.

(** The loop [for i := 0; i < displayCount; i++] of
    printOperationsDetail. *)
Fixpoint detailLoop (fuel : nat) (operations : list GoMap)
  (displayCount i : Z) : Prog Finish :=
  if i <? displayCount then
    match fuel with
    | O => yield Starved
    | S fuel' =>
        match (if 0 <=? i then operations !! Z.to_nat i else None) with
        | None => yield Crashed          (* index out of range *)
        | Some op =>
            (match jsonMarshalIndent op with
             | None => note (WarnMarshalOperation i)
             | Some jsonBytes =>
                 println (OperationDetail (GoInt.add i 1) jsonBytes)
             end) ;;~
            detailLoop fuel' operations displayCount (GoInt.add i 1)
        end
    end
  else yield Finished.

(** printOperationsDetail prints detailed operation information. *)
Definition printOperationsDetail (operations : list GoMap) : Prog Finish :=
  println DetailHeader ;;~
  let displayCount := GoInt.min (Consul.len operations) maxDisplay in
  r <~ detailLoop (Z.to_nat maxDisplay) operations displayCount 0 ;;
  match r with
  | Finished =>
      if maxDisplay <? Consul.len operations
      then println (MoreOperations (GoInt.sub (Consul.len operations) maxDisplay)) ;;~
           yield Finished
      else yield Finished
  | _ => yield r
  end.

(** printDryRun outputs human-readable dry-run information. *)
Definition printDryRun (operations : list GoMap) (verbose : bool)
  : Prog Finish :=
  println DryRunHeader ;;~
  println (TotalOperations (Consul.len operations)) ;;~
  (* Count operation types *)
  let counts := countOperationTypes operations in
  println (NodeOperations (countOf counts "node")) ;;~
  println (ServiceOperations (countOf counts "service")) ;;~
  (if 0 <? countOf counts "check"
   then println (CheckOperations (countOf counts "check"))
   else yield tt) ;;~
  (* Calculate batches *)
  let batchCount :=
    GoInt.div (GoInt.sub (GoInt.add (Consul.len operations) maxBatchSize) 1)
              maxBatchSize in
  println (BatchesRequired batchCount maxBatchSize) ;;~
  if verbose then printOperationsDetail operations else yield Finished.

(** The object outputPayload encodes for one batch.  The operations are a
    [[]map[string]interface{}]; as JSON that is the array of its maps. *)
Definition batchObject (batchNum : Z) (batch : list GoMap) (verbose : bool)
  (totalBatches : Z) (datacenter : string) : GoMap :=
  let batchObj : GoMap :=
    <["batch"%string := VInt batchNum]>
      (<["size"%string := VInt (Consul.len batch)]>
         {[ "operations"%string := VList (VMap <$> batch) ]}) in
  (* Add verbose information if requested *)
  if verbose then
    <["datacenter"%string := VString datacenter]>
      (<["max_batch_size"%string := VInt maxBatchSize]>
         (<["total_batches"%string := VInt totalBatches]> batchObj))
  else batchObj.

(** The loop [for i := 0; i < len(operations); i += maxBatchSize] of
    outputPayload. *)
Fixpoint payloadLoop (fuel : nat) (operations : list GoMap)
  (datacenter : string) (verbose : bool) (totalBatches i : Z) : Prog Finish :=
  if i <? Consul.len operations then
    match fuel with
    | O => yield Starved
    | S fuel' =>
        let end_ := GoInt.min (GoInt.add i maxBatchSize)
                              (Consul.len operations) in
        match Consul.slice operations i end_ with
        | None => yield Crashed
        | Some batch =>
            let batchNum := GoInt.add (GoInt.div i maxBatchSize) 1 in
            let batchObj :=
              batchObject batchNum batch verbose totalBatches datacenter in
            (* Output as NDJSON (one line per batch) *)
            (match jsonMarshalObject batchObj with
             | None => eprintln (FailedToMarshalBatch batchNum)
             | Some jsonBytes => println (PayloadLine jsonBytes)
             end) ;;~
            payloadLoop fuel' operations datacenter verbose totalBatches
              (GoInt.add i maxBatchSize)
        end
    end
  else yield Finished.

(** outputPayload outputs operations as NDJSON (one line per batch). *)
Definition outputPayload (operations : list GoMap) (datacenter : string)
  (verbose : bool) : Prog Finish :=
  let totalBatches :=
    GoInt.div (GoInt.sub (GoInt.add (Consul.len operations) maxBatchSize) 1)
              maxBatchSize in
  payloadLoop (length operations) operations datacenter verbose totalBatches 0.

End WithCodec.

End Output.

(** ** The loader

    The file system and the YAML decoder, as the loader meets them. *)

(** One call of the function filepath.Walk is given: the path, and
    [info.IsDir()], or [None] where Walk reports an error. *)
Record WalkEntry : Type := mkEntry {
  entryPath : string;
  entryInfo : option bool
}.

Class FileSystem : Type := {
  (* os.Stat: [info.IsDir()], or an error *)
  osStat : string -> option bool;
  (* os.ReadFile *)
  osReadFile : string -> option string;
  (* yaml.Unmarshal into a map[string]interface{}; the nil map is empty *)
  yamlUnmarshalVars : string -> option GoMap;
  (* yaml.Unmarshal into a MappingConfig *)
  yamlUnmarshalMapping : string -> option MappingConfig;
  (* the calls filepath.Walk makes, in its order, while the function it is
     given returns nil *)
  filepathWalk : string -> list WalkEntry;
  (* filepath.Rel, its error dropped *)
  filepathRel : string -> string -> string
}.

Module Loader.

(** filepath.Ext: the suffix from the last dot of the last element. *)
Fixpoint extFrom (reversed : list ascii) (suffix : list ascii) : list ascii :=
  match reversed with
  | [] => []
  | c :: rest =>
      if Ascii.eqb c "/" then []
      else if Ascii.eqb c "." then c :: suffix
      else extFrom rest (c :: suffix)
  end.

Definition Ext (path : string) : string :=
  string_of_list_ascii (extFrom (rev (list_ascii_of_string path)) []).

(** The loop [for k, v := range source] of mergeVars, over the entries in
    the order of the iteration.  Go changes [target] in place; here the
    changed map is returned with the count. *)
Fixpoint mergeLoop (target : GoMap) (added : Z)
  (source : list (string * Value)) (sourcePath : string)
  : Prog (GoMap * Z) :=
  match source with
  | [] => yield (target, added)
  | (k, v) :: rest =>
      match target !! k with
      | Some _ =>
          note (WarnDuplicateNode k sourcePath) ;;~
          mergeLoop target added rest sourcePath
      | None =>
          mergeLoop (<[k := v]> target) (GoInt.add added 1) rest sourcePath
      end
  end.

(** mergeVars merges source vars into target, checking for duplicates. *)
Definition mergeVars (target source : GoMap) (sourcePath : string)
  : Prog (GoMap * Z) :=
  mergeLoop target 0 (map_to_list source) sourcePath.

Section WithFiles.
Context {fs : FileSystem}.

(** loadYAMLFile loads a single YAML file. *)
Definition loadYAMLFile (path : string) : GoMap + LoadError :=
  match osReadFile path with
  | None => inr FailedToReadFile
  | Some data =>
      match yamlUnmarshalVars data with
      | None => inr FailedToParseYAML
      | Some result => inl result
      end
  end.

(** The function loadVarsFromDirectory gives to filepath.Walk, called on
    the entries in turn; [inr tt] is the error that stops the walk. *)
Fixpoint walkLoop (entries : list WalkEntry) (path : string) (verbose : bool)
  (allVars : GoMap) (fileCount : Z) : Prog (GoMap * Z + unit) :=
  match entries with
  | [] => yield (inl (allVars, fileCount))
  | e :: rest =>
      match entryInfo e with
      | None => yield (inr tt)
      | Some isDir =>
          (* Skip directories *)
          if isDir then walkLoop rest path verbose allVars fileCount
          else
            (* Skip non-YAML files *)
            let ext := Ext (entryPath e) in
            if negb (String.eqb ext ".yaml") && negb (String.eqb ext ".yml")
            then walkLoop rest path verbose allVars fileCount
            else
              (* Process YAML file *)
              let relPath := filepathRel path (entryPath e) in
              (if verbose then note (DebugLoading relPath) else yield tt) ;;~
              match loadYAMLFile (entryPath e) with
              | inr err =>
                  note (WarnFailedToParse relPath err) ;;~
                  walkLoop rest path verbose allVars fileCount
              | inl vars =>
                  merged <~ mergeVars allVars vars relPath ;;
                  note (InfoLoadedFrom (snd merged) relPath) ;;~
                  walkLoop rest path verbose (fst merged)
                    (GoInt.add fileCount 1)
              end
      end
  end.

(** loadVarsFromDirectory loads all YAML files from a directory
    recursively. *)
Definition loadVarsFromDirectory (path : string) (verbose : bool)
  : Prog (GoMap + LoadError) :=
  note (InfoLoadingDirectory path) ;;~
  r <~ walkLoop (filepathWalk path) path verbose ∅ 0 ;;
  match r with
  | inr _ => yield (inr FailedToWalkDirectory)
  | inl (allVars, fileCount) =>
      note (InfoTotal fileCount (Z.of_nat (size allVars))) ;;~
      yield (inl allVars)
  end.

(** loadVars loads vars from a file or directory. *)
Definition loadVars (path : string) (verbose : bool)
  : Prog (GoMap + LoadError) :=
  match osStat path with
  | None => yield (inr CannotAccessVarsPath)
  | Some isDir =>
      r <~ (if negb isDir then
              (* Single file mode *)
              note (InfoLoadingFile path) ;;~
              match loadYAMLFile path with
              | inr err => yield (inr err)
              | inl vars =>
                  note (InfoLoadedNodes (Z.of_nat (size vars))) ;;~
                  yield (inl vars)
              end
            else
              (* Directory mode *)
              loadVarsFromDirectory path verbose) ;;
      match r with
      | inr err => yield (inr err)
      | inl allVars =>
          if Z.of_nat (size allVars) =? 0
          then yield (inr (NoNodesFound path))
          else yield (inl allVars)
      end
  end.

(** loadMapping loads the mapping configuration file. *)
Definition loadMapping (path : string) : Prog (MappingConfig + LoadError) :=
  match osReadFile path with
  | None => yield (inr FailedToReadMappingFile)
  | Some data =>
      match yamlUnmarshalMapping data with
      | None => yield (inr FailedToParseMappingYAML)
      | Some config =>
          if Consul.len (Operations config) =? 0
          then yield (inr NoOperationsDefined)
          else
            note (InfoLoadedMapping (Consul.len (Operations config))) ;;~
            yield (inl config)
      end
  end.

End WithFiles.

End Loader.

(** ** The command (main) *)

Module Cli.

(** Config holds all command-line configuration. *)
Record Config : Type := mkCli {
  VarsPath : string;
  MappingFile : string;
  Datacenter : string;
  ConsulAddr : string;
  DryRun : bool;
  Verbose : bool;
  Payload : bool
}.

Section WithEverything.
Context {rt : GoRuntime} {net : Transport} {enc : ObjectEncoder}
  {fs : FileSystem}.

Definition executeMode (config : Config) (operations : list GoMap)
  : Prog Finish :=
  (* Output payload if requested *)
  if Payload config then
    Output.outputPayload operations (Datacenter config) (Verbose config)
  (* Dry-run mode *)
  else if DryRun config then
    Output.printDryRun operations (Verbose config)
  else
    (* Execute operations *)
    r <~ lift (Consul.ExecuteOperations (ConsulAddr config) operations
                 (Verbose config)) ;;
    match r with
    | Consul.Returned (Some err) =>
        note (FatalExecute err) ;;~ yield (Exited 1)
    | Consul.Returned None =>
        note (InfoSynced (Consul.len operations)) ;;~ yield Finished
    | Consul.Panicked => yield Crashed
    | Consul.OutOfFuel => yield Starved
    end.

(** main, from the configuration parseConfig returns.  setupLogging only
    chooses the format and the sink of the log. *)
Definition main (config : Config) : Prog Finish :=
  (* Load vars (file or directory) *)
  v <~ Loader.loadVars (VarsPath config) (Verbose config) ;;
  match v with
  | inr err => note (FatalLoadVars err) ;;~ yield (Exited 1)
  | inl varsData =>
      (* Load mapping *)
      m <~ Loader.loadMapping (MappingFile config) ;;
      match m with
      | inr err => note (FatalLoadMapping err) ;;~ yield (Exited 1)
      | inl mappingConfig =>
          (* Generate operations for all nodes *)
          operations <~ lift (Engine.generateAllOperations
                                (map_to_list varsData) mappingConfig
                                (Datacenter config)) ;;
          (* Execute based on mode *)
          executeMode config operations
      end
  end.

End WithEverything.

End Cli.

(** ** Notions used to state the properties *)

(** The [k]-th run of 64 operations. *)
Definition batchAt (operations : list GoMap) (k : nat) : list GoMap :=
  take 64 (drop (64 * k) operations).

(** The number of runs of 64 needed to cover the operations. *)
Definition batchCount (operations : list GoMap) : nat :=
  (length operations + 63) `div` 64.

Definition batchesOf (operations : list GoMap) : list (list GoMap) :=
  map (batchAt operations) (seq 0 (batchCount operations)).

(** A computation that only logs: it sends nothing and it appends to the
    log. *)
Definition onlyLogs {A : Type} (c : IO A) : Prop :=
  forall w, sent (snd (c w)) = sent w /\
            exists l, logged (snd (c w)) = logged w ++ l.

Definition appendLog (w : World) (l : list LogLine) : World :=
  mkWorld (sent w) (logged w ++ l).

(** What the loop of ExecuteOperations logs before it sends batch [k]. *)
Definition announce (ops : list GoMap) (verbose : bool) (total : Z) (k : nat)
  : list LogLine :=
  InfoExecutingBatch (Z.of_nat k + 1) total (Consul.len (batchAt ops k))
  :: (if verbose
      then [DebugBatchContains (Z.of_nat k + 1) (Consul.len (batchAt ops k))]
      else []).

(** The lines formatTransactionErrors logs for a list of errors. *)
Definition errorLines (errors : list TransactionError) : list LogLine :=
  map (fun e => ErrorOperationFailed (OpIndex e) (What e)) errors.

(** The operation an item of a foreach contributes, if any. *)
Definition itemOperation {rt : GoRuntime} (rule : OperationRule)
  (ctx : ExecutionContext) (item : Value) : option GoMap :=
  match Engine.generateSingleOperation rule (Engine.itemContext ctx item) with
  | inl op => Some op
  | inr _ => None
  end.

(** The warning an item of a foreach contributes, if any. *)
Definition itemWarning {rt : GoRuntime} (rule : OperationRule)
  (ctx : ExecutionContext) (item : Value) : option LogLine :=
  match Engine.generateSingleOperation rule (Engine.itemContext ctx item) with
  | inl _ => None
  | inr e => Some (WarnItem (Key ctx) e)
  end.

(** A processed map without a string under "Node". *)
Definition lacksNode (data : GoMap) : Prop :=
  forall s, data !! "Node"%string <> Some (VString s).

(** A processed map without a mapping under [k]. *)
Definition lacksMapping (k : string) (data : GoMap) : Prop :=
  forall m, data !! k <> Some (VMap m).

(** The operations of one record, read off a run of GenerateOperations from
    an empty state. *)
Definition recordOperations {rt : GoRuntime} (config : MappingConfig)
  (datacenter : string) (entry : string * Value) : list GoMap :=
  match entry with
  | (key, VMap nodeValue) =>
      fst (fst (Engine.GenerateOperations
                  {| Key := key; Value_ := nodeValue;
                     Datacenter := datacenter; Item := VNil |}
                  config (mkWorld [] [])))
  | _ => []
  end.

(** A chain of field names that refers to a key missing from the record's
    field mapping, or from the current item when that item is a mapping. *)
Definition refersToMissingKey (ctx : ExecutionContext) (ids : list string)
  : Prop :=
  (exists f rest,
      ids = "Value"%string :: f :: rest /\ Value_ ctx !! f = None) \/
  (exists m f rest,
      ids = "Item"%string :: f :: rest /\ Item ctx = VMap m /\
      m !! f = None).

(** The verb an operation carries: the rule's, or "set" when the rule has
    none. *)
Definition effectiveVerb (rule : OperationRule) : string :=
  if String.eqb (Verb rule) "" then "set"%string else Verb rule.

(** A text without an opening brace. *)
Fixpoint braceFree (s : string) : bool :=
  match s with
  | EmptyString => true
  | String c r => negb (Ascii.eqb c "{") && braceFree r
  end.

(** Does the decimal text of [z], as a scalar template, become the integer
    [z]? *)
Definition decimalRoundTrips {rt : GoRuntime} (ctx : ExecutionContext)
  (z : Z) : bool :=
  match Engine.processTemplate (VString (pretty z)) ctx with
  | inl (VInt z') => z' =? z
  | _ => false
  end.

(** The [k] integers from [lo] on. *)
Fixpoint countFrom (lo : Z) (k : nat) : list Z :=
  match k with
  | O => []
  | S k' => lo :: countFrom (lo + 1) k'
  end.



(** The error processResponse returns for a response: it depends on neither
    the verbosity nor the state, so it is read off one call. *)
Definition responseError {net : Transport} (resp : HttpResponse)
  : option error :=
  fst (Consul.processResponse resp false (mkWorld [] [])).

(** The error a transaction ends with, given what client.Do gave back. *)
Definition replyError {net : Transport} (reply : Reply) : option error :=
  match reply with
  | SendFailed => Some FailedToSendRequest
  | Received resp => responseError resp
  end.

(** The counts of the three kinds, as countOperationTypes holds them. *)
Definition counts3 (nodes services checks : Z) : gmap string Z :=
  <["node"%string := nodes]>
    (<["service"%string := services]> {[ "check"%string := checks ]}).

(** The operations countOperationTypes counts as node, service and check
    operations. *)
Definition nodeOperations (ops : list GoMap) : list GoMap :=
  List.filter (fun op => Output.hasKey op "Node") ops.

Definition serviceOperations (ops : list GoMap) : list GoMap :=
  List.filter (fun op => negb (Output.hasKey op "Node") &&
                         Output.hasKey op "Service") ops.

Definition checkOperations (ops : list GoMap) : list GoMap :=
  List.filter (fun op => negb (Output.hasKey op "Node") &&
                         negb (Output.hasKey op "Service") &&
                         Output.hasKey op "Check") ops.

(** The object outputPayload encodes for the [k]-th run of 64. *)
Definition payloadObject (ops : list GoMap) (datacenter : string)
  (verbose : bool) (k : nat) : GoMap :=
  Output.batchObject (Z.of_nat k + 1) (batchAt ops k) verbose
    (Z.of_nat (batchCount ops)) datacenter.

(** The line of standard output for the [k]-th run, if its object
    encodes. *)
Definition payloadLine {enc : ObjectEncoder} (ops : list GoMap)
  (datacenter : string) (verbose : bool) (k : nat) : option OutLine :=
  PayloadLine <$> jsonMarshalObject (payloadObject ops datacenter verbose k).

(** The line of standard error for the [k]-th run, if its object does not
    encode. *)
Definition payloadFailure {enc : ObjectEncoder} (ops : list GoMap)
  (datacenter : string) (verbose : bool) (k : nat) : option ErrLine :=
  match jsonMarshalObject (payloadObject ops datacenter verbose k) with
  | Some _ => None
  | None => Some (FailedToMarshalBatch (Z.of_nat k + 1))
  end.

(** The line printOperationsDetail prints for the operation at index [i],
    if it encodes. *)
Definition detailLine {net : Transport} (ops : list GoMap) (i : nat)
  : option OutLine :=
  match ops !! i with
  | Some op => OperationDetail (Z.of_nat i + 1) <$> jsonMarshalIndent op
  | None => None
  end.

(** The warning printOperationsDetail logs for the operation at index [i],
    if it does not encode. *)
Definition detailWarning {net : Transport} (ops : list GoMap) (i : nat)
  : option NoteLine :=
  match ops !! i with
  | Some op =>
      match jsonMarshalIndent op with
      | Some _ => None
      | None => Some (WarnMarshalOperation (Z.of_nat i))
      end
  | None => None
  end.

(** The lines printDryRun prints before the details. *)
Definition summaryLines (ops : list GoMap) : list OutLine :=
  [DryRunHeader;
   TotalOperations (Consul.len ops);
   NodeOperations (Consul.len (nodeOperations ops));
   ServiceOperations (Consul.len (serviceOperations ops))]
  ++ (if 0 <? Consul.len (checkOperations ops)
      then [CheckOperations (Consul.len (checkOperations ops))]
      else [])
  ++ [BatchesRequired (Consul.len (batchesOf ops)) 64].

(** A path the directory loader takes for a YAML file. *)
Definition isYAML (path : string) : bool :=
  String.eqb (Loader.Ext path) ".yaml" || String.eqb (Loader.Ext path) ".yml".

(** The vars the directory loader gets from one entry of the walk, if
    any: the entry is a file with a YAML extension that is read and
    decoded. *)
Definition loadedVars {fs : FileSystem} (e : WalkEntry) : option GoMap :=
  match entryInfo e with
  | Some false =>
      if isYAML (entryPath e) then
        match Loader.loadYAMLFile (entryPath e) with
        | inl vars => Some vars
        | inr _ => None
        end
      else None
  | _ => None
  end.

(** The walk reports no error. *)
Definition walkSucceeds (entries : list WalkEntry) : bool :=
  forallb (fun e => match entryInfo e with Some _ => true | None => false end)
    entries.

(** A computation that leaves a part of the console as it is. *)
Definition preserves {A X : Type} (part : Console -> X) (p : Prog A) : Prop :=
  forall c, part (snd (p c)) = part c.


(** ** Sample data, after the program's own tests *)

(** A runtime for the samples.  Their patterns are field references, their
    floats are whole numbers (which [formatFloat] prints as Go does), and no
    text of theirs is a JSON array. *)
#[local] Instance sampleRuntime : GoRuntime := {|
  formatFloat := fun f => pretty (Strconv.truncate f);
  intOutOfRange := fun _ => GoInt.minInt;
  templateParses := fun _ _ => false;
  templateExecutes := fun _ _ _ => None;
  unmarshalArray := fun _ => None
|}.

(** A catalog that accepts every batch. *)
#[local] Instance acceptingNet : Transport := {|
  jsonMarshal := fun _ => Some "[]"%string;
  jsonMarshalIndent := fun _ => Some "{}"%string;
  newRequestOk := fun _ => true;
  roundTrip := fun _ _ _ => Received (mkResponse 200 (Some "ok"%string));
  unmarshalTransaction := fun _ => Some (mkTransactionResponse [] [])
|}.

(** A catalog that accepts the first batch and rolls the second back with
    two errors. *)
Definition conflictingNet : Transport := {|
  jsonMarshal := fun _ => Some "[]"%string;
  jsonMarshalIndent := fun _ => Some "{}"%string;
  newRequestOk := fun _ => true;
  roundTrip := fun hist _ _ =>
    match hist with
    | [_] => Received (mkResponse 409 (Some "conflict"%string))
    | _ => Received (mkResponse 200 (Some "ok"%string))
    end;
  unmarshalTransaction := fun body =>
    if String.eqb body "conflict"
    then Some (mkTransactionResponse []
                 [mkTransactionError 3 "duplicate"; mkTransactionError 7 "stale"])
    else Some (mkTransactionResponse [] [])
|}.

Definition emptyOperation : GoMap := ∅.
Definition operations130 : list GoMap := replicate 130 emptyOperation.
Definition freshWorld : World := mkWorld [] [].

(** float64(8080) and float64(9090). *)
Definition float8080 : float64 := S754_finite false 8884053952430080 (-40).
Definition float9090 : float64 := S754_finite false 4997280348241920 (-39).

(** TestGenerateOperations, "foreach processing with array". *)
Definition foreachContext : ExecutionContext :=
  {| Key := "test-node-002";
     Value_ := {[ "field1"%string := VString "main-service";
                  "nested_field"%string :=
                    VList [VMap {[ "item1"%string := VString "sub1";
                                   "item2"%string := VFloat float8080 ]};
                           VMap {[ "item1"%string := VString "sub2";
                                   "item2"%string := VFloat float9090 ]}] ]};
     Datacenter := "dc1";
     Item := VNil |}.

Definition foreachRule : OperationRule :=
  {| Type_ := "Service"; Verb := "set"; Condition := "";
     Foreach := "{{ .Value.nested_field }}";
     Template :=
       {[ "Node"%string := VString "{{ .Key }}";
          "Service"%string :=
            VMap {[ "ID"%string := VString "{{ .Item.item1 }}";
                    "Service"%string := VString "{{ .Value.field1 }}";
                    "Port"%string := VString "{{ .Item.item2 }}" ]} ]} |}.

Definition serviceOperation (node id service : string) (port : Z) : GoMap :=
  {[ "Service"%string :=
       VMap {[ "Verb"%string := VString "set";
               "Node"%string := VString node;
               "Service"%string :=
                 VMap {[ "ID"%string := VString id;
                         "Service"%string := VString service;
                         "Port"%string := VInt port ]} ]} ]}.

(** TestGenerateOperations, "condition false skips operation". *)
Definition conditionContext : ExecutionContext :=
  {| Key := "test-node-003";
     Value_ := {[ "field2"%string := VString "10.0.0.3";
                  "field3"%string := VString "type-c" ]};
     Datacenter := "dc1";
     Item := VNil |}.

Definition conditionRule : OperationRule :=
  {| Type_ := "Service"; Verb := "set";
     Condition := "{{ .Value.field1 }}"; Foreach := "";
     Template :=
       {[ "Node"%string := VString "{{ .Key }}";
          "Service"%string :=
            VMap {[ "ID"%string := VString "{{ .Value.field1 }}";
                    "Service"%string := VString "{{ .Value.field1 }}" ]} ]} |}.

(** TestWrapServiceOperation, "missing Node field". *)
Definition serviceWithoutNode : GoMap :=
  {[ "Service"%string := VMap {[ "ID"%string := VString "nginx" ]} ]}.

(** TestEvaluateTemplate, "missing field returns empty": a record without
    fields, outside any foreach. *)
Definition emptyRecordContext : ExecutionContext :=
  {| Key := ""; Value_ := ∅; Datacenter := ""; Item := VNil |}.

(** The mapping template of the design document's example, and its
    context. *)
Definition addressTemplate : GoMap :=
  {[ "name"%string := VString "{{.Key}}";
     "address"%string := VString "{{.Value.addr}}" ]}.

Definition addressContext : ExecutionContext :=
  {| Key := "n1"; Value_ := ∅; Datacenter := ""; Item := VNil |}.

(** A catalog that answers every request the same way, and whose bodies
    do not decode. *)
Definition scriptedNet (answer : Reply) : Transport := {|
  jsonMarshal := fun _ => Some "[]"%string;
  jsonMarshalIndent := fun _ => Some "{}"%string;
  newRequestOk := fun _ => true;
  roundTrip := fun _ _ _ => answer;
  unmarshalTransaction := fun _ => None
|}.

(** An encoder that writes the number and the size of a batch object. *)
#[local] Instance sampleEncoder : ObjectEncoder := {|
  jsonMarshalObject := fun obj =>
    match obj !! "batch"%string, obj !! "size"%string with
    | Some (VInt n), Some (VInt k) =>
        Some ("batch " +:+ pretty n +:+ " of " +:+ pretty k)%string
    | _, _ => None
    end
|}.

(** A rule that registers a node under its key. *)
Definition nodeRule : OperationRule :=
  {| Type_ := "Node"; Verb := ""; Condition := ""; Foreach := "";
     Template :=
       {[ "Node"%string := VString "{{ .Key }}";
          "Address"%string := VString "{{ .Value.address }}" ]} |}.

Definition nodeOperation (node address : string) : GoMap :=
  {[ "Node"%string :=
       VMap {[ "Verb"%string := VString "set";
               "Node"%string :=
                 VMap {[ "Node"%string := VString node;
                         "Address"%string := VString address ]} ]} ]}.

Definition nodeVars (address : string) : Value :=
  VMap {[ "address"%string := VString address ]}.

(** A vars directory with two YAML files that both define web1, a text
    file, and a subdirectory with a file that does not decode; a mapping
    file with one rule, and one without rules. *)
#[local] Instance sampleFiles : FileSystem := {|
  osStat := fun path =>
    if String.eqb path "vars" then Some true
    else if String.eqb path "nodes.yaml" then Some false
    else None;
  osReadFile := fun path =>
    if String.eqb path "missing.yaml" then None else Some path;
  yamlUnmarshalVars := fun data =>
    if String.eqb data "vars/a.yaml"
    then Some {[ "web1"%string := nodeVars "10.0.0.1" ]}
    else if String.eqb data "vars/b.yml"
    then Some {[ "web1"%string := nodeVars "10.9.9.9";
                 "db1"%string := nodeVars "10.0.0.2" ]}
    else if String.eqb data "nodes.yaml"
    then Some {[ "web1"%string := nodeVars "10.0.0.1" ]}
    else None;
  yamlUnmarshalMapping := fun data =>
    if String.eqb data "mapping.yaml" then Some (mkConfig [nodeRule])
    else if String.eqb data "norules.yaml" then Some (mkConfig [])
    else None;
  filepathWalk := fun path =>
    if String.eqb path "vars"
    then [mkEntry "vars" (Some true);
          mkEntry "vars/a.yaml" (Some false);
          mkEntry "vars/b.yml" (Some false);
          mkEntry "vars/notes.txt" (Some false);
          mkEntry "vars/sub" (Some true);
          mkEntry "vars/sub/c.yaml" (Some false)]
    else [mkEntry path None];
  filepathRel := fun base path => Engine.TrimPrefix path (base +:+ "/")
|}.

Definition sampleVars : GoMap :=
  {[ "web1"%string := nodeVars "10.0.0.1";
     "db1"%string := nodeVars "10.0.0.2" ]}.

Definition freshConsole : Console := mkConsole freshWorld [] [] [].

(** Catalogs that answer 500, answer 409 with a body that does not decode,
    and do not answer. *)
Definition failingNet : Transport :=
  scriptedNet (Received (mkResponse 500 (Some "boom"%string))).

Definition rollingBackNet : Transport :=
  scriptedNet (Received (mkResponse 409 (Some "oops"%string))).

Definition silentNet : Transport := scriptedNet SendFailed.

(** Sixty-five node operations and one service operation. *)
Definition mixedOperations : list GoMap :=
  replicate 65 (nodeOperation "web1" "10.0.0.1")
  ++ [serviceOperation "web1" "nginx" "web" 80].

Definition sampleConfig (dryRun payload : bool) : Cli.Config :=
  {| Cli.VarsPath := "vars"; Cli.MappingFile := "mapping.yaml";
     Cli.Datacenter := "dc1"; Cli.ConsulAddr := "http://127.0.0.1:8500";
     Cli.DryRun := dryRun; Cli.Verbose := false; Cli.Payload := payload |}.


(** ** Facts about the batch executor *)

Import Consul.

Lemma wrap_id z : GoInt.minInt <= z <= GoInt.maxInt -> GoInt.wrap z = z.
Proof.
  unfold GoInt.wrap, GoInt.minInt, GoInt.maxInt. intros Hz.
  rewrite Z.mod_small; lia.
Qed.

Lemma batchCount_spec (ops : list GoMap) :
  (length ops <= 64 * batchCount ops < length ops + 64)%nat.
Proof.
  unfold batchCount.
  pose proof (Nat.div_mod_eq (length ops + 63) 64) as E.
  pose proof (Nat.mod_upper_bound (length ops + 63) 64). lia.
Qed.

Lemma concat_batches_from (ops : list GoMap) (n k : nat) :
  concat (map (batchAt ops) (seq k n)) = take (64 * n) (drop (64 * k) ops).
Proof.
  revert k. induction n as [|n IH]; intros k.
  - simpl. reflexivity.
  - cbn [seq map concat]. rewrite IH. unfold batchAt.
    replace (64 * S n)%nat with (64 + 64 * n)%nat by lia.
    rewrite <- take_take_drop, drop_drop.
    do 3 f_equal. lia.
Qed.

Lemma length_batchAt (ops : list GoMap) (k : nat) :
  length (batchAt ops k) = Nat.min 64 (length ops - 64 * k).
Proof. unfold batchAt. rewrite length_take, length_drop. reflexivity. Qed.

Lemma onlyLogs_ret {A : Type} (a : A) : onlyLogs (ret a).
Proof. intros w. split; [reflexivity|]. exists []. simpl. now rewrite app_nil_r. Qed.

Lemma onlyLogs_logPrintf (l : LogLine) : onlyLogs (logPrintf l).
Proof. intros w. split; [reflexivity|]. exists [l]. reflexivity. Qed.

Lemma onlyLogs_bind {A B : Type} (c : IO A) (k : A -> IO B) :
  onlyLogs c -> (forall a, onlyLogs (k a)) -> onlyLogs (bind c k).
Proof.
  intros Hc Hk w. unfold bind. destruct (c w) as [a w1] eqn:E.
  destruct (Hc w) as [S1 [l1 L1]]. rewrite E in S1, L1. simpl in S1, L1.
  destruct (Hk a w1) as [S2 [l2 L2]]. split.
  - congruence.
  - exists (l1 ++ l2). rewrite L2, L1. now rewrite app_assoc.
Qed.

Ltac only_logs :=
  repeat first
    [ apply onlyLogs_ret
    | apply onlyLogs_logPrintf
    | apply onlyLogs_bind; [| intros ?]
    | match goal with
      | |- onlyLogs (match ?x with _ => _ end) => destruct x
      | |- onlyLogs (if ?x then _ else _) => destruct x
      end ].

Section ExecutorFacts.
Context {net : Transport}.

Lemma onlyLogs_logVerboseInfo ops payload : onlyLogs (logVerboseInfo ops payload).
Proof. unfold logVerboseInfo. only_logs. Qed.

Lemma onlyLogs_logSuccessDetails status body :
  onlyLogs (logSuccessDetails status body).
Proof. unfold logSuccessDetails. only_logs. Qed.

Lemma logEach_logged errors w :
  logEach errors w =
    (tt, mkWorld (sent w)
           (logged w ++
            map (fun e => ErrorOperationFailed (OpIndex e) (What e)) errors)).
Proof.
  revert w. induction errors as [|e es IH]; intros w.
  - simpl. unfold ret. rewrite app_nil_r. now destruct w.
  - simpl. unfold bind, logPrintf. rewrite IH. simpl.
    now rewrite <- app_assoc.
Qed.

Lemma onlyLogs_logEach errors : onlyLogs (logEach errors).
Proof.
  intros w. rewrite logEach_logged. simpl. split; [reflexivity|]. eauto.
Qed.

Lemma onlyLogs_processResponse resp verbose :
  onlyLogs (processResponse resp verbose).
Proof.
  unfold processResponse, handleTransactionConflict, formatTransactionErrors.
  only_logs; try apply onlyLogs_logSuccessDetails; apply onlyLogs_logEach.
Qed.

(** One transaction either sends nothing and fails, or sends exactly the
    batch; what it returns then depends on the reply alone. *)
Lemma executeTransaction_sent addr batch verbose w :
  let '(err, w') := executeTransaction addr batch verbose w in
  (sent w' = sent w /\ err <> None) \/
  (sent w' = sent w ++ [batch] /\
   match roundTrip (sent w) (addr +:+ "/v1/txn") batch with
   | SendFailed => err = Some FailedToSendRequest
   | Received resp =>
       exists w1 l, sent w1 = sent w ++ [batch] /\
                    logged w1 = logged w ++ l /\
                    (err, w') = processResponse resp verbose w1
   end).
Proof.
  unfold executeTransaction.
  destruct (jsonMarshal batch) as [payload|].
  2:{ simpl. left. split; [reflexivity|discriminate]. }
  unfold bind at 1.
  destruct ((if verbose then logVerboseInfo batch payload else ret tt) w)
    as [[] w0] eqn:E0.
  assert (S0 : sent w0 = sent w /\ exists l, logged w0 = logged w ++ l).
  { destruct verbose.
    - pose proof (onlyLogs_logVerboseInfo batch payload w) as S.
      now rewrite E0 in S.
    - unfold ret in E0. inversion E0. split; [reflexivity|].
      exists []. now rewrite app_nil_r. }
  destruct S0 as [S0 [l0 L0]].
  unfold bind, sendRequest.
  destruct (newRequestOk _).
  2:{ simpl. left. split; [assumption|discriminate]. }
  unfold bind, clientDo. rewrite S0.
  destruct (roundTrip _ _ _) as [|resp]; simpl.
  - right. split; reflexivity.
  - destruct (processResponse resp verbose _) as [err w'] eqn:E1.
    right. split.
    + pose proof (onlyLogs_processResponse resp verbose
                    (mkWorld (sent w ++ [batch]) (logged w0))) as [S _].
      now rewrite E1 in S.
    + eexists. exists l0. split; [|split; [|symmetry; exact E1]].
      * reflexivity.
      * exact L0.
Qed.

Lemma batchLoop_done fuel addr ops verbose total (k : nat) w :
  (batchCount ops <= k)%nat ->
  batchLoop fuel addr ops verbose total (Z.of_nat (64 * k)) w
  = (Returned None, w).
Proof.
  intros Hk. pose proof (batchCount_spec ops) as Hbc.
  assert (Hlt : (Z.of_nat (64 * k) <? len ops) = false).
  { apply Z.ltb_ge. unfold len. lia. }
  destruct fuel; cbn [batchLoop]; rewrite Hlt; reflexivity.
Qed.

Lemma batchLoop_step fuel addr ops verbose total (k : nat) w :
  len ops + 64 <= 2 ^ 63 ->
  (k < batchCount ops)%nat ->
  batchLoop (S fuel) addr ops verbose total (Z.of_nat (64 * k)) w
  = let w1 := mkWorld (sent w) (logged w ++ announce ops verbose total k) in
    let '(err, w2) := executeTransaction addr (batchAt ops k) verbose w1 in
    match err with
    | Some e => (Returned (Some (BatchFailed (Z.of_nat k + 1) e)), w2)
    | None =>
        batchLoop fuel addr ops verbose total (Z.of_nat (64 * S k))
          (mkWorld (sent w2)
             (logged w2 ++ [OkBatchCompleted (Z.of_nat k + 1) total]))
    end.
Proof.
  intros Hfit Hk. pose proof (batchCount_spec ops) as Hbc.
  unfold len in Hfit.
  assert (Hi : Z.of_nat (64 * k) < Z.of_nat (length ops)) by lia.
  cbn [batchLoop]. unfold len at 1.
  apply Z.ltb_lt in Hi as Hlt. rewrite Hlt.
  unfold maxOperationsPerTransaction, GoInt.add, GoInt.div.
  rewrite (wrap_id (Z.of_nat (64 * k) + 64))
    by (unfold GoInt.minInt, GoInt.maxInt; lia).
  replace (Z.of_nat (64 * k) + 64) with (Z.of_nat (64 * S k)) by lia.
  replace (Z.quot (Z.of_nat (64 * k)) 64) with (Z.of_nat k).
  2:{ rewrite Z.quot_div_nonneg by lia.
      replace (Z.of_nat (64 * k)) with (Z.of_nat k * 64) by lia.
      now rewrite Z.div_mul by lia. }
  rewrite (wrap_id (Z.of_nat k))
    by (unfold GoInt.minInt, GoInt.maxInt; lia).
  rewrite (wrap_id (Z.of_nat k + 1))
    by (unfold GoInt.minInt, GoInt.maxInt; lia).
  assert (Hslice :
    slice ops (Z.of_nat (64 * k))
      (GoInt.min (Z.of_nat (64 * S k)) (len ops)) = Some (batchAt ops k)).
  { unfold slice, GoInt.min, len, batchAt.
    destruct (Z.ltb_spec (Z.of_nat (64 * S k)) (Z.of_nat (length ops))).
    - replace ((0 <=? Z.of_nat (64 * k)) &&
               (Z.of_nat (64 * k) <=? Z.of_nat (64 * S k)) &&
               (Z.of_nat (64 * S k) <=? Z.of_nat (length ops))) with true
        by (symmetry; rewrite !andb_true_iff, !Z.leb_le; lia).
      rewrite Nat2Z.id. do 2 f_equal. lia.
    - replace ((0 <=? Z.of_nat (64 * k)) &&
               (Z.of_nat (64 * k) <=? Z.of_nat (length ops)) &&
               (Z.of_nat (length ops) <=? Z.of_nat (length ops))) with true
        by (symmetry; rewrite !andb_true_iff, !Z.leb_le; lia).
      rewrite Nat2Z.id. f_equal.
      rewrite !take_ge; [reflexivity| |]; rewrite length_drop; lia. }
  rewrite Hslice. unfold announce, bind, logPrintf, ret.
  destruct verbose; simpl; rewrite <- ?app_assoc; simpl;
    destruct (executeTransaction _ _ _ _) as [[e|] w2]; reflexivity.
Qed.

End ExecutorFacts.

Section ExecutorRuns.
Context {net : Transport}.

Lemma executeTransaction_logged addr batch verbose :
  forall w, exists l,
    logged (snd (executeTransaction addr batch verbose w)) = logged w ++ l.
Proof.
  intros w. unfold executeTransaction.
  destruct (jsonMarshal batch) as [payload|]; [|apply onlyLogs_ret].
  unfold bind.
  destruct ((if verbose then logVerboseInfo batch payload else ret tt) w)
    as [[] w0] eqn:E0.
  assert (L0 : exists l, logged w0 = logged w ++ l).
  { destruct verbose.
    - pose proof (onlyLogs_logVerboseInfo batch payload w) as [_ L].
      now rewrite E0 in L.
    - unfold ret in E0. inversion E0. exists []. now rewrite app_nil_r. }
  destruct L0 as [l0 L0].
  unfold sendRequest. destruct (newRequestOk _); simpl.
  2:{ eauto. }
  unfold bind, clientDo.
  destruct (roundTrip _ _ _) as [|resp]; simpl; [eauto|].
  pose proof (onlyLogs_processResponse resp verbose
                (mkWorld (sent w0 ++ [batch]) (logged w0))) as [_ [l1 L1]].
  exists (l0 ++ l1). rewrite L1. simpl. rewrite L0. now rewrite app_assoc.
Qed.

(** The loop sends the batches [k], [k+1], ... in turn and stops at the
    first failure. *)
Lemma batchLoop_sends addr ops verbose total :
  len ops + 64 <= 2 ^ 63 ->
  forall fuel (k : nat) w,
    (k <= batchCount ops)%nat ->
    (batchCount ops - k <= fuel)%nat ->
    exists err j w',
      batchLoop fuel addr ops verbose total (Z.of_nat (64 * k)) w
        = (Returned err, w') /\
      sent w' = sent w ++ map (batchAt ops) (seq k j) /\
      (k + j <= batchCount ops)%nat /\
      (err = None -> (k + j)%nat = batchCount ops).
Proof.
  intros Hfit. induction fuel as [|fuel IH]; intros k w Hk Hfuel.
  - exists None, 0%nat, w. rewrite batchLoop_done by lia.
    simpl. rewrite app_nil_r. repeat split; lia.
  - destruct (decide (k < batchCount ops)%nat) as [Hlt|Hge].
    2:{ exists None, 0%nat, w. rewrite batchLoop_done by lia.
        simpl. rewrite app_nil_r. repeat split; lia. }
    rewrite batchLoop_step by assumption. cbv zeta.
    set (w1 := mkWorld (sent w) _).
    pose proof (executeTransaction_sent addr (batchAt ops k) verbose w1) as Hx.
    destruct (executeTransaction addr (batchAt ops k) verbose w1)
      as [err w2].
    assert (S1 : sent w1 = sent w) by reflexivity.
    destruct Hx as [[S2 Herr]|[S2 _]].
    + destruct err as [e|]; [|congruence].
      exists (Some (BatchFailed (Z.of_nat k + 1) e)), 0%nat, w2.
      simpl. rewrite app_nil_r. repeat split; try congruence; try lia.
    + destruct err as [e|].
      * exists (Some (BatchFailed (Z.of_nat k + 1) e)), 1%nat, w2.
        simpl. repeat split; try congruence; try lia.
      * destruct (IH (S k) (mkWorld (sent w2)
                    (logged w2 ++ [OkBatchCompleted (Z.of_nat k + 1) total])))
          as (err & j & w' & E & S' & Hj & Hall); [lia|lia|].
        exists err, (S j), w'. rewrite E. simpl in S'.
        repeat split; try lia.
        -- rewrite S', S2, S1. simpl. now rewrite <- app_assoc.
        -- intros Hnone. specialize (Hall Hnone). lia.
Qed.

End ExecutorRuns.

Section ExecutorTheorems.
Context {net : Transport}.

Lemma batchesOf_lookup ops i b :
  batchesOf ops !! i = Some b ->
  (i < batchCount ops)%nat /\ b = batchAt ops i.
Proof.
  unfold batchesOf. rewrite list_lookup_fmap.
  destruct (seq 0 (batchCount ops) !! i) as [j|] eqn:E; [|discriminate].
  apply lookup_seq in E as [-> Hi]. simpl. intros [= <-]. now split.
Qed.

(** C1: whatever the length N of the operation list (a Go slice, so N + 64
    fits an int), ExecuteOperations cuts it into consecutive batches.  There
    is a list of batches whose concatenation is the operation list, whose
    length c is the ceiling of N/64 (N <= 64 c < N + 64), whose members
    other than the last hold exactly 64 operations and whose last holds
    N mod 64 operations, or 64 when that is zero.  The call returns, and
    the batches it has sent are a prefix of that list, in that order: all of
    it when the call returns nil. *)
Theorem ExecuteOperations_partitions addr ops verbose w :
  len ops + 64 <= 2 ^ 63 ->
  exists batches : list (list GoMap),
    concat batches = ops /\
    (length ops <= 64 * length batches < length ops + 64)%nat /\
    (forall i b, batches !! i = Some b -> (S i < length batches)%nat ->
                 length b = 64%nat) /\
    (forall b, last batches = Some b ->
               length b = if (length ops mod 64 =? 0)%nat then 64%nat
                          else (length ops mod 64)%nat) /\
    exists err j w',
      ExecuteOperations addr ops verbose w = (Returned err, w') /\
      sent w' = sent w ++ take j batches /\
      (err = None -> sent w' = sent w ++ batches).
Proof.
  intros Hfit. exists (batchesOf ops).
  pose proof (batchCount_spec ops) as Hbc.
  assert (Hlen : length (batchesOf ops) = batchCount ops).
  { unfold batchesOf. now rewrite length_map, length_seq. }
  split; [|split; [|split; [|split]]].
  - unfold batchesOf. rewrite concat_batches_from. simpl.
    apply take_ge. lia.
  - rewrite Hlen. exact Hbc.
  - intros i b Hb Hi. apply batchesOf_lookup in Hb as [_ ->].
    rewrite length_batchAt. rewrite Hlen in Hi. lia.
  - intros b Hb. rewrite last_lookup in Hb.
    apply batchesOf_lookup in Hb as [Hi ->].
    rewrite Hlen in *. rewrite length_batchAt.
    pose proof (Nat.div_mod_eq (length ops) 64) as Hdm.
    pose proof (Nat.mod_upper_bound (length ops) 64) as Hm.
    destruct (Nat.eqb_spec (length ops mod 64) 0); lia.
  - unfold ExecuteOperations.
    destruct (Z.eqb_spec (len ops) 0) as [Hz|Hnz].
    + exists None, 0%nat. eexists. split; [reflexivity|].
      assert (batchCount ops = 0%nat) by (unfold len in Hz; lia).
      unfold batchesOf. rewrite H. simpl. now rewrite app_nil_r.
    + destruct (batchLoop_sends addr ops verbose
                  (GoInt.div (GoInt.sub (GoInt.add (len ops)
                     maxOperationsPerTransaction) 1)
                     maxOperationsPerTransaction)
                  Hfit (length ops) 0%nat w)
        as (err & j & w' & E & S' & Hj & Hall); [lia|lia|].
      exists err, j, w'. simpl in E. split; [exact E|].
      assert (Htake : forall n, (n <= batchCount ops)%nat ->
                take n (batchesOf ops) = map (batchAt ops) (seq 0 n)).
      { intros n Hn. unfold batchesOf.
        rewrite <- fmap_take, take_seq. do 2 f_equal. lia. }
      split.
      * rewrite Htake by lia. exact S'.
      * intros Hnone. specialize (Hall Hnone). simpl in Hall. subst j.
        exact S'.
Qed.

End ExecutorTheorems.

Section ConflictFacts.
Context {net : Transport}.

(** A conflict whose body decodes to a list of errors with a first
    element. *)
Lemma processResponse_conflict body result first others verbose w :
  unmarshalTransaction body = Some result ->
  Errors result = first :: others ->
  processResponse (mkResponse StatusConflict (Some body)) verbose w
  = (Some (TransactionFailed (OpIndex first) (What first)),
     mkWorld (sent w) (logged w ++ errorLines (first :: others))).
Proof.
  intros Hbody Herrs.
  unfold processResponse, handleTransactionConflict,
    formatTransactionErrors. simpl.
  rewrite Hbody, Herrs. unfold bind.
  rewrite logEach_logged. reflexivity.
Qed.

Lemma batchLoop_conflict addr ops verbose total :
  len ops + 64 <= 2 ^ 63 ->
  forall fuel (k : nat) w out w',
    (batchCount ops - k <= fuel)%nat ->
    batchLoop fuel addr ops verbose total (Z.of_nat (64 * k)) w = (out, w') ->
    forall hist b rest body result first others,
      sent w' = hist ++ b :: rest ->
      (length (sent w) <= length hist)%nat ->
      roundTrip hist (addr +:+ "/v1/txn") b
        = Received (mkResponse StatusConflict (Some body)) ->
      unmarshalTransaction body = Some result ->
      Errors result = first :: others ->
      out = Returned (Some (BatchFailed
              (Z.of_nat (k + (length hist - length (sent w))) + 1)
              (TransactionFailed (OpIndex first) (What first)))) /\
      rest = [] /\
      exists l, logged w' = logged w ++ l ++ errorLines (first :: others).
Proof.
  intros Hfit. induction fuel as [|fuel IH];
    intros k w out w' Hfuel Hrun hist b rest body result first others
           Hsent Hhist Hreply Hbody Herrs.
  - rewrite batchLoop_done in Hrun by lia. inversion Hrun; subst.
    rewrite Hsent, length_app in Hhist. simpl in Hhist. lia.
  - destruct (decide (k < batchCount ops)%nat) as [Hlt|Hge].
    2:{ rewrite batchLoop_done in Hrun by lia. inversion Hrun; subst.
        rewrite Hsent, length_app in Hhist. simpl in Hhist. lia. }
    rewrite batchLoop_step in Hrun by assumption. cbv zeta in Hrun.
    set (w1 := mkWorld (sent w) _) in Hrun.
    pose proof (executeTransaction_sent addr (batchAt ops k) verbose w1) as Hx.
    pose proof (executeTransaction_logged addr (batchAt ops k) verbose w1)
      as [l2 L2].
    destruct (executeTransaction addr (batchAt ops k) verbose w1)
      as [err w2].
    simpl in L2. change (sent w1) with (sent w) in Hx.
    destruct Hx as [[S2 Herr]|[S2 Hreply2]].
    + destruct err as [e|]; [|congruence]. inversion Hrun; subst.
      rewrite S2 in Hsent. rewrite Hsent, length_app in Hhist.
      simpl in Hhist. lia.
    + destruct (decide (length hist = length (sent w))) as [Heq|Hne].
      * (* the conflict answers this very batch *)
        assert (Hsame : hist = sent w /\ b = batchAt ops k).
        { destruct err as [e|].
          - inversion Hrun; subst. rewrite S2 in Hsent.
            apply app_inj_1 in Hsent as [-> E]; [|congruence].
            inversion E. now split.
          - assert (Hpre : exists l, sent w' = (sent w ++ [batchAt ops k]) ++ l).
            { destruct (decide (S k <= batchCount ops)%nat) as [Hk|Hk];
                [|lia].
              destruct (batchLoop_sends addr ops verbose total Hfit fuel
                          (S k) (mkWorld (sent w2) (logged w2 ++
                             [OkBatchCompleted (Z.of_nat k + 1) total])))
                as (? & j & w'' & E & S' & _); [lia|lia|].
              rewrite E in Hrun. inversion Hrun; subst.
              rewrite S'. simpl. rewrite S2. eauto. }
            destruct Hpre as [l Hpre]. rewrite Hsent in Hpre.
            rewrite <- app_assoc in Hpre.
            apply app_inj_1 in Hpre as [-> E]; [|congruence].
            simpl in E. inversion E. now split. }
        destruct Hsame as [-> ->]. rewrite Hreply in Hreply2.
        destruct Hreply2 as (w3 & l3 & S3 & L3 & Hpr).
        rewrite (processResponse_conflict _ _ _ _ _ _ Hbody Herrs) in Hpr.
        inversion Hpr; subst err w2. inversion Hrun; subst out w'.
        rewrite S2 in Hsent. apply app_inj_1 in Hsent as [_ E]; [|done].
        inversion E; subst rest.
        replace (length (sent w) - length (sent w))%nat with 0%nat by lia.
        rewrite Nat.add_0_r. split; [reflexivity|]. split; [reflexivity|].
        simpl. rewrite L3. simpl. exists (announce ops verbose total k ++ l3).
        now rewrite <- !app_assoc.
      * (* the conflict answers a later batch *)
        destruct err as [e|].
        { inversion Hrun; subst. rewrite S2 in Hsent.
          apply (f_equal length) in Hsent. rewrite !length_app in Hsent.
          simpl in Hsent. lia. }
        destruct (IH (S k) _ out w' ltac:(lia) Hrun hist b rest body result
                    first others Hsent) as (Hout & Hrest & l & Hlog);
          try assumption.
        { simpl. rewrite S2, length_app. simpl. lia. }
        simpl in Hout, Hlog. rewrite S2, length_app in Hout. simpl in Hout.
        split; [|split; [exact Hrest|]].
        -- rewrite Hout. do 4 f_equal. lia.
        -- rewrite Hlog, L2. simpl.
           exists (announce ops verbose total k ++ l2 ++
                   [OkBatchCompleted (Z.of_nat k + 1) total] ++ l).
           now rewrite <- !app_assoc.
Qed.

(** C2: let a run of ExecuteOperations send a batch [b] that is answered
    with status 409 and a body decoding to a response whose Errors are
    [first :: others].  Then the run returns the error
    "batch n failed: transaction failed: operation i: msg", where n is the
    position of [b] among the batches of this run and i, msg are the
    OpIndex and What of [first]; no batch is sent after [b]; and the log of
    the run ends with one "[ERROR] Operation ... failed" line for each
    listed error, in order. *)
Theorem conflict_is_fatal addr ops verbose w out w'
    hist b rest body result first others :
  len ops + 64 <= 2 ^ 63 ->
  ExecuteOperations addr ops verbose w = (out, w') ->
  sent w' = hist ++ b :: rest ->
  (length (sent w) <= length hist)%nat ->
  roundTrip hist (addr +:+ "/v1/txn") b
    = Received (mkResponse StatusConflict (Some body)) ->
  unmarshalTransaction body = Some result ->
  Errors result = first :: others ->
  out = Returned (Some (BatchFailed
          (Z.of_nat (length hist - length (sent w)) + 1)
          (TransactionFailed (OpIndex first) (What first)))) /\
  rest = [] /\
  exists l, logged w' = logged w ++ l ++ errorLines (first :: others).
Proof.
  intros Hfit Hrun Hsent Hhist Hreply Hbody Herrs.
  unfold ExecuteOperations in Hrun.
  destruct (len ops =? 0).
  - unfold bind, logPrintf, ret in Hrun. inversion Hrun; subst.
    simpl in Hsent. rewrite Hsent, length_app in Hhist. simpl in Hhist. lia.
  - pose proof (batchCount_spec ops).
    exact (batchLoop_conflict addr ops verbose _ Hfit (length ops) 0%nat
             w out w' ltac:(lia) Hrun hist b rest body result first others
             Hsent Hhist Hreply Hbody Herrs).
Qed.
End ConflictFacts.

(** ** Facts about the mapping engine *)

Import Engine.

Lemma appendLog_nil w : appendLog w [] = w.
Proof. destruct w. unfold appendLog. simpl. now rewrite app_nil_r. Qed.

Lemma appendLog_app w l1 l2 :
  appendLog (appendLog w l1) l2 = appendLog w (l1 ++ l2).
Proof. unfold appendLog. simpl. now rewrite app_assoc. Qed.

Section EngineFacts.
Context {rt : GoRuntime}.

Lemma foreachLoop_spec rule ctx items acc w :
  foreachLoop rule ctx items acc w
  = (acc ++ omap (itemOperation rule ctx) items,
     appendLog w (omap (itemWarning rule ctx) items)).
Proof.
  revert acc w. induction items as [|item items IH]; intros acc w.
  - simpl. unfold ret. now rewrite app_nil_r, appendLog_nil.
  - cbn [foreachLoop omap list_omap]. unfold itemOperation at 1, itemWarning at 1.
    destruct (generateSingleOperation rule (itemContext ctx item)) as [op|e].
    + rewrite IH. now rewrite <- app_assoc.
    + unfold bind, logPrintf. rewrite IH. f_equal.
      unfold appendLog. simpl. now rewrite <- app_assoc.
Qed.

Lemma rulesLoop_app ctx rules1 rules2 ops w :
  rulesLoop ctx (rules1 ++ rules2) ops w
  = let '(ops1, w1) := rulesLoop ctx rules1 ops w in
    rulesLoop ctx rules2 ops1 w1.
Proof.
  revert ops w. induction rules1 as [|r rules1 IH]; intros ops w.
  - reflexivity.
  - simpl. unfold bind. destruct (ruleStep ctx r ops w) as [ops' w'].
    apply IH.
Qed.

(** The operations and the log lines one rule contributes, whatever has
    been collected before. *)
Lemma ruleStep_spec ctx rule :
  exists new lines, forall ops w,
    ruleStep ctx rule ops w = (ops ++ new, appendLog w lines).
Proof.
  unfold ruleStep. destruct (conditionGate rule ctx).
  - destruct (nonEmpty (Foreach rule)).
    + unfold processForeach.
      destruct (evaluateForeach (Foreach rule) ctx) as [[|item items]|e].
      * exists [], []. intros. unfold bind, ret.
        now rewrite app_nil_r, appendLog_nil.
      * eexists _, _. intros. unfold bind, ret.
        rewrite foreachLoop_spec. simpl. reflexivity.
      * exists [], [WarnForeach (Key ctx) e]. intros.
        unfold bind, ret, logPrintf. now rewrite app_nil_r.
    + destruct (generateSingleOperation rule ctx) as [op|e].
      * exists [op], []. intros. unfold ret. now rewrite appendLog_nil.
      * exists [], [WarnGenerate (Key ctx) e]. intros.
        unfold bind, ret, logPrintf. now rewrite app_nil_r.
  - exists [], []. intros. unfold ret. now rewrite app_nil_r, appendLog_nil.
  - exists [], [WarnCondition (Key ctx) e]. intros.
    unfold bind, ret, logPrintf. now rewrite app_nil_r.
Qed.

Lemma rulesLoop_spec ctx rules :
  exists new lines, forall ops w,
    rulesLoop ctx rules ops w = (ops ++ new, appendLog w lines).
Proof.
  induction rules as [|r rules (new2 & lines2 & IH)].
  - exists [], []. intros. simpl. unfold ret.
    now rewrite app_nil_r, appendLog_nil.
  - destruct (ruleStep_spec ctx r) as (new1 & lines1 & H1).
    exists (new1 ++ new2), (lines1 ++ lines2). intros ops w.
    simpl. unfold bind. rewrite H1, IH.
    now rewrite <- app_assoc, appendLog_app.
Qed.

Lemma GenerateOperations_nil_error ctx config w :
  snd (fst (GenerateOperations ctx config w)) = None.
Proof.
  unfold GenerateOperations, bind, ret.
  destruct (rulesLoop_spec ctx (Operations config)) as (new & lines & H).
  now rewrite H.
Qed.

End EngineFacts.

Section EngineTheorems.
Context {rt : GoRuntime}.

Lemma conditionGate_skip ctx rule result :
  Condition rule <> ""%string ->
  evaluateTemplate (Condition rule) ctx = inl result ->
  result = ""%string \/ result = "false"%string \/ result = "<no value>"%string ->
  conditionGate rule ctx = Skip.
Proof.
  intros Hne Heval Hres. unfold conditionGate, nonEmpty.
  apply String.eqb_neq in Hne. rewrite Hne. simpl. rewrite Heval.
  destruct Hres as [-> | [-> | ->]]; reflexivity.
Qed.

(** C3: if a rule has a condition and the condition evaluates to the empty
    string, to "false" or to "<no value>", the rule adds no operation for
    that record and logs nothing, and the rules before and after it run as
    if it were not there. *)
Theorem skipped_condition_yields_no_operation ctx rule result pre post w :
  Condition rule <> ""%string ->
  evaluateTemplate (Condition rule) ctx = inl result ->
  result = ""%string \/ result = "false"%string \/ result = "<no value>"%string ->
  (forall ops w0, ruleStep ctx rule ops w0 = (ops, w0)) /\
  GenerateOperations ctx (mkConfig (pre ++ rule :: post)) w
  = GenerateOperations ctx (mkConfig (pre ++ post)) w.
Proof.
  intros Hne Heval Hres.
  pose proof (conditionGate_skip ctx rule result Hne Heval Hres) as Hgate.
  assert (Hstep : forall ops w0, ruleStep ctx rule ops w0 = (ops, w0)).
  { intros. unfold ruleStep. now rewrite Hgate. }
  split; [exact Hstep|].
  unfold GenerateOperations, bind. simpl.
  rewrite !rulesLoop_app.
  destruct (rulesLoop ctx pre [] w) as [ops1 w1].
  cbn [rulesLoop]. unfold bind at 1. rewrite Hstep. reflexivity.
Qed.

(** C10: GenerateOperations returns a nil error for every context, every
    configuration and every state; it sends nothing and only adds to the
    log.  A condition that fails to evaluate, a foreach that fails, a
    single operation that fails and an item that fails are each logged as a
    warning and add no operation. *)
Theorem GenerateOperations_error_is_nil ctx config w :
  snd (fst (GenerateOperations ctx config w)) = None /\
  sent (snd (GenerateOperations ctx config w)) = sent w /\
  (exists lines,
      logged (snd (GenerateOperations ctx config w)) = logged w ++ lines) /\
  (forall rule ops w0 e,
      conditionGate rule ctx = Broken e ->
      ruleStep ctx rule ops w0
      = (ops, appendLog w0 [WarnCondition (Key ctx) e])) /\
  (forall rule ops w0 e,
      conditionGate rule ctx = Run ->
      nonEmpty (Foreach rule) = true ->
      evaluateForeach (Foreach rule) ctx = inr e ->
      ruleStep ctx rule ops w0
      = (ops, appendLog w0 [WarnForeach (Key ctx) e])) /\
  (forall rule ops w0 e,
      conditionGate rule ctx = Run ->
      nonEmpty (Foreach rule) = false ->
      generateSingleOperation rule ctx = inr e ->
      ruleStep ctx rule ops w0
      = (ops, appendLog w0 [WarnGenerate (Key ctx) e])) /\
  (forall rule items acc w0,
      foreachLoop rule ctx items acc w0
      = (acc ++ omap (itemOperation rule ctx) items,
         appendLog w0 (omap (itemWarning rule ctx) items))).
Proof.
  split; [|split; [|split; [|split; [|split; [|split]]]]].
  - apply GenerateOperations_nil_error.
  - unfold GenerateOperations, bind, ret.
    destruct (rulesLoop_spec ctx (Operations config)) as (new & lines & H).
    now rewrite H.
  - unfold GenerateOperations, bind, ret.
    destruct (rulesLoop_spec ctx (Operations config)) as (new & lines & H).
    rewrite H. simpl. eauto.
  - intros rule ops w0 e Hgate. unfold ruleStep. now rewrite Hgate.
  - intros rule ops w0 e Hgate Hfor Heval. unfold ruleStep, processForeach.
    now rewrite Hgate, Hfor, Heval.
  - intros rule ops w0 e Hgate Hfor Hgen. unfold ruleStep.
    now rewrite Hgate, Hfor, Hgen.
  - intros. apply foreachLoop_spec.
Qed.

(** C9: the context of a foreach item has the key, the field mapping and
    the datacenter of the base context and the item as its current item;
    deriving it from a context that already carries another item gives the
    same context; and the loop evaluates every item in the context derived
    from the one base context, so the operation of an item depends on no
    other item. *)
Theorem foreach_item_context_is_derived ctx rule items acc w :
  (forall item,
      Key (itemContext ctx item) = Key ctx /\
      Value_ (itemContext ctx item) = Value_ ctx /\
      Datacenter (itemContext ctx item) = Datacenter ctx /\
      Item (itemContext ctx item) = item) /\
  (forall earlier item,
      itemContext (itemContext ctx earlier) item = itemContext ctx item) /\
  fst (foreachLoop rule ctx items acc w)
  = acc ++ omap (fun item =>
                   match generateSingleOperation rule (itemContext ctx item) with
                   | inl op => Some op
                   | inr _ => None
                   end) items.
Proof.
  split; [|split].
  - intros item. repeat split.
  - reflexivity.
  - rewrite foreachLoop_spec. reflexivity.
Qed.

Lemma stringField_lacks data : lacksNode data -> stringField data "Node" = ""%string.
Proof.
  unfold lacksNode, stringField. intros H.
  destruct (data !! "Node"%string) as [[]|]; try reflexivity.
  exfalso. eapply H. reflexivity.
Qed.

Lemma mapField_lacks k data : lacksMapping k data -> mapField data k = None.
Proof.
  unfold lacksMapping, mapField. intros H.
  destruct (data !! k) as [[]|]; try reflexivity.
  exfalso. eapply H. reflexivity.
Qed.

Lemma wrapServiceOperation_missing verb data :
  lacksNode data \/ lacksMapping "Service" data ->
  wrapServiceOperation verb data = inr MissingNodeOrService.
Proof.
  unfold wrapServiceOperation. intros [H|H].
  - rewrite (stringField_lacks _ H). simpl. now destruct (mapField _ _).
  - now rewrite (mapField_lacks _ _ H).
Qed.

Lemma wrapCheckOperation_missing verb data :
  lacksNode data \/ lacksMapping "Check" data ->
  wrapCheckOperation verb data = inr MissingNodeOrCheck.
Proof.
  unfold wrapCheckOperation. intros [H|H].
  - rewrite (stringField_lacks _ H). simpl. now destruct (mapField _ _).
  - now rewrite (mapField_lacks _ _ H).
Qed.

(** A rule that fails to produce its single operation leaves the other
    rules' operations as they are. *)
Lemma failed_rule_is_isolated ctx rule e pre post w :
  conditionGate rule ctx = Run ->
  Foreach rule = ""%string ->
  generateSingleOperation rule ctx = inr e ->
  exists opsPre opsPost w',
    (forall w0, fst (rulesLoop ctx pre [] w0) = opsPre) /\
    (forall w0, fst (rulesLoop ctx post [] w0) = opsPost) /\
    GenerateOperations ctx (mkConfig (pre ++ rule :: post)) w
    = (opsPre ++ opsPost, None, w') /\
    WarnGenerate (Key ctx) e ∈ logged w'.
Proof.
  intros Hgate Hfor Hgen.
  destruct (rulesLoop_spec ctx pre) as (new1 & lines1 & H1).
  destruct (rulesLoop_spec ctx post) as (new2 & lines2 & H2).
  exists new1, new2. eexists. split; [|split; [|split]].
  - intros. now rewrite H1.
  - intros. now rewrite H2.
  - unfold GenerateOperations, bind, ret. simpl.
    rewrite rulesLoop_app, H1. cbn [rulesLoop]. unfold bind.
    unfold ruleStep. rewrite Hgate, Hfor, Hgen. simpl.
    unfold logPrintf. rewrite H2. simpl. reflexivity.
  - unfold appendLog. simpl. rewrite !elem_of_app. left. right.
    apply list_elem_of_singleton. reflexivity.
Qed.

End EngineTheorems.

Section TemplateFacts.
Context {rt : GoRuntime}.

Lemma processTemplate_map_eq m ctx :
  processTemplate (VMap m) ctx
  = let processed := (fun value => processTemplate value ctx) <$> m in
    match firstKeyError processed with
    | Some (key, e) => inr (FailedToProcessKey key e)
    | None => inl (VMap (omap kept processed))
    end.
Proof. reflexivity. Qed.

Lemma firstKeyError_None (rs : gmap string (Value + error)) :
  firstKeyError rs = None ->
  forall k r, rs !! k = Some r -> exists v, r = inl v.
Proof.
  unfold firstKeyError. intros H k r Hk.
  destruct (list_find _ (map_to_list rs)) as [[i [k' r']]|] eqn:E.
  - apply list_find_Some in E as (_ & Hf & _). simpl in *.
    destruct r' as [v|e]; simpl in *.
    + destruct Hf as [? Hf]. discriminate.
    + discriminate.
  - rewrite list_find_None in E. rewrite Forall_forall in E.
    apply elem_of_map_to_list in Hk. apply E in Hk. simpl in Hk.
    destruct r as [v|e]; [eauto|]. exfalso. apply Hk. simpl. eauto.
Qed.

Lemma firstKeyError_Some (rs : gmap string (Value + error)) k e :
  firstKeyError rs = Some (k, e) -> rs !! k = Some (inr e).
Proof.
  unfold firstKeyError. intros H.
  destruct (list_find _ (map_to_list rs)) as [[i [k' r']]|] eqn:E;
    [|discriminate].
  apply list_find_Some in E as (Hl & _ & _). simpl in H.
  destruct r' as [v|e']; simpl in H; [discriminate|].
  inversion H; subst. apply elem_of_map_to_list.
  apply list_elem_of_lookup. eauto.
Qed.

(** C5: processing a mapping template either fails, because processing
    one of its values fails, or yields a mapping that holds exactly the
    keys whose processed value is not nil, not the empty string and not
    "<no value>", each with that value; no key of the result holds the
    empty string. *)
Theorem processed_map_drops_blank_entries m ctx :
  match processTemplate (VMap m) ctx with
  | inl result =>
      exists m', result = VMap m' /\
        (forall k v,
            m' !! k = Some v <->
            exists t, m !! k = Some t /\ processTemplate t ctx = inl v /\
                      v <> VNil /\ v <> VString "" /\
                      v <> VString "<no value>") /\
        (forall k, m' !! k <> Some (VString ""))
  | inr _ =>
      exists k t e, m !! k = Some t /\ processTemplate t ctx = inr e
  end.
Proof.
  rewrite processTemplate_map_eq. cbv zeta.
  destruct (firstKeyError _) as [[k e]|] eqn:E.
  - apply firstKeyError_Some in E. rewrite lookup_fmap in E.
    destruct (m !! k) as [t|] eqn:Hk; [|discriminate]. simpl in E.
    exists k, t, e. split; [exact Hk|]. congruence.
  - pose proof (firstKeyError_None _ E) as Hall.
    assert (Hkeys : forall k v,
      omap kept ((fun value => processTemplate value ctx) <$> m) !! k = Some v
      <-> exists t, m !! k = Some t /\ processTemplate t ctx = inl v /\
                    v <> VNil /\ v <> VString "" /\ v <> VString "<no value>").
    { intros k v. rewrite lookup_omap, lookup_fmap.
      destruct (m !! k) as [t|] eqn:Hk; simpl.
      - destruct (processTemplate t ctx) as [v'|e] eqn:Hp; simpl.
        + split.
          * intros H. exists t. split; [reflexivity|].
            destruct (isBlankValue v') eqn:Hb; [discriminate|].
            inversion H; subst v'. split; [exact Hp|].
            repeat split; intros ->; discriminate.
          * intros (t' & [= <-] & Hv & Hn1 & Hn2 & Hn3).
            rewrite Hp in Hv. inversion Hv; subst v'.
            assert (Hb : isBlankValue v = false).
            { destruct v; try reflexivity; try congruence. simpl.
              destruct (String.eqb_spec s ""); [congruence|].
              destruct (String.eqb_spec s "<no value>"); [congruence|].
              reflexivity. }
            now rewrite Hb.
        + split; [discriminate|].
          intros (t' & [= <-] & Hv & _). congruence.
      - split; [discriminate|]. intros (t' & Ht & _). discriminate. }
    eexists. split; [reflexivity|]. split; [exact Hkeys|].
    intros k Hk. apply Hkeys in Hk as (_ & _ & _ & _ & Hn & _). congruence.
Qed.

End TemplateFacts.

Section RecordFacts.
Context {rt : GoRuntime}.

Lemma GenerateOperations_any_world ctx config w1 w2 :
  fst (GenerateOperations ctx config w1) = fst (GenerateOperations ctx config w2).
Proof.
  unfold GenerateOperations, bind, ret.
  destruct (rulesLoop_spec ctx (Operations config)) as (new & lines & H).
  now rewrite !H.
Qed.

Lemma nodesLoop_spec vars config datacenter acc w :
  fst (nodesLoop vars config datacenter acc w)
  = acc ++ flat_map (recordOperations config datacenter) vars.
Proof.
  revert acc w. induction vars as [|[key v] vars IH]; intros acc w.
  - simpl. now rewrite app_nil_r.
  - cbn [flat_map]. unfold recordOperations at 1.
    destruct v; cbn [nodesLoop]; unfold bind, logPrintf;
      try (rewrite IH; reflexivity).
    set (ctx := {| Key := key; Value_ := m; Datacenter := datacenter;
                   Item := VNil |}).
    pose proof (GenerateOperations_any_world ctx config w (mkWorld [] [])) as Hw.
    pose proof (GenerateOperations_nil_error ctx config w) as Herr.
    destruct (GenerateOperations ctx config w) as [[ops err] w1].
    simpl in Herr. subst err. rewrite IH. rewrite <- Hw. simpl.
    now rewrite app_assoc.
Qed.

(** C8: for every verb, wrapping as a Service a processed map that lacks a
    string under "Node" or a mapping under "Service" fails with the
    missing-field error and yields no operation; the same holds for Check
    with "Check".  A rule failing this way leaves the operations of the
    rules around it unchanged and the error of GenerateOperations nil, and
    generateAllOperations collects the operations of every record. *)
Theorem missing_field_fails_without_abort verb data :
  (lacksNode data \/ lacksMapping "Service" data ->
   wrapServiceOperation verb data = inr MissingNodeOrService /\
   wrapOperation "Service" verb data = inr MissingNodeOrService) /\
  (lacksNode data \/ lacksMapping "Check" data ->
   wrapCheckOperation verb data = inr MissingNodeOrCheck /\
   wrapOperation "Check" verb data = inr MissingNodeOrCheck) /\
  (forall ctx rule pre post w,
      conditionGate rule ctx = Run ->
      Foreach rule = ""%string ->
      processTemplate (VMap (Template rule)) ctx = inl (VMap data) ->
      (Type_ rule = "Service"%string /\
       (lacksNode data \/ lacksMapping "Service" data)) \/
      (Type_ rule = "Check"%string /\
       (lacksNode data \/ lacksMapping "Check" data)) ->
      exists opsPre opsPost w',
        (forall w0, fst (rulesLoop ctx pre [] w0) = opsPre) /\
        (forall w0, fst (rulesLoop ctx post [] w0) = opsPost) /\
        GenerateOperations ctx (mkConfig (pre ++ rule :: post)) w
        = (opsPre ++ opsPost, None, w')) /\
  (forall vars config datacenter w,
      fst (generateAllOperations vars config datacenter w)
      = flat_map (recordOperations config datacenter) vars).
Proof.
  split; [|split; [|split]].
  - intros H. split; [now apply wrapServiceOperation_missing|].
    unfold wrapOperation. simpl. now apply wrapServiceOperation_missing.
  - intros H. split; [now apply wrapCheckOperation_missing|].
    unfold wrapOperation. simpl. now apply wrapCheckOperation_missing.
  - intros ctx rule pre post w Hgate Hfor Hproc Hkind.
    assert (Hgen : exists e, generateSingleOperation rule ctx = inr e).
    { unfold generateSingleOperation. rewrite Hproc.
      destruct Hkind as [[-> H]|[-> H]]; unfold wrapOperation; simpl.
      - rewrite wrapServiceOperation_missing by assumption. eauto.
      - rewrite wrapCheckOperation_missing by assumption. eauto. }
    destruct Hgen as [e Hgen].
    destruct (failed_rule_is_isolated ctx rule e pre post w Hgate Hfor Hgen)
      as (o1 & o2 & w' & H1 & H2 & H3 & _).
    exists o1, o2, w'. auto.
  - intros vars config datacenter w.
    unfold generateAllOperations, bind, logPrintf, ret.
    pose proof (nodesLoop_spec vars config datacenter []
                  (mkWorld (sent w)
                     (logged w ++ [InfoGenerating (Z.of_nat (length vars))])))
      as H.
    destruct (nodesLoop _ _ _ _ _) as [ops w1]. simpl in *. exact H.
Qed.

End RecordFacts.

Section ForeachFacts.
Context {rt : GoRuntime}.
Import TextTemplate.

Lemma Parse_fragment withFuncs src nodes :
  parseFragment src = Some nodes -> Parse withFuncs src = Some (Fragment nodes).
Proof. unfold Parse. now intros ->. Qed.

Lemma Execute_single_field ctx ids :
  Execute (Fragment [NField ids]) ctx
  = match evalChain ctx ids with
    | inl r => Some (printValue r)
    | inr _ => None
    end.
Proof.
  unfold Execute. simpl. destruct (evalChain ctx ids); reflexivity.
Qed.

Lemma evalFieldChain_invalid ids : evalFieldChain RInvalid ids = inl RInvalid.
Proof. induction ids; simpl; auto. Qed.

Lemma printValue_list_visible items :
  String.eqb (printValue (RIface (VList items))) "" = false /\
  String.eqb (printValue (RIface (VList items))) "<no value>" = false.
Proof. split; reflexivity. Qed.

(** C4: let the foreach pattern of a rule be a reference to the record
    field [f], for the template engine and for parseFieldPath alike.  If
    the field holds a sequence, processForeach returns, without error, the
    operations of the items for which an operation can be generated, one
    per item and in the order of the sequence, and warns about the others.
    If the field is missing, or holds something that is not a sequence and
    whose text is not a JSON array either, it returns no operation and no
    error (an empty sequence is the first case with no item). *)
Theorem foreach_yields_one_operation_per_item rule ctx f w :
  parseFragment (Foreach rule) = Some [NField ["Value"%string; f]] ->
  parseFieldPath (Foreach rule) = f ->
  f <> ""%string ->
  (forall items,
      Value_ ctx !! f = Some (VList items) ->
      processForeach rule ctx w
      = (inl (omap (fun item =>
                      match generateSingleOperation rule
                              (itemContext ctx item) with
                      | inl op => Some op
                      | inr _ => None
                      end) items),
         appendLog w (omap (itemWarning rule ctx) items))) /\
  (Value_ ctx !! f = None -> processForeach rule ctx w = (inl [], w)) /\
  (forall v,
      Value_ ctx !! f = Some v ->
      (forall items, v <> VList items) ->
      v = VNil \/ unmarshalArray (printValue (RIface v)) = None ->
      processForeach rule ctx w = (inl [], w)).
Proof.
  intros Hparse Hpath Hf.
  assert (Hne : nonEmpty f = true).
  { unfold nonEmpty. apply String.eqb_neq in Hf. now rewrite Hf. }
  unfold processForeach, evaluateForeach.
  rewrite (Parse_fragment _ _ _ Hparse), Execute_single_field.
  cbn [evalChain evalContextField String.eqb Ascii.eqb Bool.eqb].
  cbn [evalFieldChain evalField]. unfold mapIndex. rewrite Hpath, Hne.
  unfold getNestedField.
  split; [|split].
  - intros items Hitems. rewrite Hitems.
    destruct (printValue_list_visible items) as [-> ->]. simpl.
    destruct items as [|item items].
    + unfold ret. simpl. now rewrite appendLog_nil.
    + unfold bind, ret. rewrite foreachLoop_spec. reflexivity.
  - intros Hnone. rewrite Hnone. reflexivity.
  - intros v Hv Hnot Hjson. rewrite Hv.
    destruct (String.eqb (printValue (RIface v)) "" ||
              String.eqb (printValue (RIface v)) "<no value>") eqn:Hvis;
      [reflexivity|].
    destruct Hjson as [-> | Hjson]; [discriminate Hvis|].
    rewrite Hjson.
    destruct v; try reflexivity. exfalso. eapply Hnot. reflexivity.
Qed.

Lemma append_empty_right (s : string) : s +:+ "" = s.
Proof.
  induction s as [|c s IH]; [reflexivity|].
  change (String c s +:+ "") with (String c (s +:+ "")). now rewrite IH.
Qed.

Lemma append_associative (a b c : string) : (a +:+ b) +:+ c = a +:+ (b +:+ c).
Proof.
  induction a as [|x a IH]; [reflexivity|].
  change (String x a +:+ b) with (String x (a +:+ b)).
  change (String x (a +:+ b) +:+ c) with (String x ((a +:+ b) +:+ c)).
  change (String x a +:+ b +:+ c) with (String x (a +:+ b +:+ c)).
  now rewrite IH.
Qed.

Lemma length_append (a b : string) :
  String.length (a +:+ b) = (String.length a + String.length b)%nat.
Proof.
  induction a as [|x a IH]; [reflexivity|].
  change (String x a +:+ b) with (String x (a +:+ b)).
  simpl. now rewrite IH.
Qed.

(** What is already in the buffer stays in front of what the nodes
    write. *)
Lemma execNodes_buffer ctx nodes : forall buf,
  execNodes ctx nodes buf
  = match execNodes ctx nodes "" with
    | inl s => inl (buf +:+ s)
    | inr e => inr e
    end.
Proof.
  induction nodes as [|[t|ids] nodes IH]; intros buf.
  - simpl. now rewrite append_empty_right.
  - cbn [execNodes]. rewrite (IH (buf +:+ t)), (IH ("" +:+ t)).
    destruct (execNodes ctx nodes "") as [s|e]; [|reflexivity].
    change ("" +:+ t) with t. now rewrite append_associative.
  - cbn [execNodes]. destruct (evalChain ctx ids) as [r|e]; [|reflexivity].
    rewrite (IH (buf +:+ printValue r)), (IH ("" +:+ printValue r)).
    destruct (execNodes ctx nodes "") as [s|e]; [|reflexivity].
    change ("" +:+ printValue r) with (printValue r).
    now rewrite append_associative.
Qed.

Lemma execNodes_app ctx before after : forall buf,
  execNodes ctx (before ++ after) buf
  = match execNodes ctx before buf with
    | inl s => execNodes ctx after s
    | inr e => inr e
    end.
Proof.
  induction before as [|[t|ids] before IH]; intros buf.
  - reflexivity.
  - cbn [app execNodes]. apply IH.
  - cbn [app execNodes]. destruct (evalChain ctx ids); [apply IH|reflexivity].
Qed.

Lemma missing_key_is_invalid ctx ids :
  refersToMissingKey ctx ids -> evalChain ctx ids = inl RInvalid.
Proof.
  intros [(f & rest & -> & Hmiss)|(m & f & rest & -> & Hitem & Hmiss)].
  - cbn [evalChain evalContextField String.eqb Ascii.eqb Bool.eqb].
    cbn [evalFieldChain evalField]. unfold mapIndex. rewrite Hmiss.
    apply evalFieldChain_invalid.
  - cbn [evalChain evalContextField String.eqb Ascii.eqb Bool.eqb].
    cbn [evalFieldChain evalField]. rewrite Hitem. unfold mapIndex.
    rewrite Hmiss. apply evalFieldChain_invalid.
Qed.

(** The text of a missing key inside other text: the whole is
    [<no value>] only when there is no other text. *)
Lemma no_value_within (a b : string) :
  (String.eqb (a +:+ "<no value>" +:+ b) "<no value>"
   || String.eqb (a +:+ "<no value>" +:+ b) "")
  = String.eqb a "" && String.eqb b "".
Proof.
  destruct (String.eqb_spec a "") as [->|Ha].
  - destruct (String.eqb_spec b "") as [->|Hb]; [reflexivity|].
    cbn [andb]. apply orb_false_iff. split; apply String.eqb_neq; intros E;
      apply (f_equal String.length) in E; rewrite !length_append in E;
      destruct b; [congruence| |congruence|]; simpl in E; lia.
  - cbn [andb]. apply orb_false_iff. split; apply String.eqb_neq; intros E;
      apply (f_equal String.length) in E; rewrite !length_append in E;
      destruct a; [congruence| |congruence|]; simpl in E; lia.
Qed.

(** C7, amended: when the pattern is exactly one reference, and the
    reference is to a key missing from the record's field mapping, or from
    the current item when that item is a mapping, evaluation yields the
    empty string without error; a reference into an absent current item is
    an execution error.  evaluateTemplate returns an error exactly when the
    pattern does not parse or its execution fails.  In a pattern made of
    literal text and references, a reference to a missing key writes the
    text [<no value>]: when what stands before it evaluates to the text [a]
    and what stands after it to the text [b], the result is [a], then
    [<no value>], then [b], and it is the empty string only when [a] and
    [b] are both empty; when either fails, the result is the execution
    error. *)
Theorem missing_key_evaluates_to_empty ctx p f rest :
  (parseFragment p = Some [NField ("Value"%string :: f :: rest)] ->
   Value_ ctx !! f = None ->
   evaluateTemplate p ctx = inl ""%string) /\
  (forall m,
      parseFragment p = Some [NField ("Item"%string :: f :: rest)] ->
      Item ctx = VMap m -> m !! f = None ->
      evaluateTemplate p ctx = inl ""%string) /\
  (parseFragment p = Some [NField ("Item"%string :: f :: rest)] ->
   Item ctx = VNil ->
   evaluateTemplate p ctx = inr TemplateExecutionError) /\
  (forall e,
      evaluateTemplate p ctx = inr e ->
      (e = TemplateParseError /\ Parse true p = None) \/
      (e = TemplateExecutionError /\
       exists t, Parse true p = Some t /\ Execute t ctx = None)) /\
  (forall before ids after,
      parseFragment p = Some (before ++ NField ids :: after) ->
      refersToMissingKey ctx ids ->
      evaluateTemplate p ctx
      = match execNodes ctx before "", execNodes ctx after "" with
        | inl a, inl b =>
            inl (if String.eqb a "" && String.eqb b ""
                 then ""%string
                 else a +:+ "<no value>" +:+ b)
        | _, _ => inr TemplateExecutionError
        end).
Proof.
  split; [|split; [|split; [|split]]].
  - intros Hparse Hmiss. unfold evaluateTemplate.
    rewrite (Parse_fragment _ _ _ Hparse), Execute_single_field.
    cbn [evalChain evalContextField String.eqb Ascii.eqb Bool.eqb].
    cbn [evalFieldChain evalField]. unfold mapIndex. rewrite Hmiss.
    rewrite evalFieldChain_invalid. reflexivity.
  - intros m Hparse Hitem Hmiss. unfold evaluateTemplate.
    rewrite (Parse_fragment _ _ _ Hparse), Execute_single_field.
    cbn [evalChain evalContextField String.eqb Ascii.eqb Bool.eqb].
    cbn [evalFieldChain evalField]. rewrite Hitem. unfold mapIndex.
    rewrite Hmiss. rewrite evalFieldChain_invalid. reflexivity.
  - intros Hparse Hitem. unfold evaluateTemplate.
    rewrite (Parse_fragment _ _ _ Hparse), Execute_single_field.
    cbn [evalChain evalContextField String.eqb Ascii.eqb Bool.eqb].
    cbn [evalFieldChain evalField]. rewrite Hitem. reflexivity.
  - intros e. unfold evaluateTemplate.
    destruct (Parse true p) as [t|].
    + destruct (Execute t ctx) as [s|] eqn:Hx.
      * destruct (_ || _); discriminate.
      * intros [= <-]. right. eauto.
    + intros [= <-]. now left.
  - intros before ids after Hparse Hmiss. unfold evaluateTemplate.
    rewrite (Parse_fragment _ _ _ Hparse). unfold Execute.
    rewrite execNodes_app.
    destruct (execNodes ctx before "") as [a|e]; [|reflexivity].
    cbn [execNodes]. rewrite (missing_key_is_invalid _ _ Hmiss).
    rewrite execNodes_buffer.
    destruct (execNodes ctx after "") as [b|e]; [|reflexivity].
    cbn [printValue]. rewrite append_associative, no_value_within.
    destruct (String.eqb a "" && String.eqb b ""); reflexivity.
Qed.

(** C6: what processTemplate makes of three scalar templates.  The text
    1.5 becomes the integer 1 and the text null becomes the integer 0; the
    text 8080 becomes 8080. *)
Theorem fractional_text_is_truncated ctx :
  processTemplate (VString "1.5") ctx = inl (VInt 1) /\
  processTemplate (VString "null") ctx = inl (VInt 0) /\
  processTemplate (VString "8080") ctx = inl (VInt 8080).
Proof. repeat split; vm_compute; reflexivity. Qed.

End ForeachFacts.

(** ** The model on the program's tests *)

(** TestEvaluateTemplate. *)
Example evaluate_key_reference :
  evaluateTemplate "{{ .Key }}"
    {| Key := "node-001"; Value_ := ∅; Datacenter := ""; Item := VNil |}
  = inl "node-001"%string.
Proof. reflexivity. Qed.

Example evaluate_nested_value_reference :
  evaluateTemplate "{{ .Value.service }}"
    {| Key := ""; Value_ := {[ "service"%string := VString "nginx" ]};
       Datacenter := ""; Item := VNil |}
  = inl "nginx"%string.
Proof. reflexivity. Qed.

Example evaluate_item_reference :
  evaluateTemplate "{{ .Item.name }}"
    {| Key := ""; Value_ := ∅; Datacenter := "";
       Item := VMap {[ "name"%string := VString "ssh" ]} |}
  = inl "ssh"%string.
Proof. reflexivity. Qed.

(** TestProcessTemplate, "number conversion" and "array template". *)
Example process_number_conversion :
  processTemplate (VString "{{ .Value.port }}")
    {| Key := ""; Value_ := {[ "port"%string := VFloat float8080 ]};
       Datacenter := ""; Item := VNil |}
  = inl (VInt 8080).
Proof. reflexivity. Qed.

Example process_array_template :
  processTemplate
    (VList [VString "{{ .Value.tag1 }}"; VString "{{ .Value.tag2 }}";
            VString "{{ .Value.tag3 }}"])
    {| Key := "";
       Value_ := {[ "tag1"%string := VString "web";
                    "tag2"%string := VString "production" ]};
       Datacenter := ""; Item := VNil |}
  = inl (VList [VString "web"; VString "production"]).
Proof. reflexivity. Qed.

(** The design document's example of a mapping template. *)
Example process_address_template :
  processTemplate (VMap addressTemplate) addressContext
  = inl (VMap {[ "name"%string := VString "n1" ]}).
Proof. reflexivity. Qed.

(** TestEvaluateForeach. *)
Example foreach_nested_field :
  evaluateForeach "{{ .Value.nested_field }}" foreachContext
  = inl [VMap {[ "item1"%string := VString "sub1";
                 "item2"%string := VFloat float8080 ]};
         VMap {[ "item1"%string := VString "sub2";
                 "item2"%string := VFloat float9090 ]}].
Proof. reflexivity. Qed.

Example foreach_missing_field :
  evaluateForeach "{{ .Value.missing }}" emptyRecordContext = inl [].
Proof. reflexivity. Qed.

Example foreach_empty_array :
  evaluateForeach "{{ .Value.empty }}"
    {| Key := ""; Value_ := {[ "empty"%string := VList [] ]};
       Datacenter := ""; Item := VNil |}
  = inl [].
Proof. reflexivity. Qed.

(** The comment of parseFieldPath. *)
Example parseFieldPath_fieldname :
  parseFieldPath "{{ .Value.fieldname }}" = "fieldname"%string.
Proof. reflexivity. Qed.

Example parseFieldPath_other :
  parseFieldPath "{{ .Item.fieldname }}" = ""%string.
Proof. reflexivity. Qed.

Example parseFieldPath_compact :
  parseFieldPath "{{.Value.x}}" = "x"%string.
Proof. reflexivity. Qed.

Example parseFieldPath_nested :
  parseFieldPath "{{ .Value.a.b }}" = "a.b"%string.
Proof. reflexivity. Qed.

Example parseFieldPath_trim_marker :
  parseFieldPath "{{- .Value.x -}}" = ""%string.
Proof. reflexivity. Qed.

(** strings.TrimSpace: ASCII white space and U+00A0, as UTF-8 bytes. *)
Example TrimSpace_ascii :
  TrimSpace (String (ascii_of_nat 9) " a b " +:+ String (ascii_of_nat 10) "")
  = "a b"%string.
Proof. reflexivity. Qed.

Example TrimSpace_no_break_space :
  TrimSpace (String (ascii_of_nat 194) (String (ascii_of_nat 160) "x"))
  = "x"%string.
Proof. reflexivity. Qed.

(** TestWrapOperations, "Node operation structure". *)
Example wrap_node_structure :
  wrapOperation "Node" "set" {[ "Node"%string := VString "web-001" ]}
  = inl {[ "Node"%string :=
             VMap {[ "Verb"%string := VString "set";
                     "Node"%string :=
                       VMap {[ "Node"%string := VString "web-001" ]} ]} ]}.
Proof. reflexivity. Qed.

(** Numbers as encoding/json and strconv read them. *)
Example float_of_8080 : Strconv.unmarshalFloat64 "8080" = Some float8080.
Proof. reflexivity. Qed.

Example float_of_address : Strconv.unmarshalFloat64 "10.0.0.1" = None.
Proof. reflexivity. Qed.

Example float_out_of_range : Strconv.unmarshalFloat64 "1e400" = None.
Proof. reflexivity. Qed.

Example float_of_tenth :
  Strconv.unmarshalFloat64 "0.1"
  = Some (S754_finite false 7205759403792794 (-56)).
Proof. reflexivity. Qed.

(** ** The properties on the samples *)

Example foreach_test :
  fst (fst (GenerateOperations foreachContext (mkConfig [foreachRule]) freshWorld))
  = [serviceOperation "test-node-002" "sub1" "main-service" 8080;
     serviceOperation "test-node-002" "sub2" "main-service" 9090].
Proof. reflexivity. Qed.

(** Witness of C1: 130 operations and a catalog that accepts every batch;
    three batches of 64, 64 and 2 operations are sent. *)
Lemma partition_witness :
  len operations130 + 64 <= 2 ^ 63 /\
  exists batches : list (list GoMap),
    concat batches = operations130 /\
    map length batches = [64; 64; 2]%nat /\
    sent (snd (ExecuteOperations "http://127.0.0.1:8500" operations130 false
                 freshWorld)) = batches.
Proof.
  assert (Hfit : len operations130 + 64 <= 2 ^ 63) by (vm_compute; discriminate).
  split; [exact Hfit|].
  destruct (ExecuteOperations_partitions "http://127.0.0.1:8500"
              operations130 false freshWorld Hfit)
    as (batches & Hconcat & _ & _ & _ & err & j & w' & Hrun & _ & Hall).
  exists batches. split; [exact Hconcat|].
  assert (Herr : err = None).
  { assert (H : fst (ExecuteOperations "http://127.0.0.1:8500" operations130
                       false freshWorld) = Returned None) by reflexivity.
    rewrite Hrun in H. now inversion H. }
  specialize (Hall Herr). simpl in Hall.
  rewrite Hrun. cbn [snd]. split; [|exact Hall].
  rewrite <- Hall. change w' with (snd (Returned err, w')). rewrite <- Hrun.
  reflexivity.
Defined.

(** Witness of C2: 130 operations and a catalog that rolls the second
    batch back; the run fails at batch 2 with the first listed error, and
    the third batch is never sent. *)
Lemma conflict_witness :
  len operations130 + 64 <= 2 ^ 63 /\
  fst (ExecuteOperations (net := conflictingNet) "http://127.0.0.1:8500"
         operations130 false freshWorld)
  = Returned (Some (BatchFailed 2 (TransactionFailed 3 "duplicate"))) /\
  map length (sent (snd (ExecuteOperations (net := conflictingNet)
                           "http://127.0.0.1:8500" operations130 false
                           freshWorld))) = [64; 64]%nat.
Proof.
  assert (Hfit : len operations130 + 64 <= 2 ^ 63) by (vm_compute; discriminate).
  split; [exact Hfit|]. split; [|reflexivity].
  destruct (ExecuteOperations (net := conflictingNet) "http://127.0.0.1:8500"
              operations130 false freshWorld) as [out w'] eqn:Hrun.
  assert (Hsent : sent w' = ([take 64 operations130]
                            ++ take 64 (drop 64 operations130) :: [])%list).
  { change w' with (snd (out, w')). rewrite <- Hrun. reflexivity. }
  destruct (conflict_is_fatal (net := conflictingNet) "http://127.0.0.1:8500"
              operations130 false freshWorld out w'
              [take 64 operations130] (take 64 (drop 64 operations130)) []
              "conflict"
              (mkTransactionResponse []
                 [mkTransactionError 3 "duplicate"; mkTransactionError 7 "stale"])
              (mkTransactionError 3 "duplicate") [mkTransactionError 7 "stale"]
              Hfit Hrun Hsent)
    as (Hfatal & _ & _).
  - simpl. lia.
  - reflexivity.
  - reflexivity.
  - reflexivity.
  - exact Hfatal.
Defined.

(** Witness of C3: the test "condition false skips operation". *)
Lemma skipped_condition_witness :
  Condition conditionRule <> ""%string /\
  evaluateTemplate (Condition conditionRule) conditionContext = inl ""%string /\
  fst (fst (GenerateOperations conditionContext (mkConfig [conditionRule])
              freshWorld)) = [].
Proof.
  assert (H1 : Condition conditionRule <> ""%string) by discriminate.
  assert (H2 : evaluateTemplate (Condition conditionRule) conditionContext
               = inl ""%string) by reflexivity.
  split; [exact H1|]. split; [exact H2|].
  destruct (skipped_condition_yields_no_operation conditionContext
              conditionRule "" [] [] freshWorld H1 H2 (or_introl eq_refl))
    as [_ Hsame].
  simpl in Hsame. rewrite Hsame. reflexivity.
Defined.

(** Witness of C4: the test "foreach processing with array". *)
Lemma foreach_witness :
  TextTemplate.parseFragment (Foreach foreachRule)
    = Some [TextTemplate.NField ["Value"%string; "nested_field"%string]] /\
  parseFieldPath (Foreach foreachRule) = "nested_field"%string /\
  fst (processForeach foreachRule foreachContext freshWorld)
  = inl [serviceOperation "test-node-002" "sub1" "main-service" 8080;
         serviceOperation "test-node-002" "sub2" "main-service" 9090].
Proof.
  assert (H1 : TextTemplate.parseFragment (Foreach foreachRule)
               = Some [TextTemplate.NField ["Value"%string; "nested_field"%string]])
    by reflexivity.
  assert (H2 : parseFieldPath (Foreach foreachRule) = "nested_field"%string)
    by (vm_compute; reflexivity).
  split; [exact H1|]. split; [exact H2|].
  destruct (foreach_yields_one_operation_per_item foreachRule foreachContext
              "nested_field" freshWorld H1 H2 ltac:(discriminate))
    as [Hitems _].
  erewrite Hitems; [|reflexivity].
  reflexivity.
Defined.

(** Witness of C7 as amended: the test "missing field returns empty". *)
Lemma missing_key_witness :
  evaluateTemplate "{{ .Value.missing }}" emptyRecordContext = inl ""%string.
Proof.
  apply (proj1 (missing_key_evaluates_to_empty emptyRecordContext
                  "{{ .Value.missing }}" "missing" [])).
  - reflexivity.
  - reflexivity.
Defined.

(** Witness of C8: the test "missing Node field". *)
Lemma missing_node_witness :
  wrapServiceOperation "set" serviceWithoutNode = inr MissingNodeOrService.
Proof.
  apply (proj1 (missing_field_fails_without_abort "set" serviceWithoutNode)).
  left. intros s. discriminate.
Defined.

(** Counterexample to C7 as first stated: the pattern of the test "item
    reference in foreach" parses, and evaluated outside a foreach, where
    there is no current item, it is an error and not the empty string. *)
Lemma absent_item_reference_fails :
  TextTemplate.Parse true "{{ .Item.name }}"
    = Some (TextTemplate.Fragment [TextTemplate.NField ["Item"%string; "name"%string]]) /\
  Item emptyRecordContext = VNil /\
  evaluateTemplate "{{ .Item.name }}" emptyRecordContext
    = inr TemplateExecutionError.
Proof. repeat split. Qed.

(** A reference to a missing key after literal text: the text stays and the
    reference writes [<no value>]. *)
Example missing_key_after_text :
  evaluateTemplate "x{{ .Value.missing }}" emptyRecordContext
  = inl "x<no value>"%string.
Proof. reflexivity. Qed.

Import Output Loader.

(** ** Further facts about the mapping engine *)

Section RuleOrigins.
Context {rt : GoRuntime}.

Lemma rulesLoop_flat_map ctx rules ops w :
  fst (rulesLoop ctx rules ops w)
  = ops ++ flat_map (fun rule => fst (ruleStep ctx rule [] w)) rules.
Proof.
  revert ops w. induction rules as [|rule rules IH]; intros ops w.
  - simpl. now rewrite app_nil_r.
  - cbn [rulesLoop flat_map]. unfold bind.
    destruct (ruleStep_spec ctx rule) as (new & lines & H).
    rewrite !H. rewrite IH. simpl.
    rewrite <- app_assoc. do 2 f_equal.
    apply flat_map_ext. intros r.
    destruct (ruleStep_spec ctx r) as (new' & lines' & H').
    now rewrite !H'.
Qed.

Lemma GenerateOperations_flat_map ctx rules w :
  fst (fst (GenerateOperations ctx (mkConfig rules) w))
  = flat_map (fun rule =>
                fst (fst (GenerateOperations ctx (mkConfig [rule]) w))) rules.
Proof.
  unfold GenerateOperations, bind, ret. cbn [Operations].
  pose proof (rulesLoop_flat_map ctx rules [] w) as H.
  destruct (rulesLoop ctx rules [] w) as [ops w1]. simpl in *. rewrite H.
  apply flat_map_ext. intros rule. cbn [rulesLoop]. unfold bind, ret.
  now destruct (ruleStep ctx rule [] w).
Qed.

Lemma ruleStep_origin ctx rule w op :
  op ∈ fst (ruleStep ctx rule [] w) ->
  exists ctx', generateSingleOperation rule ctx' = inl op.
Proof.
  unfold ruleStep. destruct (conditionGate rule ctx).
  - destruct (nonEmpty (Foreach rule)).
    + unfold processForeach.
      destruct (evaluateForeach (Foreach rule) ctx) as [[|item items]|e];
        unfold bind, ret, logPrintf.
      * simpl. intros H. inversion H.
      * rewrite foreachLoop_spec. cbn [fst app]. rewrite list_elem_of_omap.
        intros (it & _ & Hit). unfold itemOperation in Hit.
        exists (itemContext ctx it).
        destruct (generateSingleOperation rule (itemContext ctx it));
          congruence.
      * simpl. intros H. inversion H.
    + destruct (generateSingleOperation rule ctx) as [op'|e] eqn:E;
        unfold bind, ret, logPrintf; simpl.
      * intros H. apply list_elem_of_singleton in H. subst. eauto.
      * intros H. inversion H.
  - unfold ret. simpl. intros H. inversion H.
  - unfold bind, ret, logPrintf. simpl. intros H. inversion H.
Qed.

Lemma wrapOperation_shape opType verb data op :
  wrapOperation opType verb data = inl op ->
  exists body,
    op = {[ opType := VMap body ]} /\
    body !! "Verb"%string = Some (VString verb) /\
    ((opType = "Node"%string /\ body !! "Node"%string = Some (VMap data)) \/
     ((opType = "Service"%string \/ opType = "Check"%string) /\
      exists name payload,
        name <> ""%string /\
        data !! "Node"%string = Some (VString name) /\
        data !! opType = Some (VMap payload) /\
        body !! "Node"%string = Some (VString name) /\
        body !! opType = Some (VMap payload))).
Proof.
  unfold wrapOperation.
  destruct (String.eqb_spec opType "Node") as [->|_].
  { intros [= <-]. eexists. split; [reflexivity|]. split; [reflexivity|].
    left. split; reflexivity. }
  destruct (String.eqb_spec opType "Service") as [->|_].
  { unfold wrapServiceOperation, stringField, mapField.
    destruct (data !! "Service"%string) as [[]|] eqn:Hs; try discriminate.
    destruct (data !! "Node"%string) as [[]|] eqn:Hn; try discriminate.
    destruct (String.eqb_spec s "") as [|Hne]; [discriminate|].
    intros [= <-]. eexists. split; [reflexivity|]. split; [reflexivity|].
    right. split; [now left|]. exists s, m. repeat split; auto. }
  destruct (String.eqb_spec opType "Check") as [->|_]; [|discriminate].
  unfold wrapCheckOperation, stringField, mapField.
  destruct (data !! "Check"%string) as [[]|] eqn:Hs; try discriminate.
  destruct (data !! "Node"%string) as [[]|] eqn:Hn; try discriminate.
  destruct (String.eqb_spec s "") as [|Hne]; [discriminate|].
  intros [= <-]. eexists. split; [reflexivity|]. split; [reflexivity|].
  right. split; [now right|]. exists s, m. repeat split; auto.
Qed.

Lemma generated_envelope ctx config w op :
  op ∈ fst (fst (GenerateOperations ctx config w)) ->
  exists rule body,
    rule ∈ Operations config /\
    op = {[ Type_ rule := VMap body ]} /\
    body !! "Verb"%string = Some (VString (effectiveVerb rule)) /\
    ((Type_ rule = "Node"%string /\
      exists data, body !! "Node"%string = Some (VMap data)) \/
     ((Type_ rule = "Service"%string \/ Type_ rule = "Check"%string) /\
      exists name payload,
        name <> ""%string /\
        body !! "Node"%string = Some (VString name) /\
        body !! Type_ rule = Some (VMap payload))).
Proof.
  destruct config as [rules]. rewrite GenerateOperations_flat_map.
  cbn [Operations]. rewrite list_elem_of_In, in_flat_map.
  intros (rule & Hrule & Hop). apply list_elem_of_In in Hop.
  assert (Hop' : op ∈ fst (ruleStep ctx rule [] w)).
  { revert Hop. unfold GenerateOperations, bind, ret. cbn [Operations rulesLoop].
    unfold bind, ret. now destruct (ruleStep ctx rule [] w). }
  apply ruleStep_origin in Hop' as [ctx' Hgen].
  unfold generateSingleOperation in Hgen.
  destruct (processTemplate (VMap (Template rule)) ctx') as [[]|]; try discriminate.
  apply wrapOperation_shape in Hgen as (body & -> & Hverb & Hkind).
  exists rule, body. split; [now apply list_elem_of_In|].
  split; [reflexivity|]. split; [exact Hverb|].
  destruct Hkind as [[Hn Hd]|[Hsc (name & payload & Hne & _ & _ & H1 & H2)]].
  - left. eauto.
  - right. split; [exact Hsc|]. exists name, payload. auto.
Qed.

(** X1: the operations GenerateOperations returns for a list of rules are
    those it returns for each rule alone, one rule after the other, in the
    order of the rules. *)
Theorem GenerateOperations_rule_by_rule ctx rules w :
  fst (fst (GenerateOperations ctx (mkConfig rules) w))
  = flat_map (fun rule =>
                fst (fst (GenerateOperations ctx (mkConfig [rule]) w))) rules.
Proof. apply GenerateOperations_flat_map. Qed.

(** X2: every operation GenerateOperations returns comes from a rule of the
    configuration and is a map with one key, the type of the rule, over a
    body that carries the verb of the rule ("set" when the rule has none).
    For type Node the body has a mapping under "Node"; for Service and Check
    it has a non-empty node name under "Node" and a mapping under the
    type. *)
Theorem generated_operation_is_an_envelope ctx config w op :
  op ∈ fst (fst (GenerateOperations ctx config w)) ->
  exists rule body,
    rule ∈ Operations config /\
    op = {[ Type_ rule := VMap body ]} /\
    body !! "Verb"%string = Some (VString (effectiveVerb rule)) /\
    ((Type_ rule = "Node"%string /\
      exists data, body !! "Node"%string = Some (VMap data)) \/
     ((Type_ rule = "Service"%string \/ Type_ rule = "Check"%string) /\
      exists name payload,
        name <> ""%string /\
        body !! "Node"%string = Some (VString name) /\
        body !! Type_ rule = Some (VMap payload))).
Proof. apply generated_envelope. Qed.

End RuleOrigins.

Section TemplateTexts.
Context {rt : GoRuntime}.
Import TextTemplate.

Lemma processTemplate_list_eq l ctx :
  processTemplate (VList l) ctx
  = let processed := map (fun item => processTemplate item ctx) l in
    match firstError processed with
    | Some e => inr e
    | None => inl (VList (omap kept processed))
    end.
Proof. reflexivity. Qed.

Lemma firstError_cons r rs :
  firstError (r :: rs)
  = match r with
    | inr e => Some e
    | inl _ => firstError rs
    end.
Proof.
  unfold firstError. cbn [list_find].
  destruct r as [v|e]; simpl.
  - destruct (decide (is_Some (failure (@inl Value error v)))) as [[? H]|_];
      [discriminate|].
    destruct (list_find _ rs) as [[i x]|]; reflexivity.
  - destruct (decide (is_Some (failure (@inr Value error e)))) as [_|H];
      [reflexivity|]. exfalso. apply H. simpl. eauto.
Qed.

(** X3: processTemplate on a sequence processes the items in order.  When
    all succeed the result is the sequence of their results, in the same
    order, without those that are nil, empty or "<no value>"; otherwise the
    error is that of the first item that fails. *)
Theorem processed_sequence_keeps_order l ctx :
  match processTemplate (VList l) ctx with
  | inl result =>
      exists vs,
        Forall2 (fun t v => processTemplate t ctx = inl v) l vs /\
        result = VList (List.filter (fun v => negb (isBlankValue v)) vs)
  | inr e =>
      exists before t after,
        l = before ++ t :: after /\
        processTemplate t ctx = inr e /\
        Forall (fun t' => exists v, processTemplate t' ctx = inl v) before
  end.
Proof.
  rewrite processTemplate_list_eq. cbv zeta.
  induction l as [|t l IH].
  - simpl. exists []. split; [constructor|reflexivity].
  - cbn [map]. rewrite firstError_cons.
    destruct (processTemplate t ctx) as [v|e] eqn:Ht.
    + destruct (firstError (map (fun item => processTemplate item ctx) l))
        as [e|].
      * destruct IH as (before & t' & after & -> & He & Hb).
        exists (t :: before), t', after. split; [reflexivity|].
        split; [exact He|]. constructor; eauto.
      * destruct IH as (vs & Hvs & Hres). exists (v :: vs).
        split; [constructor; assumption|].
        inversion Hres as [Hres']. cbn [omap list_omap kept List.filter].
        fold (@omap list _ _ _ kept).
        destruct (isBlankValue v); simpl; now rewrite Hres'.
    + exists [], t, l. split; [reflexivity|]. split; [exact Ht|constructor].
Qed.

Lemma lexRun_text s : forall nodes acc,
  braceFree s = true ->
  lexRun (nodes, SText acc) s = Some (emitText nodes (acc +:+ s)).
Proof.
  induction s as [|c s IH]; intros nodes acc Hs.
  - simpl. now rewrite append_empty_right.
  - simpl in Hs. apply andb_true_iff in Hs as [Hc Hs].
    cbn [lexRun lexStep]. apply negb_true_iff in Hc. rewrite Hc.
    rewrite IH by assumption. unfold snoc.
    now rewrite append_associative.
Qed.

(** X4: a pattern without an opening brace evaluates to itself, for every
    context and every runtime; the one exception is the text "<no value>",
    which evaluates to the empty string. *)
Theorem literal_text_evaluates_to_itself s ctx :
  braceFree s = true ->
  evaluateTemplate s ctx
  = inl (if String.eqb s "<no value>" then ""%string else s).
Proof.
  intros Hs. unfold evaluateTemplate, Parse, parseFragment.
  rewrite lexRun_text by assumption.
  change ("" +:+ s) with s.
  unfold Execute, emitText. destruct s as [|c s].
  - reflexivity.
  - cbn [app execNodes]. change ("" +:+ String c s) with (String c s).
    destruct (String.eqb (String c s) "<no value>"); reflexivity.
Qed.

End TemplateTexts.

Lemma in_countFrom z k : forall lo,
  lo <= z < lo + Z.of_nat k -> In z (countFrom lo k).
Proof.
  induction k as [|k IH]; intros lo Hz; [lia|].
  cbn [countFrom]. destruct (Z.eq_dec lo z) as [->|Hne]; [now left|].
  right. apply IH. lia.
Qed.

Section PortTexts.
Context {rt : GoRuntime}.

Lemma ports_round_trip ctx :
  forallb (decimalRoundTrips ctx) (countFrom 0 (Z.to_nat 65536)) = true.
Proof. vm_cast_no_check (eq_refl true). Qed.

(** X5: the decimal text of a port number (0 to 65535), as a scalar
    template, is processed to that number as an integer. *)
Theorem port_text_becomes_its_number ctx (z : Z) :
  0 <= z <= 65535 ->
  processTemplate (VString (pretty z)) ctx = inl (VInt z).
Proof.
  intros Hz. pose proof (ports_round_trip ctx) as H.
  rewrite forallb_forall in H.
  specialize (H z ltac:(apply in_countFrom; rewrite Z2Nat.id; lia)).
  unfold decimalRoundTrips in H.
  destruct (processTemplate _ ctx) as [[]|]; try discriminate.
  apply Z.eqb_eq in H. now subst.
Qed.

End PortTexts.






Section PrunedValues.
Context {rt : GoRuntime}.




End PrunedValues.


(** ** Further facts about the batch executor *)

Section AnswerFacts.
Context {net : Transport}.

Lemma processResponse_error resp verbose w :
  fst (processResponse resp verbose w) = responseError resp.
Proof.
  unfold responseError, processResponse.
  destruct (Body resp) as [body|]; [|reflexivity].
  destruct (StatusCode resp =? StatusOK).
  - unfold bind, ret. destruct verbose; [|reflexivity].
    now destruct (logSuccessDetails (StatusCode resp) body w) as [[] w1].
  - destruct (StatusCode resp =? StatusConflict); [|reflexivity].
    unfold bind, ret, handleTransactionConflict, formatTransactionErrors.
    destruct (unmarshalTransaction body) as [result|]; [|reflexivity].
    destruct (Errors result) as [|first others]; [reflexivity|].
    unfold bind, ret. rewrite !logEach_logged. reflexivity.
Qed.

(** What answers a batch decides how the run goes on: an error ends it
    there. *)
Lemma batchLoop_answer addr ops verbose total :
  len ops + 64 <= 2 ^ 63 ->
  forall fuel (k : nat) w out w',
    (batchCount ops - k <= fuel)%nat ->
    batchLoop fuel addr ops verbose total (Z.of_nat (64 * k)) w = (out, w') ->
    forall hist b rest,
      sent w' = hist ++ b :: rest ->
      (length (sent w) <= length hist)%nat ->
      match replyError (roundTrip hist (addr +:+ "/v1/txn") b) with
      | Some e =>
          out = Returned (Some (BatchFailed
                  (Z.of_nat (k + (length hist - length (sent w))) + 1) e)) /\
          rest = []
      | None => True
      end.
Proof.
  intros Hfit. induction fuel as [|fuel IH];
    intros k w out w' Hfuel Hrun hist b rest Hsent Hhist.
  - rewrite batchLoop_done in Hrun by lia. inversion Hrun; subst.
    rewrite Hsent, length_app in Hhist. simpl in Hhist. lia.
  - destruct (decide (k < batchCount ops)%nat) as [Hlt|Hge].
    2:{ rewrite batchLoop_done in Hrun by lia. inversion Hrun; subst.
        rewrite Hsent, length_app in Hhist. simpl in Hhist. lia. }
    rewrite batchLoop_step in Hrun by assumption. cbv zeta in Hrun.
    set (w1 := mkWorld (sent w) _) in Hrun.
    pose proof (executeTransaction_sent addr (batchAt ops k) verbose w1) as Hx.
    destruct (executeTransaction addr (batchAt ops k) verbose w1)
      as [err w2].
    change (sent w1) with (sent w) in Hx.
    destruct Hx as [[S2 Herr]|[S2 Hreply2]].
    + destruct err as [e|]; [|congruence]. inversion Hrun; subst.
      rewrite S2 in Hsent. rewrite Hsent, length_app in Hhist.
      simpl in Hhist. lia.
    + assert (Herr : err = replyError
                       (roundTrip (sent w) (addr +:+ "/v1/txn") (batchAt ops k))).
      { destruct (roundTrip (sent w) _ _) as [|resp]; [exact Hreply2|].
        destruct Hreply2 as (w3 & l3 & _ & _ & Hpr). simpl.
        rewrite <- (processResponse_error resp verbose w3), <- Hpr.
        reflexivity. }
      destruct (decide (length hist = length (sent w))) as [Heq|Hne].
      * assert (Hsame : hist = sent w /\ b = batchAt ops k).
        { destruct err as [e|].
          - inversion Hrun; subst. rewrite S2 in Hsent.
            apply app_inj_1 in Hsent as [-> E]; [|congruence].
            inversion E. now split.
          - destruct (batchLoop_sends addr ops verbose total Hfit fuel
                        (S k) (mkWorld (sent w2) (logged w2 ++
                           [OkBatchCompleted (Z.of_nat k + 1) total])))
              as (? & j & w'' & E & S' & _); [lia|lia|].
            rewrite E in Hrun. inversion Hrun; subst.
            rewrite S' in Hsent. simpl in Hsent. rewrite S2 in Hsent.
            rewrite <- app_assoc in Hsent.
            apply app_inj_1 in Hsent as [-> E']; [|congruence].
            simpl in E'. inversion E'. now split. }
        destruct Hsame as [-> ->]. rewrite <- Herr.
        destruct err as [e|].
        -- inversion Hrun; subst out w'.
           rewrite S2 in Hsent. apply app_inj_1 in Hsent as [_ E]; [|done].
           inversion E; subst rest.
           replace (length (sent w) - length (sent w))%nat with 0%nat by lia.
           rewrite Nat.add_0_r. split; reflexivity.
        -- exact I.
      * destruct err as [e|].
        { inversion Hrun; subst. rewrite S2 in Hsent.
          apply (f_equal length) in Hsent. rewrite !length_app in Hsent.
          simpl in Hsent. lia. }
        specialize (IH (S k) _ out w' ltac:(lia) Hrun hist b rest Hsent).
        simpl in IH. rewrite S2, length_app in IH. simpl in IH.
        specialize (IH ltac:(lia)).
        replace (S (k + (length hist - (length (sent w) + 1))))%nat
          with (k + (length hist - length (sent w)))%nat in IH by lia.
        exact IH.
Qed.

End AnswerFacts.

Section AnswerTheorems.
Context {net : Transport}.

Lemma ExecuteOperations_answer addr ops verbose w out w' hist b rest e :
  len ops + 64 <= 2 ^ 63 ->
  ExecuteOperations addr ops verbose w = (out, w') ->
  sent w' = hist ++ b :: rest ->
  (length (sent w) <= length hist)%nat ->
  replyError (roundTrip hist (addr +:+ "/v1/txn") b) = Some e ->
  out = Returned (Some (BatchFailed
          (Z.of_nat (length hist - length (sent w)) + 1) e)) /\
  rest = [].
Proof.
  intros Hfit Hrun Hsent Hhist He. unfold ExecuteOperations in Hrun.
  destruct (len ops =? 0).
  - unfold bind, logPrintf, ret in Hrun. inversion Hrun; subst.
    simpl in Hsent. rewrite Hsent, length_app in Hhist. simpl in Hhist. lia.
  - pose proof (batchCount_spec ops).
    pose proof (batchLoop_answer addr ops verbose _ Hfit (length ops) 0%nat
                  w out w' ltac:(lia) Hrun hist b rest Hsent Hhist) as H1.
    rewrite He in H1. exact H1.
Qed.

Lemma responseError_accepted resp :
  responseError resp = None ->
  exists body, resp = mkResponse StatusOK (Some body).
Proof.
  unfold responseError, processResponse. destruct resp as [status [body|]];
    cbn [Body StatusCode]; [|discriminate].
  destruct (Z.eqb_spec status StatusOK) as [->|_].
  - intros _. eauto.
  - destruct (status =? StatusConflict); [|discriminate].
    unfold bind, ret. now destruct (handleTransactionConflict _ _ _).
Qed.

(** X7: a batch answered with a status other than 200 and 409 ends the run
    with the error "batch n failed: HTTP status: body", n being the
    position of the batch in the run, and no batch is sent after it. *)
Theorem other_status_is_fatal addr ops verbose w out w'
    hist b rest status body :
  len ops + 64 <= 2 ^ 63 ->
  ExecuteOperations addr ops verbose w = (out, w') ->
  sent w' = hist ++ b :: rest ->
  (length (sent w) <= length hist)%nat ->
  roundTrip hist (addr +:+ "/v1/txn") b
    = Received (mkResponse status (Some body)) ->
  status <> 200 -> status <> 409 ->
  out = Returned (Some (BatchFailed
          (Z.of_nat (length hist - length (sent w)) + 1)
          (HTTPStatus status body))) /\
  rest = [].
Proof.
  intros Hfit Hrun Hsent Hhist Hreply H200 H409.
  apply (ExecuteOperations_answer addr ops verbose w out w' hist b rest);
    try assumption.
  rewrite Hreply. unfold replyError, responseError, processResponse.
  cbn [Body StatusCode]. unfold StatusOK, StatusConflict.
  destruct (Z.eqb_spec status 200); [contradiction|].
  destruct (Z.eqb_spec status 409); [contradiction|]. reflexivity.
Qed.

(** X8: a batch answered with status 409 ends the run and no batch is sent
    after it.  When the body does not decode the error is "transaction
    rolled back" with the status and the body; when it decodes to an empty
    list of errors it is "transaction failed with unknown error". *)
Theorem conflict_without_error_list addr ops verbose w out w'
    hist b rest body :
  len ops + 64 <= 2 ^ 63 ->
  ExecuteOperations addr ops verbose w = (out, w') ->
  sent w' = hist ++ b :: rest ->
  (length (sent w) <= length hist)%nat ->
  roundTrip hist (addr +:+ "/v1/txn") b
    = Received (mkResponse StatusConflict (Some body)) ->
  (unmarshalTransaction body = None ->
   out = Returned (Some (BatchFailed
           (Z.of_nat (length hist - length (sent w)) + 1)
           (TransactionRolledBack StatusConflict body))) /\
   rest = []) /\
  (forall result,
      unmarshalTransaction body = Some result -> Errors result = [] ->
      out = Returned (Some (BatchFailed
              (Z.of_nat (length hist - length (sent w)) + 1)
              TransactionUnknownError)) /\
      rest = []).
Proof.
  intros Hfit Hrun Hsent Hhist Hreply. split.
  - intros Hbody.
    apply (ExecuteOperations_answer addr ops verbose w out w' hist b rest);
      try assumption.
    rewrite Hreply. unfold replyError, responseError, processResponse.
    cbn [Body StatusCode]. cbn [Z.eqb StatusOK StatusConflict Pos.eqb].
    unfold handleTransactionConflict, bind, ret. now rewrite Hbody.
  - intros result Hbody Herrs.
    apply (ExecuteOperations_answer addr ops verbose w out w' hist b rest);
      try assumption.
    rewrite Hreply. unfold replyError, responseError, processResponse.
    cbn [Body StatusCode]. cbn [Z.eqb StatusOK StatusConflict Pos.eqb].
    unfold handleTransactionConflict, formatTransactionErrors, bind, ret.
    now rewrite Hbody, Herrs.
Qed.

(** X9: a batch whose request gets no response, or a response whose body
    cannot be read, ends the run with that error and no batch is sent after
    it. *)
Theorem unanswered_request_is_fatal addr ops verbose w out w' hist b rest :
  len ops + 64 <= 2 ^ 63 ->
  ExecuteOperations addr ops verbose w = (out, w') ->
  sent w' = hist ++ b :: rest ->
  (length (sent w) <= length hist)%nat ->
  (roundTrip hist (addr +:+ "/v1/txn") b = SendFailed ->
   out = Returned (Some (BatchFailed
           (Z.of_nat (length hist - length (sent w)) + 1)
           FailedToSendRequest)) /\
   rest = []) /\
  (forall status,
      roundTrip hist (addr +:+ "/v1/txn") b
        = Received (mkResponse status None) ->
      out = Returned (Some (BatchFailed
              (Z.of_nat (length hist - length (sent w)) + 1)
              FailedToReadResponse)) /\
      rest = []).
Proof.
  intros Hfit Hrun Hsent Hhist. split.
  - intros Hreply.
    apply (ExecuteOperations_answer addr ops verbose w out w' hist b rest);
      try assumption.
    now rewrite Hreply.
  - intros status Hreply.
    apply (ExecuteOperations_answer addr ops verbose w out w' hist b rest);
      try assumption.
    now rewrite Hreply.
Qed.

(** X10: a batch that is followed by another batch, or by the normal end of
    the run, was answered with status 200. *)
Theorem continued_batches_were_accepted addr ops verbose w out w'
    hist b rest :
  len ops + 64 <= 2 ^ 63 ->
  ExecuteOperations addr ops verbose w = (out, w') ->
  sent w' = hist ++ b :: rest ->
  (length (sent w) <= length hist)%nat ->
  rest <> [] \/ out = Returned None ->
  exists body,
    roundTrip hist (addr +:+ "/v1/txn") b
      = Received (mkResponse StatusOK (Some body)).
Proof.
  intros Hfit Hrun Hsent Hhist Hgo.
  destruct (replyError (roundTrip hist (addr +:+ "/v1/txn") b)) as [e|] eqn:He.
  - destruct (ExecuteOperations_answer addr ops verbose w out w' hist b rest e
                Hfit Hrun Hsent Hhist He) as [Hout Hrest].
    destruct Hgo as [Hgo|Hgo]; [contradiction|]. congruence.
  - destruct (roundTrip hist _ b) as [|resp]; [discriminate|].
    simpl in He. apply responseError_accepted in He as [body ->]. eauto.
Qed.

End AnswerTheorems.

Section RunFacts.
Context {net : Transport}.

Lemma verbose_prefix_sent (verbose : bool) (c : IO unit) w :
  onlyLogs c ->
  sent (snd ((if verbose then c else ret tt) w)) = sent w.
Proof.
  intros Hc. destruct verbose; [apply Hc|reflexivity].
Qed.

(** The error of a transaction and the requests made after it depend on
    the requests made before it, and on nothing else of the state. *)
Lemma executeTransaction_same addr batch v1 v2 w1 w2 :
  sent w1 = sent w2 ->
  fst (executeTransaction addr batch v1 w1)
  = fst (executeTransaction addr batch v2 w2) /\
  sent (snd (executeTransaction addr batch v1 w1))
  = sent (snd (executeTransaction addr batch v2 w2)).
Proof.
  intros Hs. unfold executeTransaction.
  destruct (jsonMarshal batch) as [payload|]; [|now split].
  unfold sendRequest, clientDo, bind.
  pose proof (verbose_prefix_sent v1 (logVerboseInfo batch payload) w1
                (onlyLogs_logVerboseInfo batch payload)) as P1.
  pose proof (verbose_prefix_sent v2 (logVerboseInfo batch payload) w2
                (onlyLogs_logVerboseInfo batch payload)) as P2.
  destruct ((if v1 then logVerboseInfo batch payload else ret tt) w1)
    as [[] u1].
  destruct ((if v2 then logVerboseInfo batch payload else ret tt) w2)
    as [[] u2].
  simpl in P1, P2.
  destruct (newRequestOk _).
  2:{ simpl. split; congruence. }
  rewrite P1, P2, Hs.
  destruct (roundTrip (sent w2) _ batch) as [|resp]; simpl.
  - split; reflexivity.
  - split.
    + now rewrite !processResponse_error.
    + now rewrite !(proj1 (onlyLogs_processResponse resp _ _)).
Qed.

Lemma batchLoop_same addr ops total1 total2 :
  forall fuel i w1 w2,
    sent w1 = sent w2 ->
    fst (batchLoop fuel addr ops true total1 i w1)
    = fst (batchLoop fuel addr ops false total2 i w2) /\
    sent (snd (batchLoop fuel addr ops true total1 i w1))
    = sent (snd (batchLoop fuel addr ops false total2 i w2)).
Proof.
  induction fuel as [|fuel IH]; intros i w1 w2 Hs; cbn [batchLoop].
  - destruct (i <? len ops); now split.
  - destruct (i <? len ops); [|now split].
    destruct (slice ops i _) as [batch|]; [|now split].
    unfold bind, logPrintf, ret.
    match goal with
    | |- context [executeTransaction addr batch true ?u1] =>
        match goal with
        | |- context [executeTransaction addr batch false ?u2] =>
            pose proof (executeTransaction_same addr batch true false u1 u2
                          Hs) as [He Hsent]
        end
    end.
    destruct (executeTransaction addr batch true _) as [e1 x1].
    destruct (executeTransaction addr batch false _) as [e2 x2].
    simpl in He, Hsent. subst e2.
    destruct e1 as [e|]; [now split|].
    apply IH. exact Hsent.
Qed.

(** X11: the verbose flag changes neither what ExecuteOperations returns nor
    the batches it sends. *)
Theorem verbose_changes_only_the_log addr ops w :
  fst (ExecuteOperations addr ops true w)
  = fst (ExecuteOperations addr ops false w) /\
  sent (snd (ExecuteOperations addr ops true w))
  = sent (snd (ExecuteOperations addr ops false w)).
Proof.
  unfold ExecuteOperations. destruct (len ops =? 0); [now split|].
  now apply batchLoop_same.
Qed.

Lemma batchLoop_accepts addr ops verbose total :
  len ops + 64 <= 2 ^ 63 ->
  (forall batch, jsonMarshal batch <> None) ->
  newRequestOk (addr +:+ "/v1/txn") = true ->
  (forall hist batch, exists body,
      roundTrip hist (addr +:+ "/v1/txn") batch
        = Received (mkResponse StatusOK (Some body))) ->
  forall fuel (k : nat) w,
    (k <= batchCount ops)%nat ->
    (batchCount ops - k <= fuel)%nat ->
    exists w',
      batchLoop fuel addr ops verbose total (Z.of_nat (64 * k)) w
        = (Returned None, w') /\
      sent w' = sent w ++ map (batchAt ops) (seq k (batchCount ops - k)).
Proof.
  intros Hfit Hmarshal Hurl Hok.
  induction fuel as [|fuel IH]; intros k w Hk Hfuel.
  - exists w. rewrite batchLoop_done by lia.
    replace (batchCount ops - k)%nat with 0%nat by lia.
    simpl. now rewrite app_nil_r.
  - destruct (decide (k < batchCount ops)%nat) as [Hlt|Hge].
    2:{ exists w. rewrite batchLoop_done by lia.
        replace (batchCount ops - k)%nat with 0%nat by lia.
        simpl. now rewrite app_nil_r. }
    rewrite batchLoop_step by assumption. cbv zeta.
    set (w1 := mkWorld (sent w) _).
    pose proof (executeTransaction_sent addr (batchAt ops k) verbose w1) as Hx.
    assert (Hnone : fst (executeTransaction addr (batchAt ops k) verbose w1)
                    = None).
    { unfold executeTransaction.
      destruct (jsonMarshal (batchAt ops k)) as [payload|] eqn:Hm;
        [|now apply Hmarshal in Hm].
      unfold bind at 1.
      destruct ((if verbose then logVerboseInfo (batchAt ops k) payload
                 else ret tt) w1) as [[] u1].
      unfold bind, sendRequest. rewrite Hurl. unfold bind, clientDo.
      destruct (Hok (sent u1) (batchAt ops k)) as [body ->]. simpl.
      rewrite processResponse_error. unfold responseError, processResponse.
      simpl. unfold bind, ret. reflexivity. }
    destruct (executeTransaction addr (batchAt ops k) verbose w1)
      as [err w2].
    simpl in Hnone. subst err. change (sent w1) with (sent w) in Hx.
    destruct Hx as [[_ Hx]|[S2 _]]; [congruence|].
    destruct (IH (S k) (mkWorld (sent w2) (logged w2 ++
                [OkBatchCompleted (Z.of_nat k + 1) total])))
      as (w' & E & S'); [lia|lia|].
    exists w'. split; [exact E|]. rewrite S'. simpl. rewrite S2.
    replace (batchCount ops - k)%nat with (S (batchCount ops - S k)) by lia.
    simpl. now rewrite <- app_assoc.
Qed.

(** X12: when every batch encodes, the request can be built and every
    request is answered with status 200, ExecuteOperations returns nil and
    has sent batches whose concatenation is the list of operations. *)
Theorem accepted_run_sends_everything addr ops verbose w :
  len ops + 64 <= 2 ^ 63 ->
  (forall batch, jsonMarshal batch <> None) ->
  newRequestOk (addr +:+ "/v1/txn") = true ->
  (forall hist batch, exists body,
      roundTrip hist (addr +:+ "/v1/txn") batch
        = Received (mkResponse StatusOK (Some body))) ->
  exists w' batches,
    ExecuteOperations addr ops verbose w = (Returned None, w') /\
    sent w' = sent w ++ batches /\
    concat batches = ops.
Proof.
  intros Hfit Hmarshal Hurl Hok. unfold ExecuteOperations.
  pose proof (batchCount_spec ops) as Hbc.
  destruct (Z.eqb_spec (len ops) 0) as [Hz|Hnz].
  - eexists _, []. split; [reflexivity|]. simpl. rewrite app_nil_r.
    split; [reflexivity|]. unfold len in Hz. destruct ops; [reflexivity|].
    simpl in Hz. lia.
  - destruct (batchLoop_accepts addr ops verbose
                (GoInt.div (GoInt.sub (GoInt.add (len ops)
                   maxOperationsPerTransaction) 1) maxOperationsPerTransaction)
                Hfit Hmarshal Hurl Hok (length ops) 0%nat w)
      as (w' & E & S'); [lia|lia|].
    exists w', (map (batchAt ops) (seq 0 (batchCount ops))).
    simpl in E. split; [exact E|]. rewrite Nat.sub_0_r in S'.
    split; [exact S'|].
    rewrite concat_batches_from. simpl. apply take_ge. lia.
Qed.

End RunFacts.


(** ** Facts about the inspection outputs *)

Lemma wrap_wrap_add x y : GoInt.wrap (GoInt.wrap x + y) = GoInt.wrap (x + y).
Proof.
  unfold GoInt.wrap. f_equal.
  replace ((x + 2 ^ 63) mod 2 ^ 64 - 2 ^ 63 + y + 2 ^ 63)
    with ((x + 2 ^ 63) mod 2 ^ 64 + y) by lia.
  rewrite Zplus_mod_idemp_l. f_equal. lia.
Qed.

Lemma countStep_counts3 a b c op :
  countStep (counts3 a b c) op
  = if hasKey op "Node" then counts3 (GoInt.add a 1) b c
    else if hasKey op "Service" then counts3 a (GoInt.add b 1) c
    else if hasKey op "Check" then counts3 a b (GoInt.add c 1)
    else counts3 a b c.
Proof.
  unfold countStep, increment, counts3.
  destruct (hasKey op "Node").
  { rewrite lookup_insert_eq. simpl. now rewrite insert_insert_eq. }
  destruct (hasKey op "Service").
  { rewrite lookup_insert_ne by discriminate. rewrite lookup_insert_eq. simpl.
    rewrite (insert_insert_ne _ "service"%string "node"%string) by discriminate.
    now rewrite insert_insert_eq. }
  destruct (hasKey op "Check"); [|reflexivity].
  rewrite !lookup_insert_ne by discriminate. rewrite lookup_singleton_eq. simpl.
  rewrite (insert_insert_ne _ "check"%string "node"%string) by discriminate.
  rewrite (insert_insert_ne _ "check"%string "service"%string) by discriminate.
  now rewrite insert_singleton_eq.
Qed.

Lemma foldl_countStep ops : forall a b c,
  foldl countStep (counts3 (GoInt.wrap a) (GoInt.wrap b) (GoInt.wrap c)) ops
  = counts3 (GoInt.wrap (a + len (nodeOperations ops)))
            (GoInt.wrap (b + len (serviceOperations ops)))
            (GoInt.wrap (c + len (checkOperations ops))).
Proof.
  unfold len, nodeOperations, serviceOperations, checkOperations.
  induction ops as [|op ops IH]; intros a b c.
  - simpl. now rewrite !Z.add_0_r.
  - cbn [foldl List.filter]. rewrite countStep_counts3. unfold GoInt.add.
    rewrite !wrap_wrap_add.
    destruct (hasKey op "Node"); [|destruct (hasKey op "Service");
      [|destruct (hasKey op "Check")]];
      rewrite IH; cbn [negb andb length]; apply f_equal3; f_equal; lia.
Qed.

(** X13: countOperationTypes counts an operation under the first of "Node",
    "Service" and "Check" that it has as a key, and under nothing when it
    has none of them. *)
Theorem countOperationTypes_by_first_key ops :
  countOperationTypes ops
  = counts3 (GoInt.wrap (len (nodeOperations ops)))
            (GoInt.wrap (len (serviceOperations ops)))
            (GoInt.wrap (len (checkOperations ops))).
Proof.
  unfold countOperationTypes.
  change (<["node"%string := 0]> (<["service"%string := 0]> {[ "check"%string := 0 ]}))
    with (counts3 (GoInt.wrap 0) (GoInt.wrap 0) (GoInt.wrap 0)).
  rewrite foldl_countStep. reflexivity.
Qed.

Lemma counts_partition (ops : list GoMap) :
  Forall (fun op => hasKey op "Node" || hasKey op "Service"
                    || hasKey op "Check" = true) ops ->
  len (nodeOperations ops) + len (serviceOperations ops)
  + len (checkOperations ops) = len ops.
Proof.
  unfold len, nodeOperations, serviceOperations, checkOperations.
  induction 1 as [|op ops Hop _ IH]; [reflexivity|].
  cbn [List.filter length].
  destruct (hasKey op "Node"); [|destruct (hasKey op "Service");
    [|destruct (hasKey op "Check"); [|discriminate]]];
    cbn [negb andb length]; lia.
Qed.

Lemma filter_length_le {A : Type} (f : A -> bool) (l : list A) :
  (length (List.filter f l) <= length l)%nat.
Proof.
  induction l as [|x l IH]; [reflexivity|].
  simpl. destruct (f x); simpl; lia.
Qed.

Section CountFacts.
Context {rt : GoRuntime}.

Lemma generated_has_kind vars config datacenter w :
  Forall (fun op => hasKey op "Node" || hasKey op "Service"
                    || hasKey op "Check" = true)
    (fst (generateAllOperations vars config datacenter w)).
Proof.
  assert (E : fst (generateAllOperations vars config datacenter w)
              = flat_map (recordOperations config datacenter) vars).
  { unfold generateAllOperations, bind, logPrintf, ret.
    pose proof (nodesLoop_spec vars config datacenter []
                  (mkWorld (sent w)
                     (logged w ++ [InfoGenerating (Z.of_nat (length vars))])))
      as H.
    destruct (nodesLoop vars config datacenter [] _). exact H. }
  rewrite E. apply Forall_forall. intros op Hop.
  apply list_elem_of_In, in_flat_map in Hop as ([key v] & _ & Hop).
  unfold recordOperations in Hop. destruct v; try (now inversion Hop).
  apply list_elem_of_In, generated_envelope in Hop
    as (rule & body & _ & -> & _ & Hkind).
  unfold hasKey.
  destruct Hkind as [[-> _]|[[->| ->] _]]; reflexivity.
Qed.

(** X14: for the operations the engine generates, the three counts of the
    dry run add up to the total. *)
Theorem generated_counts_add_up vars config datacenter w :
  len (fst (generateAllOperations vars config datacenter w)) < 2 ^ 63 ->
  countOf (countOperationTypes
             (fst (generateAllOperations vars config datacenter w))) "node"
  + countOf (countOperationTypes
               (fst (generateAllOperations vars config datacenter w))) "service"
  + countOf (countOperationTypes
               (fst (generateAllOperations vars config datacenter w))) "check"
  = len (fst (generateAllOperations vars config datacenter w)).
Proof.
  intros Hfit.
  set (ops := fst (generateAllOperations vars config datacenter w)) in *.
  rewrite (foldl_countStep ops 0 0 0 : countOperationTypes ops = _).
  unfold countOf, counts3.
  rewrite lookup_insert_eq.
  rewrite (lookup_insert_ne _ "node"%string "service"%string) by discriminate.
  rewrite lookup_insert_eq.
  rewrite !lookup_insert_ne by discriminate. rewrite lookup_singleton_eq.
  cbn [default from_option id]. rewrite !Z.add_0_l.
  pose proof (counts_partition ops (generated_has_kind _ _ _ _)) as Hsum.
  pose proof (filter_length_le (fun op => hasKey op "Node") ops).
  pose proof (filter_length_le
                (fun op => negb (hasKey op "Node") && hasKey op "Service") ops).
  pose proof (filter_length_le
                (fun op => negb (hasKey op "Node") && negb (hasKey op "Service")
                           && hasKey op "Check") ops).
  unfold len, nodeOperations, serviceOperations, checkOperations in *.
  rewrite !wrap_id by (unfold GoInt.minInt, GoInt.maxInt; lia).
  exact Hsum.
Qed.

End CountFacts.

Lemma totalBatches_spec (ops : list GoMap) :
  len ops + 64 < 2 ^ 63 ->
  GoInt.div (GoInt.sub (GoInt.add (len ops) 64) 1) 64
  = Z.of_nat (batchCount ops).
Proof.
  intros Hfit. unfold GoInt.div, GoInt.sub, GoInt.add, len in *.
  rewrite (wrap_id (Z.of_nat (length ops) + 64))
    by (unfold GoInt.minInt, GoInt.maxInt; lia).
  rewrite (wrap_id (Z.of_nat (length ops) + 64 - 1))
    by (unfold GoInt.minInt, GoInt.maxInt; lia).
  rewrite Z.quot_div_nonneg by lia.
  unfold batchCount.
  replace (Z.of_nat (length ops) + 64 - 1) with (Z.of_nat (length ops + 63))
    by lia.
  change 64 with (Z.of_nat 64). rewrite <- Nat2Z.inj_div.
  apply wrap_id. unfold GoInt.minInt, GoInt.maxInt.
  pose proof (Nat.Div0.div_le_upper_bound (length ops + 63) 64 (length ops + 63)).
  lia.
Qed.

Lemma slice_batchAt (ops : list GoMap) (k : nat) :
  (k < batchCount ops)%nat ->
  slice ops (Z.of_nat (64 * k))
    (GoInt.min (Z.of_nat (64 * S k)) (len ops)) = Some (batchAt ops k).
Proof.
  intros Hk. pose proof (batchCount_spec ops) as Hbc.
  unfold slice, GoInt.min, len, batchAt.
  destruct (Z.ltb_spec (Z.of_nat (64 * S k)) (Z.of_nat (length ops))).
  - replace ((0 <=? Z.of_nat (64 * k)) &&
             (Z.of_nat (64 * k) <=? Z.of_nat (64 * S k)) &&
             (Z.of_nat (64 * S k) <=? Z.of_nat (length ops))) with true
      by (symmetry; rewrite !andb_true_iff, !Z.leb_le; lia).
    rewrite Nat2Z.id. do 2 f_equal. lia.
  - replace ((0 <=? Z.of_nat (64 * k)) &&
             (Z.of_nat (64 * k) <=? Z.of_nat (length ops)) &&
             (Z.of_nat (length ops) <=? Z.of_nat (length ops))) with true
      by (symmetry; rewrite !andb_true_iff, !Z.leb_le; lia).
    rewrite Nat2Z.id. f_equal.
    rewrite !take_ge; [reflexivity| |]; rewrite length_drop; lia.
Qed.

Section PayloadFacts.
Context {net : Transport} {enc : ObjectEncoder}.

Lemma payloadLoop_lines ops datacenter verbose :
  len ops + 64 < 2 ^ 63 ->
  forall fuel (k : nat) c,
    (k <= batchCount ops)%nat ->
    (batchCount ops - k <= fuel)%nat ->
    payloadLoop fuel ops datacenter verbose (Z.of_nat (batchCount ops))
      (Z.of_nat (64 * k)) c
    = (Finished,
       mkConsole (world c)
         (stdout c ++ omap (payloadLine ops datacenter verbose)
                        (seq k (batchCount ops - k)))
         (stderr c ++ omap (payloadFailure ops datacenter verbose)
                        (seq k (batchCount ops - k)))
         (notes c)).
Proof.
  intros Hfit. pose proof (batchCount_spec ops) as Hbc.
  assert (Hdone : forall fuel (k : nat) c, (batchCount ops <= k)%nat ->
            payloadLoop fuel ops datacenter verbose (Z.of_nat (batchCount ops))
              (Z.of_nat (64 * k)) c = (Finished, c)).
  { intros fuel k c Hk.
    assert (Hlt : (Z.of_nat (64 * k) <? len ops) = false).
    { apply Z.ltb_ge. unfold len. lia. }
    destruct fuel; cbn [payloadLoop]; rewrite Hlt; reflexivity. }
  induction fuel as [|fuel IH]; intros k c Hk Hfuel.
  - rewrite Hdone by lia. replace (batchCount ops - k)%nat with 0%nat by lia.
    simpl. rewrite !app_nil_r. now destruct c.
  - destruct (decide (k < batchCount ops)%nat) as [Hlt|Hge].
    2:{ rewrite Hdone by lia.
        replace (batchCount ops - k)%nat with 0%nat by lia.
        simpl. rewrite !app_nil_r. now destruct c. }
    replace (batchCount ops - k)%nat with (S (batchCount ops - S k)) by lia.
    cbn [seq omap list_omap]. fold (@omap list _ _ _ (payloadLine ops datacenter verbose)).
    fold (@omap list _ _ _ (payloadFailure ops datacenter verbose)).
    cbn [payloadLoop].
    assert (Hi : Z.of_nat (64 * k) < len ops) by (unfold len in *; lia).
    apply Z.ltb_lt in Hi as Hb. rewrite Hb.
    unfold maxBatchSize, GoInt.add, GoInt.div.
    rewrite (wrap_id (Z.of_nat (64 * k) + 64))
      by (unfold GoInt.minInt, GoInt.maxInt, len in *; lia).
    replace (Z.of_nat (64 * k) + 64) with (Z.of_nat (64 * S k)) by lia.
    replace (Z.quot (Z.of_nat (64 * k)) 64) with (Z.of_nat k).
    2:{ rewrite Z.quot_div_nonneg by lia.
        replace (Z.of_nat (64 * k)) with (Z.of_nat k * 64) by lia.
        now rewrite Z.div_mul by lia. }
    rewrite (wrap_id (Z.of_nat k))
      by (unfold GoInt.minInt, GoInt.maxInt, len in *; lia).
    rewrite (wrap_id (Z.of_nat k + 1))
      by (unfold GoInt.minInt, GoInt.maxInt, len in *; lia).
    rewrite slice_batchAt by assumption.
    unfold andThen, payloadLine, payloadFailure.
    fold (payloadObject ops datacenter verbose k).
    destruct (jsonMarshalObject (payloadObject ops datacenter verbose k))
      as [jsonBytes|]; cbn [println eprintln fmap option_fmap option_map];
      rewrite IH by lia; cbn [world stdout stderr notes];
      rewrite <- ?app_assoc; reflexivity.
Qed.

(** X15: outputPayload prints one object per batch ExecuteOperations would
    send, in their order, numbered from 1; an object that does not encode
    is reported on standard error and the loop goes on.  Nothing is sent
    and nothing is logged. *)
Theorem payload_lines_follow_the_batches ops datacenter verbose c :
  len ops + 64 < 2 ^ 63 ->
  outputPayload ops datacenter verbose c
  = (Finished,
     mkConsole (world c)
       (stdout c ++ omap (payloadLine ops datacenter verbose)
                      (seq 0 (length (batchesOf ops))))
       (stderr c ++ omap (payloadFailure ops datacenter verbose)
                      (seq 0 (length (batchesOf ops))))
       (notes c)).
Proof.
  intros Hfit. unfold outputPayload, maxBatchSize.
  rewrite totalBatches_spec by assumption.
  pose proof (batchCount_spec ops) as Hbc.
  unfold batchesOf. rewrite length_map, length_seq.
  pose proof (payloadLoop_lines ops datacenter verbose Hfit (length ops) 0 c
                ltac:(lia) ltac:(lia)) as H.
  rewrite Nat.sub_0_r in H. exact H.
Qed.

End PayloadFacts.

Section DryRunFacts.
Context {net : Transport} {enc : ObjectEncoder}.

Lemma detailLoop_lines ops (d : nat) :
  (d <= length ops)%nat -> (d <= 10)%nat ->
  forall fuel (i : nat) c,
    (i <= d)%nat -> (d - i <= fuel)%nat ->
    detailLoop fuel ops (Z.of_nat d) (Z.of_nat i) c
    = (Finished,
       mkConsole (world c)
         (stdout c ++ omap (detailLine ops) (seq i (d - i)))
         (stderr c)
         (notes c ++ omap (detailWarning ops) (seq i (d - i)))).
Proof.
  intros Hd H10.
  induction fuel as [|fuel IH]; intros i c Hi Hfuel.
  - replace (d - i)%nat with 0%nat by lia. cbn [detailLoop].
    replace (Z.of_nat i <? Z.of_nat d) with false
      by (symmetry; apply Z.ltb_ge; lia).
    simpl. rewrite !app_nil_r. now destruct c.
  - cbn [detailLoop]. destruct (Z.ltb_spec (Z.of_nat i) (Z.of_nat d)) as [Hlt|Hge].
    2:{ replace (d - i)%nat with 0%nat by lia.
        simpl. rewrite !app_nil_r. now destruct c. }
    replace (d - i)%nat with (S (d - S i)) by lia.
    cbn [seq omap list_omap].
    fold (@omap list _ _ _ (detailLine ops)).
    fold (@omap list _ _ _ (detailWarning ops)).
    replace (0 <=? Z.of_nat i) with true by (symmetry; apply Z.leb_le; lia).
    rewrite Nat2Z.id. unfold detailLine at 1, detailWarning at 1.
    destruct (lookup_lt_is_Some_2 ops i ltac:(lia)) as [op Hop].
    rewrite Hop. unfold GoInt.add.
    rewrite (wrap_id (Z.of_nat i + 1))
      by (unfold GoInt.minInt, GoInt.maxInt; lia).
    replace (Z.of_nat i + 1) with (Z.of_nat (S i)) by lia.
    unfold andThen.
    destruct (jsonMarshalIndent op) as [jsonBytes|];
      cbn [println note fmap option_fmap option_map];
      rewrite IH by lia; cbn [world stdout stderr notes];
      rewrite <- ?app_assoc; rewrite ?app_nil_r;
      replace (Z.of_nat (S i)) with (Z.of_nat i + 1) by lia; reflexivity.
Qed.

(** X16: printOperationsDetail shows the first ten operations at most,
    numbered from 1 in their order, and then how many more there are; an
    operation that does not encode is logged and left out.  It ends
    normally. *)
Theorem detail_shows_the_first_ten ops c :
  printOperationsDetail ops c
  = (Finished,
     mkConsole (world c)
       (stdout c ++ [DetailHeader]
        ++ omap (detailLine ops) (seq 0 (Nat.min (length ops) 10))
        ++ (if 10 <? len ops
            then [MoreOperations (GoInt.sub (len ops) 10)]
            else []))
       (stderr c)
       (notes c ++ omap (detailWarning ops)
                     (seq 0 (Nat.min (length ops) 10)))).
Proof.
  unfold printOperationsDetail, maxDisplay, andThen. cbn [println].
  assert (Hmin : GoInt.min (len ops) 10 = Z.of_nat (Nat.min (length ops) 10)).
  { unfold GoInt.min, len. destruct (Z.ltb_spec (Z.of_nat (length ops)) 10); lia. }
  rewrite Hmin.
  pose proof (detailLoop_lines ops (Nat.min (length ops) 10) ltac:(lia)
                ltac:(lia) (Z.to_nat 10) 0
                (mkConsole (world c) (stdout c ++ [DetailHeader]) (stderr c)
                   (notes c)) ltac:(lia) ltac:(lia)) as H.
  rewrite Nat.sub_0_r in H. change (Z.of_nat 0) with 0 in H. rewrite H.
  cbn [world stdout stderr notes].
  destruct (10 <? len ops); cbn [println world stdout stderr notes];
    rewrite <- ?app_assoc; rewrite ?app_nil_r; reflexivity.
Qed.

(** X17: the dry run announces as many batches as ExecuteOperations would
    send, and counts that are those of the operations with a "Node" key, of
    the others with a "Service" key, and of the rest with a "Check" key; the
    details follow when verbose. *)
Theorem dry_run_announces_the_batches ops verbose c :
  len ops + 64 < 2 ^ 63 ->
  printDryRun ops verbose c
  = (if verbose then printOperationsDetail ops else yield Finished)
      (mkConsole (world c) (stdout c ++ summaryLines ops) (stderr c)
         (notes c)).
Proof.
  intros Hfit. unfold printDryRun, maxBatchSize, andThen. cbn [println].
  rewrite totalBatches_spec by assumption.
  rewrite (foldl_countStep ops 0 0 0 : countOperationTypes ops = _).
  unfold countOf, counts3.
  rewrite lookup_insert_eq.
  rewrite (lookup_insert_ne _ "node"%string "service"%string) by discriminate.
  rewrite lookup_insert_eq.
  rewrite !lookup_insert_ne by discriminate. rewrite lookup_singleton_eq.
  cbn [default from_option id]. rewrite !Z.add_0_l.
  pose proof (filter_length_le (fun op => hasKey op "Node") ops).
  pose proof (filter_length_le
                (fun op => negb (hasKey op "Node") && hasKey op "Service") ops).
  pose proof (filter_length_le
                (fun op => negb (hasKey op "Node") && negb (hasKey op "Service")
                           && hasKey op "Check") ops).
  assert (Hn : GoInt.wrap (len (nodeOperations ops)) = len (nodeOperations ops)).
  { apply wrap_id.
    unfold len, nodeOperations, GoInt.minInt, GoInt.maxInt in *. lia. }
  assert (Hs : GoInt.wrap (len (serviceOperations ops))
               = len (serviceOperations ops)).
  { apply wrap_id.
    unfold len, serviceOperations, GoInt.minInt, GoInt.maxInt in *. lia. }
  assert (Hc : GoInt.wrap (len (checkOperations ops))
               = len (checkOperations ops)).
  { apply wrap_id.
    unfold len, checkOperations, GoInt.minInt, GoInt.maxInt in *. lia. }
  rewrite Hn, Hs, Hc. unfold summaryLines.
  assert (Hb : len (batchesOf ops) = Z.of_nat (batchCount ops)).
  { unfold len, batchesOf. now rewrite length_map, length_seq. }
  rewrite Hb.
  destruct (0 <? len (checkOperations ops));
    cbn [println yield world stdout stderr notes];
    rewrite <- ?app_assoc; reflexivity.
Qed.

End DryRunFacts.


(** ** Facts about the loader *)

Lemma string_of_list_ascii_app (a b : list ascii) :
  string_of_list_ascii (a ++ b)
  = string_of_list_ascii a +:+ string_of_list_ascii b.
Proof.
  induction a as [|x a IH]; [reflexivity|].
  simpl. rewrite IH. reflexivity.
Qed.

Lemma list_ascii_of_string_app (a b : string) :
  list_ascii_of_string (a +:+ b)
  = list_ascii_of_string a ++ list_ascii_of_string b.
Proof.
  induction a as [|x a IH]; [reflexivity|].
  change (String x a +:+ b) with (String x (a +:+ b)).
  simpl. now rewrite IH.
Qed.

Lemma extFrom_suffix reversed : forall suffix out,
  extFrom reversed suffix = out ->
  out = [] \/ exists before, rev reversed ++ suffix = before ++ out.
Proof.
  induction reversed as [|c rest IH]; intros suffix out H.
  - left. now subst.
  - cbn [extFrom] in H.
    destruct (Ascii.eqb c "/"); [left; now subst|].
    destruct (Ascii.eqb c ".").
    + right. exists (rev rest). subst out. cbn [rev].
      now rewrite <- app_assoc.
    + destruct (IH _ _ H) as [->|[before Hb]]; [now left|right].
      exists before. cbn [rev]. rewrite <- app_assoc. exact Hb.
Qed.

Lemma Ext_suffix p e :
  e <> ""%string -> Ext p = e -> exists q, p = q +:+ e.
Proof.
  intros Hne He. unfold Ext in He.
  destruct (extFrom_suffix (rev (list_ascii_of_string p)) [] _ eq_refl)
    as [Hnil|[before Hb]].
  - rewrite Hnil in He. simpl in He. congruence.
  - rewrite rev_involutive, app_nil_r in Hb.
    exists (string_of_list_ascii before).
    rewrite <- He, <- string_of_list_ascii_app, <- Hb.
    now rewrite string_of_list_ascii_of_string.
Qed.

Section SuffixFacts.
Context {fs : FileSystem}.

(** X18: the directory loader takes a file for a YAML file exactly when its
    path ends in ".yaml" or in ".yml"; a file with another path is passed
    over without being read. *)
Theorem yaml_files_are_told_by_suffix p :
  (isYAML p = true <->
   exists q, p = q +:+ ".yaml" \/ p = q +:+ ".yml") /\
  (forall path verbose rest allVars n,
      isYAML p = false ->
      walkLoop (mkEntry p (Some false) :: rest) path verbose allVars n
      = walkLoop rest path verbose allVars n).
Proof.
  split.
  - unfold isYAML. rewrite orb_true_iff, !String.eqb_eq. split.
    + intros [H|H]; apply Ext_suffix in H as [q ->]; try discriminate;
        exists q; auto.
    + intros [q [-> | ->]]; [left|right]; unfold Ext;
        rewrite list_ascii_of_string_app, rev_app_distr; reflexivity.
  - intros path verbose rest allVars n Hno. unfold isYAML in Hno.
    apply orb_false_iff in Hno as [H1 H2].
    cbn [walkLoop entryInfo entryPath]. now rewrite H1, H2.
Qed.

End SuffixFacts.

Lemma mergeLoop_union source sourcePath : forall (target : GoMap) added c,
  fst (mergeLoop target (GoInt.wrap added) source sourcePath c)
  = (target ∪ list_to_map source,
     GoInt.wrap (added + Z.of_nat (size (target ∪ list_to_map source))
                 - Z.of_nat (size target))).
Proof.
  induction source as [|[k v] rest IH]; intros target added c.
  - cbn [mergeLoop list_to_map foldr]. unfold yield. cbn [fst].
    rewrite (right_id_L ∅ (∪)). do 2 f_equal. lia.
  - cbn [mergeLoop list_to_map foldr uncurry].
    destruct (target !! k) as [old|] eqn:Hk.
    + unfold andThen, note. cbn [fst snd]. rewrite IH.
      assert (E : target ∪ <[k:=v]> (list_to_map rest)
                  = target ∪ list_to_map rest).
      { apply map_eq. intros i. rewrite !lookup_union.
        destruct (decide (i = k)) as [->|Hne].
        - rewrite Hk. simpl. now destruct (list_to_map rest !! k),
            (<[k:=v]> (list_to_map rest) !! k).
        - now rewrite lookup_insert_ne by congruence. }
      fold (@list_to_map string Value GoMap _ _ rest). rewrite E. reflexivity.
    + unfold GoInt.add. rewrite wrap_wrap_add. rewrite IH.
      assert (E : <[k:=v]> target ∪ list_to_map rest
                  = target ∪ <[k:=v]> (list_to_map rest)).
      { apply map_eq. intros i. rewrite !lookup_union.
        destruct (decide (i = k)) as [->|Hne].
        - rewrite !lookup_insert_eq, Hk. simpl.
          now destruct (list_to_map rest !! k).
        - now rewrite !lookup_insert_ne by congruence. }
      fold (@list_to_map string Value GoMap _ _ rest). rewrite E.
      rewrite map_size_insert_None by assumption. cbn [fst snd].
      do 2 f_equal. lia.
Qed.

Lemma preserves_yield {A X : Type} (part : Console -> X) (a : A) :
  preserves part (yield a).
Proof. intros c. reflexivity. Qed.

Lemma preserves_andThen {A B X : Type} (part : Console -> X)
  (p : Prog A) (k : A -> Prog B) :
  preserves part p -> (forall a, preserves part (k a)) ->
  preserves part (andThen p k).
Proof.
  intros Hp Hk c. unfold andThen. specialize (Hp c).
  destruct (p c) as [a c1]. simpl in Hp. rewrite <- Hp. apply Hk.
Qed.

Lemma note_world l : preserves world (note l).
Proof. intros c. reflexivity. Qed.

Lemma note_stdout l : preserves stdout (note l).
Proof. intros c. reflexivity. Qed.

Lemma println_world l : preserves world (println l).
Proof. intros c. reflexivity. Qed.

Lemma eprintln_world l : preserves world (eprintln l).
Proof. intros c. reflexivity. Qed.

Ltac keeps :=
  repeat first
    [ apply preserves_yield
    | apply note_world
    | apply note_stdout
    | apply println_world
    | apply eprintln_world
    | apply preserves_andThen; [| intros ?]
    | match goal with
      | |- preserves _ (match ?x with _ => _ end) => destruct x
      | |- preserves _ (if ?x then _ else _) => destruct x
      end ].

Lemma mergeLoop_world source sourcePath : forall target added,
  preserves world (mergeLoop target added source sourcePath).
Proof.
  induction source as [|[k v] rest IH]; intros target added;
    cbn [mergeLoop]; keeps; apply IH.
Qed.

Lemma mergeLoop_stdout source sourcePath : forall target added,
  preserves stdout (mergeLoop target added source sourcePath).
Proof.
  induction source as [|[k v] rest IH]; intros target added;
    cbn [mergeLoop]; keeps; apply IH.
Qed.

(** X19: whatever the order in which the entries of the source are visited,
    mergeVars leaves in the target what it had and adds the entries of the
    source under new keys; the count it returns is the number of keys
    added. *)
Theorem mergeVars_is_a_union (target source : GoMap) order sourcePath c :
  order ≡ₚ map_to_list source ->
  fst (mergeLoop target 0 order sourcePath c)
  = (target ∪ source,
     GoInt.wrap (Z.of_nat (size (target ∪ source)) - Z.of_nat (size target))).
Proof.
  intros Hperm.
  pose proof (mergeLoop_union order sourcePath target 0 c) as H.
  change (GoInt.wrap 0) with 0 in H. rewrite H.
  assert (E : (list_to_map order : GoMap) = source).
  { rewrite <- (list_to_map_to_list source).
    apply list_to_map_proper; [|exact Hperm].
    rewrite Hperm. apply NoDup_fst_map_to_list. }
  rewrite E. do 2 f_equal.
Qed.

Lemma mergeVars_union (target source : GoMap) sourcePath c :
  fst (mergeVars target source sourcePath c)
  = (target ∪ source,
     GoInt.wrap (Z.of_nat (size (target ∪ source)) - Z.of_nat (size target))).
Proof.
  unfold mergeVars.
  pose proof (mergeLoop_union (map_to_list source) sourcePath target 0 c) as H.
  change (GoInt.wrap 0) with 0 in H. rewrite H.
  now rewrite list_to_map_to_list.
Qed.

Section LoaderFacts.
Context {fs : FileSystem}.

Lemma walkLoop_union path verbose entries : forall (allVars : GoMap) n c,
  fst (walkLoop entries path verbose allVars (GoInt.wrap n) c)
  = if walkSucceeds entries
    then inl (allVars ∪ ⋃ (omap loadedVars entries),
              GoInt.wrap (n + Z.of_nat (length (omap loadedVars entries))))
    else inr tt.
Proof.
  induction entries as [|e rest IH]; intros allVars n c.
  - cbn. rewrite (right_id_L ∅ (∪)). do 3 f_equal. lia.
  - cbn [walkLoop walkSucceeds forallb]. fold (walkSucceeds rest).
    change (omap loadedVars (e :: rest))
      with (match loadedVars e with
            | Some vars => vars :: omap loadedVars rest
            | None => omap loadedVars rest
            end).
    remember (loadedVars e) as loaded eqn:Hl. unfold loadedVars, isYAML in Hl.
    destruct (entryInfo e) as [[|]|]; cbn [andb];
      [subst loaded; apply IH| |reflexivity].
    destruct (String.eqb (Ext (entryPath e)) ".yaml"),
             (String.eqb (Ext (entryPath e)) ".yml"); cbn [negb andb orb] in *;
      try (subst loaded; apply IH).
    all: unfold andThen;
      destruct ((if verbose then note _ else yield tt) c) as [[] c1];
      destruct (loadYAMLFile (entryPath e)) as [vars|err];
      [|subst loaded; cbn [note]; apply IH].
    all: pose proof (mergeVars_union allVars vars
                       (filepathRel path (entryPath e)) c1) as Hm;
      destruct (mergeVars allVars vars _ c1) as [[merged added] c2];
      cbn [fst snd] in *; inversion Hm; subst merged loaded;
      cbn [note]; unfold GoInt.add; rewrite wrap_wrap_add, IH;
      destruct (walkSucceeds rest); [|reflexivity];
      rewrite union_list_cons, (assoc_L (∪)); cbn [length];
      do 3 f_equal; lia.
Qed.

Lemma walkLoop_world path verbose entries : forall allVars n,
  preserves world (walkLoop entries path verbose allVars n).
Proof.
  induction entries as [|e rest IH]; intros allVars n; cbn [walkLoop].
  - keeps.
  - keeps; try apply IH. apply mergeLoop_world.
Qed.

Lemma walkLoop_stdout path verbose entries : forall allVars n,
  preserves stdout (walkLoop entries path verbose allVars n).
Proof.
  induction entries as [|e rest IH]; intros allVars n; cbn [walkLoop].
  - keeps.
  - keeps; try apply IH. apply mergeLoop_stdout.
Qed.

Lemma loadVarsFromDirectory_union path verbose c :
  fst (loadVarsFromDirectory path verbose c)
  = if walkSucceeds (filepathWalk path)
    then inl (⋃ (omap loadedVars (filepathWalk path)))
    else inr FailedToWalkDirectory.
Proof.
  unfold loadVarsFromDirectory, andThen. cbn [note].
  match goal with
  | |- context [walkLoop ?es path verbose ∅ 0 ?c1] =>
      pose proof (walkLoop_union path verbose es ∅ 0 c1) as H;
      change (GoInt.wrap 0) with 0 in H;
      destruct (walkLoop es path verbose ∅ 0 c1) as [[[allVars n]|[]] c2]
  end; cbn [fst] in H;
    destruct (walkSucceeds (filepathWalk path)); try discriminate.
  - rewrite (left_id_L ∅ (∪)) in H. inversion H. reflexivity.
  - reflexivity.
Qed.

(** X20: the directory loader returns the union of the vars of the YAML
    files of the walk that are read and decoded, a key keeping the value of
    the first file that has it; an error reported by the walk makes it
    fail, whatever was loaded before. *)
Theorem directory_vars_are_the_union_of_the_files path verbose c :
  fst (loadVarsFromDirectory path verbose c)
  = if walkSucceeds (filepathWalk path)
    then inl (⋃ (omap loadedVars (filepathWalk path)))
    else inr FailedToWalkDirectory.
Proof. apply loadVarsFromDirectory_union. Qed.

Lemma loadVarsFromDirectory_world path verbose :
  preserves world (loadVarsFromDirectory path verbose).
Proof.
  unfold loadVarsFromDirectory. apply preserves_andThen; [keeps|intros _].
  apply preserves_andThen; [apply walkLoop_world|intros r]. keeps.
Qed.

Lemma loadVarsFromDirectory_stdout path verbose :
  preserves stdout (loadVarsFromDirectory path verbose).
Proof.
  unfold loadVarsFromDirectory. apply preserves_andThen; [keeps|intros _].
  apply preserves_andThen; [apply walkLoop_stdout|intros r]. keeps.
Qed.

Lemma loadVars_world path verbose : preserves world (loadVars path verbose).
Proof.
  unfold loadVars. destruct (osStat path) as [[|]|]; cbn [negb];
    [apply preserves_andThen; [apply loadVarsFromDirectory_world|intros r]| |];
    keeps.
Qed.

Lemma loadVars_stdout path verbose : preserves stdout (loadVars path verbose).
Proof.
  unfold loadVars. destruct (osStat path) as [[|]|]; cbn [negb];
    [apply preserves_andThen; [apply loadVarsFromDirectory_stdout|intros r]| |];
    keeps.
Qed.

Lemma loadMapping_world path : preserves world (loadMapping path).
Proof. unfold loadMapping. keeps. Qed.

Lemma loadMapping_stdout path : preserves stdout (loadMapping path).
Proof. unfold loadMapping. keeps. Qed.

Lemma loadVars_result path verbose c :
  fst (loadVars path verbose c)
  = match osStat path with
    | None => inr CannotAccessVarsPath
    | Some isDir =>
        match (if isDir
               then (if walkSucceeds (filepathWalk path)
                     then inl (⋃ (omap loadedVars (filepathWalk path)))
                     else inr FailedToWalkDirectory)
               else loadYAMLFile path) with
        | inr err => inr err
        | inl allVars =>
            if decide (allVars = ∅) then inr (NoNodesFound path)
            else inl allVars
        end
    end.
Proof.
  unfold loadVars. destruct (osStat path) as [isDir|]; [|reflexivity].
  assert (Hsize : forall (m : GoMap) (c : Console),
            fst ((if Z.of_nat (size m) =? 0
                  then yield (inr (NoNodesFound path))
                  else yield (inl m)) c)
            = if decide (m = ∅) then @inr GoMap _ (NoNodesFound path)
              else inl m).
  { intros m c0. destruct (decide (m = ∅)) as [->|Hne].
    - reflexivity.
    - destruct (Z.eqb_spec (Z.of_nat (size m)) 0) as [Hz|_]; [|reflexivity].
      exfalso. apply Hne. apply map_size_empty_iff. lia. }
  destruct isDir; cbn [negb]; unfold andThen.
  - pose proof (loadVarsFromDirectory_union path verbose c) as H.
    destruct (loadVarsFromDirectory path verbose c) as [[allVars|err] c1];
      cbn [fst] in H; rewrite <- H; [apply Hsize|reflexivity].
  - cbn [note]. destruct (loadYAMLFile path) as [vars|err];
      [cbn [note]; apply Hsize|reflexivity].
Qed.

(** X21: loadVars never returns an empty map: what it returns is the decoded
    file when the path is a file, and the union over the directory when it
    is one. *)
Theorem loaded_vars_are_never_empty path verbose c (vars : GoMap) :
  fst (loadVars path verbose c) = inl vars ->
  vars <> ∅ /\
  ((osStat path = Some false /\ loadYAMLFile path = inl vars) \/
   (osStat path = Some true /\ walkSucceeds (filepathWalk path) = true /\
    vars = ⋃ (omap loadedVars (filepathWalk path)))).
Proof.
  rewrite loadVars_result.
  destruct (osStat path) as [[|]|]; [| |discriminate].
  - destruct (walkSucceeds (filepathWalk path)); [|discriminate].
    destruct (decide (_ = ∅)) as [|Hne]; [discriminate|].
    intros [= <-]. split; [exact Hne|]. right. auto.
  - destruct (loadYAMLFile path) as [m|]; [|discriminate].
    destruct (decide (m = ∅)) as [|Hne]; [discriminate|].
    intros [= <-]. split; [exact Hne|]. left. auto.
Qed.

(** X22: loadMapping returns a configuration only when the file is read and
    decoded and holds at least one rule. *)
Theorem loaded_mapping_has_a_rule path c (config : MappingConfig) :
  fst (loadMapping path c) = inl config ->
  Operations config <> [] /\
  exists data, osReadFile path = Some data /\
               yamlUnmarshalMapping data = Some config.
Proof.
  unfold loadMapping. destruct (osReadFile path) as [data|]; [|discriminate].
  destruct (yamlUnmarshalMapping data) as [config'|] eqn:Hy; [|discriminate].
  destruct (Z.eqb_spec (len (Operations config')) 0) as [|Hne];
    [discriminate|].
  unfold andThen. cbn. intros [= <-]. split; [|eauto].
  intros Hnil. rewrite Hnil in Hne. now apply Hne.
Qed.

End LoaderFacts.


(** ** Facts about the command *)

Section OutputKeeps.
Context {net : Transport} {enc : ObjectEncoder}.

Lemma payloadLoop_world ops datacenter verbose total fuel : forall i,
  preserves world (payloadLoop fuel ops datacenter verbose total i).
Proof.
  induction fuel as [|fuel IH]; intros i; cbn [payloadLoop]; keeps.
  apply IH.
Qed.

Lemma detailLoop_world ops displayCount fuel : forall i,
  preserves world (detailLoop fuel ops displayCount i).
Proof.
  induction fuel as [|fuel IH]; intros i; cbn [detailLoop]; keeps; apply IH.
Qed.

Lemma printOperationsDetail_world ops :
  preserves world (printOperationsDetail ops).
Proof.
  unfold printOperationsDetail. apply preserves_andThen; [keeps|intros _].
  apply preserves_andThen; [apply detailLoop_world|intros r]. keeps.
Qed.

Lemma printDryRun_world ops verbose : preserves world (printDryRun ops verbose).
Proof.
  unfold printDryRun.
  repeat (apply preserves_andThen; [keeps|intros _]).
  destruct verbose; [apply printOperationsDetail_world|keeps].
Qed.

Lemma outputPayload_world ops datacenter verbose :
  preserves world (outputPayload ops datacenter verbose).
Proof. unfold outputPayload. apply payloadLoop_world. Qed.

End OutputKeeps.

Section GenerationKeeps.
Context {rt : GoRuntime}.

Lemma GenerateOperations_sent ctx config w :
  sent (snd (GenerateOperations ctx config w)) = sent w.
Proof.
  unfold GenerateOperations, bind, ret.
  destruct (rulesLoop_spec ctx (Operations config)) as (new & lines & H).
  now rewrite H.
Qed.

Lemma nodesLoop_sent vars config datacenter : forall acc w,
  sent (snd (nodesLoop vars config datacenter acc w)) = sent w.
Proof.
  induction vars as [|[key v] vars IH]; intros acc w; [reflexivity|].
  destruct v; cbn [nodesLoop]; unfold bind, logPrintf;
    try (rewrite IH; reflexivity).
  match goal with
  | |- context [GenerateOperations ?ctx config w] =>
      pose proof (GenerateOperations_sent ctx config w) as Hs;
      destruct (GenerateOperations ctx config w) as [[ops [e|]] w1]
  end; simpl in Hs; rewrite IH; simpl; congruence.
Qed.

Lemma generateAllOperations_sent vars config datacenter w :
  sent (snd (generateAllOperations vars config datacenter w)) = sent w.
Proof.
  unfold generateAllOperations, bind, logPrintf, ret.
  match goal with
  | |- context [nodesLoop vars config datacenter [] ?w1] =>
      pose proof (nodesLoop_sent vars config datacenter [] w1) as Hs;
      destruct (nodesLoop vars config datacenter [] w1) as [ops w2]
  end. simpl in *. exact Hs.
Qed.

End GenerationKeeps.

Section ExecutorReturns.
Context {net : Transport}.

Lemma ExecuteOperations_returns addr ops verbose w :
  len ops + 64 <= 2 ^ 63 ->
  exists err j w',
    ExecuteOperations addr ops verbose w = (Returned err, w') /\
    sent w' = sent w ++ take j (batchesOf ops) /\
    (err = None -> sent w' = sent w ++ batchesOf ops).
Proof.
  intros Hfit. pose proof (batchCount_spec ops) as Hbc.
  unfold ExecuteOperations.
  destruct (Z.eqb_spec (len ops) 0) as [Hz|Hnz].
  - exists None, 0%nat. eexists. split; [reflexivity|].
    assert (batchCount ops = 0%nat) by (unfold len in Hz; lia).
    unfold batchesOf. rewrite H. simpl. now rewrite app_nil_r.
  - destruct (batchLoop_sends addr ops verbose
                (GoInt.div (GoInt.sub (GoInt.add (len ops)
                   maxOperationsPerTransaction) 1)
                   maxOperationsPerTransaction)
                Hfit (length ops) 0%nat w)
      as (err & j & w' & E & S' & Hj & Hall); [lia|lia|].
    exists err, j, w'. simpl in E. split; [exact E|].
    assert (Htake : forall n, (n <= batchCount ops)%nat ->
              take n (batchesOf ops) = map (batchAt ops) (seq 0 n)).
    { intros n Hn. unfold batchesOf.
      rewrite <- fmap_take, take_seq. do 2 f_equal. lia. }
    split.
    + rewrite Htake by lia. exact S'.
    + intros Hnone. specialize (Hall Hnone). simpl in Hall. subst j.
      exact S'.
Qed.

End ExecutorReturns.

Section MainFacts.
Context {rt : GoRuntime} {net : Transport} {enc : ObjectEncoder}
  {fs : FileSystem}.

Lemma executeMode_inspection_world config ops :
  Cli.Payload config = true \/ Cli.DryRun config = true ->
  preserves world (Cli.executeMode config ops).
Proof.
  intros Hmode. unfold Cli.executeMode.
  destruct (Cli.Payload config); [apply outputPayload_world|].
  destruct (Cli.DryRun config); [apply printDryRun_world|].
  destruct Hmode; discriminate.
Qed.

(** X23: with -payload or -dry-run, main sends nothing to the catalog,
    whatever the files hold and whatever is generated. *)
Theorem inspection_modes_send_nothing config c :
  Cli.Payload config = true \/ Cli.DryRun config = true ->
  sent (world (snd (Cli.main config c))) = sent (world c).
Proof.
  intros Hmode. unfold Cli.main, andThen.
  pose proof (loadVars_world (Cli.VarsPath config) (Cli.Verbose config) c)
    as Hv.
  destruct (loadVars _ _ c) as [[varsData|err] c1]; simpl in Hv;
    [|simpl; congruence].
  pose proof (loadMapping_world (Cli.MappingFile config) c1) as Hm.
  destruct (loadMapping _ c1) as [[mappingConfig|err] c2]; simpl in Hm;
    [|simpl; congruence].
  unfold lift.
  pose proof (generateAllOperations_sent (map_to_list varsData) mappingConfig
                (Cli.Datacenter config) (world c2)) as Hg.
  destruct (generateAllOperations _ _ _ (world c2)) as [ops w3].
  simpl in Hg.
  rewrite (executeMode_inspection_world config ops Hmode). simpl. congruence.
Qed.

(** X24: when the vars or the mapping cannot be loaded, main exits with
    status 1 before anything is generated: the log of the engine and of the
    executor, what was sent and standard output are as before. *)
Theorem failed_load_stops_main config c :
  (exists e, fst (loadVars (Cli.VarsPath config) (Cli.Verbose config) c)
             = inr e) \/
  (exists e, fst (loadMapping (Cli.MappingFile config) c) = inr e) ->
  fst (Cli.main config c) = Exited 1 /\
  world (snd (Cli.main config c)) = world c /\
  stdout (snd (Cli.main config c)) = stdout c.
Proof.
  intros Hfail. unfold Cli.main, andThen.
  pose proof (loadVars_world (Cli.VarsPath config) (Cli.Verbose config) c)
    as Hw.
  pose proof (loadVars_stdout (Cli.VarsPath config) (Cli.Verbose config) c)
    as Ho.
  destruct (loadVars _ _ c) as [[varsData|err] c1]; simpl in Hw, Ho;
    [|simpl; auto].
  destruct Hfail as [[e He]|[e He]]; [discriminate|].
  pose proof (loadMapping_world (Cli.MappingFile config) c1) as Hw2.
  pose proof (loadMapping_stdout (Cli.MappingFile config) c1) as Ho2.
  assert (Hsame : fst (loadMapping (Cli.MappingFile config) c1) = inr e).
  { rewrite <- He. unfold loadMapping.
    destruct (osReadFile _); [|reflexivity].
    destruct (yamlUnmarshalMapping _); [|reflexivity].
    now destruct (_ =? 0). }
  destruct (loadMapping _ c1) as [[mappingConfig|err] c2];
    simpl in Hw2, Ho2, Hsame; [discriminate|].
  simpl. repeat split; congruence.
Qed.

(** X25: without -payload and -dry-run, executeMode ends normally only when
    every batch of the operations has been sent, and it then logs their
    number; when a batch fails it logs the error and exits with status 1, a
    prefix of the batches having been sent.  It does not panic. *)
Theorem execute_mode_follows_the_executor config ops c :
  len ops + 64 <= 2 ^ 63 ->
  Cli.Payload config = false ->
  Cli.DryRun config = false ->
  match fst (Cli.executeMode config ops c) with
  | Finished =>
      sent (world (snd (Cli.executeMode config ops c)))
      = sent (world c) ++ batchesOf ops /\
      notes (snd (Cli.executeMode config ops c))
      = notes c ++ [InfoSynced (len ops)]
  | Exited code =>
      code = 1 /\
      exists j e,
        sent (world (snd (Cli.executeMode config ops c)))
        = sent (world c) ++ take j (batchesOf ops) /\
        notes (snd (Cli.executeMode config ops c))
        = notes c ++ [FatalExecute e]
  | Crashed | Starved => False
  end.
Proof.
  intros Hfit Hp Hd. unfold Cli.executeMode. rewrite Hp, Hd.
  unfold andThen, lift.
  destruct (ExecuteOperations_returns (Cli.ConsulAddr config) ops
              (Cli.Verbose config) (world c) Hfit)
    as (err & j & w' & E & Hj & Hall).
  rewrite E. destruct err as [e|]; simpl.
  - split; [reflexivity|]. exists j, e. auto.
  - split; [auto|reflexivity].
Qed.

End MainFacts.


(** ** The further properties on the samples *)

Example sample_directory :
  fst (loadVars "vars" false freshConsole) = inl sampleVars.
Proof. reflexivity. Qed.

Example sample_main_dry_run :
  stdout (snd (Cli.main (sampleConfig true false) freshConsole))
  = [DryRunHeader; TotalOperations 2; NodeOperations 2; ServiceOperations 0;
     BatchesRequired 1 64].
Proof. reflexivity. Qed.

(** Witness of X2: the first operation of the test "foreach processing with
    array". *)
Lemma envelope_witness :
  serviceOperation "test-node-002" "sub1" "main-service" 8080
    ∈ fst (fst (GenerateOperations foreachContext (mkConfig [foreachRule])
                  freshWorld)) /\
  exists rule body,
    rule ∈ [foreachRule] /\
    serviceOperation "test-node-002" "sub1" "main-service" 8080
    = {[ Type_ rule := VMap body ]} /\
    body !! "Verb"%string = Some (VString (effectiveVerb rule)).
Proof.
  assert (H : serviceOperation "test-node-002" "sub1" "main-service" 8080
                ∈ fst (fst (GenerateOperations foreachContext
                              (mkConfig [foreachRule]) freshWorld))).
  { rewrite foreach_test. apply list_elem_of_here. }
  split; [exact H|].
  destruct (generated_operation_is_an_envelope _ _ _ _ H)
    as (rule & body & Hr & Hop & Hv & _).
  exists rule, body. auto.
Defined.

(** Witness of X4: a host name. *)
Lemma literal_text_witness :
  braceFree "web-01" = true /\
  evaluateTemplate "web-01" emptyRecordContext = inl "web-01"%string.
Proof.
  split; [reflexivity|].
  exact (literal_text_evaluates_to_itself "web-01" emptyRecordContext eq_refl).
Defined.

(** Witness of X5: port 8080. *)
Lemma port_text_witness :
  0 <= 8080 <= 65535 /\
  processTemplate (VString "8080") emptyRecordContext = inl (VInt 8080).
Proof.
  assert (H : 0 <= 8080 <= 65535) by lia.
  split; [exact H|].
  exact (port_text_becomes_its_number emptyRecordContext 8080 H).
Defined.


(** Witness of X7: 130 operations and a catalog that answers 500. *)
Lemma other_status_witness :
  len operations130 + 64 <= 2 ^ 63 /\
  fst (ExecuteOperations (net := failingNet) "http://127.0.0.1:8500"
         operations130 false freshWorld)
  = Returned (Some (BatchFailed 1 (HTTPStatus 500 "boom"))) /\
  map length (sent (snd (ExecuteOperations (net := failingNet)
                           "http://127.0.0.1:8500" operations130 false
                           freshWorld))) = [64]%nat.
Proof.
  assert (Hfit : len operations130 + 64 <= 2 ^ 63) by (vm_compute; discriminate).
  split; [exact Hfit|]. split; [|reflexivity].
  destruct (ExecuteOperations (net := failingNet) "http://127.0.0.1:8500"
              operations130 false freshWorld) as [out w'] eqn:Hrun.
  assert (Hsent : sent w' = ([] ++ take 64 operations130 :: [])%list).
  { change w' with (snd (out, w')). rewrite <- Hrun. reflexivity. }
  destruct (other_status_is_fatal (net := failingNet) "http://127.0.0.1:8500"
              operations130 false freshWorld out w'
              [] (take 64 operations130) [] 500 "boom"
              Hfit Hrun Hsent) as [Hfatal _].
  - simpl. lia.
  - reflexivity.
  - discriminate.
  - discriminate.
  - exact Hfatal.
Defined.

(** Witness of X8: 130 operations and a catalog that answers 409 with a body
    that does not decode. *)
Lemma undecoded_conflict_witness :
  len operations130 + 64 <= 2 ^ 63 /\
  fst (ExecuteOperations (net := rollingBackNet) "http://127.0.0.1:8500"
         operations130 false freshWorld)
  = Returned (Some (BatchFailed 1 (TransactionRolledBack 409 "oops"))).
Proof.
  assert (Hfit : len operations130 + 64 <= 2 ^ 63) by (vm_compute; discriminate).
  split; [exact Hfit|].
  destruct (ExecuteOperations (net := rollingBackNet) "http://127.0.0.1:8500"
              operations130 false freshWorld) as [out w'] eqn:Hrun.
  assert (Hsent : sent w' = ([] ++ take 64 operations130 :: [])%list).
  { change w' with (snd (out, w')). rewrite <- Hrun. reflexivity. }
  destruct (conflict_without_error_list (net := rollingBackNet)
              "http://127.0.0.1:8500" operations130 false freshWorld out w'
              [] (take 64 operations130) [] "oops"
              Hfit Hrun Hsent) as [Hnone _].
  - simpl. lia.
  - reflexivity.
  - destruct (Hnone eq_refl) as [Hfatal _]. exact Hfatal.
Defined.

(** Witness of X9: 130 operations and a catalog that does not answer. *)
Lemma unanswered_request_witness :
  len operations130 + 64 <= 2 ^ 63 /\
  fst (ExecuteOperations (net := silentNet) "http://127.0.0.1:8500"
         operations130 false freshWorld)
  = Returned (Some (BatchFailed 1 FailedToSendRequest)).
Proof.
  assert (Hfit : len operations130 + 64 <= 2 ^ 63) by (vm_compute; discriminate).
  split; [exact Hfit|].
  destruct (ExecuteOperations (net := silentNet) "http://127.0.0.1:8500"
              operations130 false freshWorld) as [out w'] eqn:Hrun.
  assert (Hsent : sent w' = ([] ++ take 64 operations130 :: [])%list).
  { change w' with (snd (out, w')). rewrite <- Hrun. reflexivity. }
  destruct (unanswered_request_is_fatal (net := silentNet)
              "http://127.0.0.1:8500" operations130 false freshWorld out w'
              [] (take 64 operations130) []
              Hfit Hrun Hsent) as [Hnone _].
  - simpl. lia.
  - destruct (Hnone eq_refl) as [Hfatal _]. exact Hfatal.
Defined.

(** Witness of X10: the second of the three batches of 130 operations. *)
Lemma continued_batches_witness :
  len operations130 + 64 <= 2 ^ 63 /\
  exists body,
    roundTrip [take 64 operations130] "http://127.0.0.1:8500/v1/txn"
      (take 64 (drop 64 operations130))
    = Received (mkResponse StatusOK (Some body)).
Proof.
  assert (Hfit : len operations130 + 64 <= 2 ^ 63) by (vm_compute; discriminate).
  split; [exact Hfit|].
  destruct (ExecuteOperations "http://127.0.0.1:8500"
              operations130 false freshWorld) as [out w'] eqn:Hrun.
  assert (Hsent : sent w' = ([take 64 operations130]
                            ++ take 64 (drop 64 operations130)
                            :: [drop 128 operations130])%list).
  { change w' with (snd (out, w')). rewrite <- Hrun. reflexivity. }
  apply (continued_batches_were_accepted "http://127.0.0.1:8500"
           operations130 false freshWorld out w'
           [take 64 operations130] (take 64 (drop 64 operations130))
           [drop 128 operations130] Hfit Hrun Hsent).
  - simpl. lia.
  - left. discriminate.
Defined.

(** Witness of X12: 130 operations and a catalog that accepts every batch. *)
Lemma accepted_run_witness :
  len operations130 + 64 <= 2 ^ 63 /\
  exists w' batches,
    ExecuteOperations "http://127.0.0.1:8500" operations130 true freshWorld
    = (Returned None, w') /\
    sent w' = sent freshWorld ++ batches /\
    concat batches = operations130.
Proof.
  assert (Hfit : len operations130 + 64 <= 2 ^ 63) by (vm_compute; discriminate).
  split; [exact Hfit|].
  apply (accepted_run_sends_everything "http://127.0.0.1:8500" operations130
           true freshWorld Hfit).
  - intros batch. discriminate.
  - reflexivity.
  - intros hist batch. exists "ok"%string. reflexivity.
Defined.

(** Witness of X14: the record of the test "foreach processing with array". *)
Lemma generated_counts_witness :
  len (fst (generateAllOperations
              [("test-node-002"%string, VMap (Value_ foreachContext))]
              (mkConfig [foreachRule]) "dc1" freshWorld)) < 2 ^ 63 /\
  countOf (countOperationTypes
             (fst (generateAllOperations
                     [("test-node-002"%string, VMap (Value_ foreachContext))]
                     (mkConfig [foreachRule]) "dc1" freshWorld))) "node"
  + countOf (countOperationTypes
               (fst (generateAllOperations
                       [("test-node-002"%string, VMap (Value_ foreachContext))]
                       (mkConfig [foreachRule]) "dc1" freshWorld))) "service"
  + countOf (countOperationTypes
               (fst (generateAllOperations
                       [("test-node-002"%string, VMap (Value_ foreachContext))]
                       (mkConfig [foreachRule]) "dc1" freshWorld))) "check"
  = 2.
Proof.
  assert (Hfit : len (fst (generateAllOperations
                   [("test-node-002"%string, VMap (Value_ foreachContext))]
                   (mkConfig [foreachRule]) "dc1" freshWorld)) < 2 ^ 63)
    by reflexivity.
  split; [exact Hfit|].
  pose proof (generated_counts_add_up
                [("test-node-002"%string, VMap (Value_ foreachContext))]
                (mkConfig [foreachRule]) "dc1" freshWorld Hfit) as H.
  exact H.
Defined.

(** Witness of X15: 130 operations give three lines. *)
Lemma payload_witness :
  len operations130 + 64 < 2 ^ 63 /\
  outputPayload operations130 "dc1" false freshConsole
  = (Finished,
     mkConsole freshWorld
       [PayloadLine "batch 1 of 64"; PayloadLine "batch 2 of 64";
        PayloadLine "batch 3 of 2"] [] []).
Proof.
  assert (Hfit : len operations130 + 64 < 2 ^ 63) by reflexivity.
  split; [exact Hfit|].
  rewrite (payload_lines_follow_the_batches operations130 "dc1" false
             freshConsole Hfit).
  reflexivity.
Defined.

(** Witness of X17: 65 node operations and one service operation. *)
Lemma dry_run_witness :
  len mixedOperations + 64 < 2 ^ 63 /\
  printDryRun mixedOperations false freshConsole
  = (Finished,
     mkConsole freshWorld
       [DryRunHeader; TotalOperations 66; NodeOperations 65;
        ServiceOperations 1; BatchesRequired 2 64] [] []).
Proof.
  assert (Hfit : len mixedOperations + 64 < 2 ^ 63) by reflexivity.
  split; [exact Hfit|].
  rewrite (dry_run_announces_the_batches mixedOperations false freshConsole
             Hfit).
  reflexivity.
Defined.

(** Witness of X19: web1 is defined on both sides and keeps its first value. *)
Lemma merge_witness :
  map_to_list ({[ "web1"%string := nodeVars "10.9.9.9";
                  "db1"%string := nodeVars "10.0.0.2" ]} : GoMap)
  ≡ₚ map_to_list ({[ "web1"%string := nodeVars "10.9.9.9";
                     "db1"%string := nodeVars "10.0.0.2" ]} : GoMap) /\
  fst (mergeVars {[ "web1"%string := nodeVars "10.0.0.1" ]}
         {[ "web1"%string := nodeVars "10.9.9.9";
            "db1"%string := nodeVars "10.0.0.2" ]} "b.yml" freshConsole)
  = (sampleVars, 1).
Proof.
  split; [reflexivity|].
  unfold mergeVars.
  rewrite (mergeVars_is_a_union {[ "web1"%string := nodeVars "10.0.0.1" ]}
             {[ "web1"%string := nodeVars "10.9.9.9";
                "db1"%string := nodeVars "10.0.0.2" ]}
             (map_to_list ({[ "web1"%string := nodeVars "10.9.9.9";
                              "db1"%string := nodeVars "10.0.0.2" ]} : GoMap))
             "b.yml" freshConsole (reflexivity _)).
  reflexivity.
Defined.

(** Witness of X21: the sample directory. *)
Lemma loaded_vars_witness :
  fst (loadVars "vars" false freshConsole) = inl sampleVars /\
  sampleVars <> ∅ /\
  walkSucceeds (filepathWalk "vars") = true.
Proof.
  assert (H : fst (loadVars "vars" false freshConsole) = inl sampleVars)
    by reflexivity.
  split; [exact H|].
  destruct (loaded_vars_are_never_empty "vars" false freshConsole sampleVars H)
    as [Hne [[Hfile _]|[_ [Hwalk _]]]].
  - discriminate Hfile.
  - split; [exact Hne|exact Hwalk].
Defined.

(** Witness of X22: the sample mapping. *)
Lemma loaded_mapping_witness :
  fst (loadMapping "mapping.yaml" freshConsole) = inl (mkConfig [nodeRule]) /\
  Operations (mkConfig [nodeRule]) <> [].
Proof.
  assert (H : fst (loadMapping "mapping.yaml" freshConsole)
              = inl (mkConfig [nodeRule])) by reflexivity.
  split; [exact H|].
  exact (proj1 (loaded_mapping_has_a_rule "mapping.yaml" freshConsole
                  (mkConfig [nodeRule]) H)).
Defined.

(** Witness of X23: the sample files with -payload. *)
Lemma inspection_witness :
  Cli.Payload (sampleConfig false true) = true /\
  sent (world (snd (Cli.main (sampleConfig false true) freshConsole))) = [].
Proof.
  split; [reflexivity|].
  exact (inspection_modes_send_nothing (sampleConfig false true) freshConsole
           (or_introl eq_refl)).
Defined.

(** Witness of X24: a mapping file without rules. *)
Lemma failed_load_witness :
  fst (loadMapping "norules.yaml" freshConsole) = inr NoOperationsDefined /\
  fst (Cli.main {| Cli.VarsPath := "vars"; Cli.MappingFile := "norules.yaml";
                   Cli.Datacenter := "dc1";
                   Cli.ConsulAddr := "http://127.0.0.1:8500";
                   Cli.DryRun := false; Cli.Verbose := false;
                   Cli.Payload := false |} freshConsole) = Exited 1.
Proof.
  assert (H : fst (loadMapping "norules.yaml" freshConsole)
              = inr NoOperationsDefined) by reflexivity.
  split; [exact H|].
  exact (proj1 (failed_load_stops_main
                  {| Cli.VarsPath := "vars"; Cli.MappingFile := "norules.yaml";
                     Cli.Datacenter := "dc1";
                     Cli.ConsulAddr := "http://127.0.0.1:8500";
                     Cli.DryRun := false; Cli.Verbose := false;
                     Cli.Payload := false |} freshConsole
                  (or_intror (ex_intro _ NoOperationsDefined H)))).
Defined.

(** Witness of X25: 130 operations and a catalog that accepts every batch. *)
Lemma execute_mode_witness :
  len operations130 + 64 <= 2 ^ 63 /\
  fst (Cli.executeMode (sampleConfig false false) operations130 freshConsole)
  = Finished /\
  sent (world (snd (Cli.executeMode (sampleConfig false false) operations130
                      freshConsole)))
  = sent (world freshConsole) ++ batchesOf operations130 /\
  notes (snd (Cli.executeMode (sampleConfig false false) operations130
                freshConsole))
  = notes freshConsole ++ [InfoSynced (len operations130)].
Proof.
  assert (Hfit : len operations130 + 64 <= 2 ^ 63) by (vm_compute; discriminate).
  split; [exact Hfit|].
  assert (Hfin : fst (Cli.executeMode (sampleConfig false false) operations130
                        freshConsole) = Finished) by reflexivity.
  split; [exact Hfin|].
  pose proof (execute_mode_follows_the_executor (sampleConfig false false)
                operations130 freshConsole Hfit eq_refl eq_refl) as H.
  rewrite Hfin in H. exact H.
Defined.

